(** * Framework update checker: a shallow embedding and its properties

    The development follows
    [backend/grc/routes/changemanagement/framework_update_checker.py]:
    the response normaliser [_clean_response_content], the verdict
    extraction and date validation of [query_perplexity_api], the URL
    resolver [find_actual_pdf_url], the acquisition engine
    [download_document] and the orchestrator [run_framework_update_check].

    Python [str] values are modelled as lists of characters whose code
    points lie in U+0000..U+00FF (type [ascii], read as Latin-1).  The
    library functions the program calls ([re], [json], [datetime.strptime],
    [str] methods) are given executable models; the network, the clock and
    the object store are explicit inputs. *)

From Stdlib Require Import Ascii String ZArith Lia Bool Arith List.
Import ListNotations.

Set Implicit Arguments.
Set Warnings "-register-all".
#[local] Set Warnings "-notation-overridden".


(** ** Python strings *)

Module Py.

Definition str := list ascii.

(** A string literal of the source. *)
Definition L (s : string) : str := list_ascii_of_string s.

(** A literal in which the apostrophe stands for the double quote
    (U+0022), to write JSON texts legibly. *)
Definition Q (s : string) : str :=
  map (fun c => if Ascii.eqb c "'" then "034"%char else c)
      (list_ascii_of_string s).

Definition code (c : ascii) : nat := nat_of_ascii c.

Definition between (lo hi n : nat) : bool := (lo <=? n) && (n <=? hi).

(** [str.isspace] on one character (also the class [\s] of [re]). *)
Definition isspace (c : ascii) : bool :=
  let n := code c in
  between 9 13 n || between 28 32 n || (n =? 133) || (n =? 160).

(** The class [\d] of [re]: Unicode decimal digits. *)
Definition isdigit (c : ascii) : bool := between 48 57 (code c).

(** The class [\w] of [re]: alphanumeric characters and the underscore. *)
Definition isword (c : ascii) : bool :=
  let n := code c in
  between 48 57 n || between 65 90 n || between 97 122 n || (n =? 95)
  || (n =? 170) || between 178 179 n || (n =? 181) || between 185 186 n
  || between 188 190 n || between 192 214 n || between 216 246 n
  || between 248 255 n.

(** [str.lower] on one character. *)
Definition lower_char (c : ascii) : ascii :=
  let n := code c in
  if between 65 90 n || between 192 214 n || between 216 222 n
  then ascii_of_nat (n + 32) else c.

Definition lower (s : str) : str := map lower_char s.

Definition eqc (a b : ascii) : bool := Ascii.eqb a b.

Fixpoint eqs (a b : str) : bool :=
  match a, b with
  | [], [] => true
  | x :: a', y :: b' => eqc x y && eqs a' b'
  | _, _ => false
  end.

Fixpoint startswith (p s : str) : bool :=
  match p, s with
  | [], _ => true
  | x :: p', y :: s' => eqc x y && startswith p' s'
  | _ :: _, [] => false
  end.

(** [p in s] for strings. *)
Fixpoint contains (p s : str) : bool :=
  startswith p s || match s with [] => false | _ :: s' => contains p s' end.

Definition endswith (p s : str) : bool := startswith (rev p) (rev s).

Fixpoint lstrip (s : str) : str :=
  match s with
  | c :: s' => if isspace c then lstrip s' else s
  | [] => []
  end.

Definition rstrip (s : str) : str := rev (lstrip (rev s)).

(** [str.strip()] with no argument. *)
Definition strip (s : str) : str := rstrip (lstrip s).

(** [s.replace(a, b)] for a one-character [a]. *)
Definition replace_char (a : ascii) (b : str) (s : str) : str :=
  flat_map (fun c => if eqc c a then b else [c]) s.

(** [s.split(sep)] for a one-character separator. *)
Fixpoint split_char (sep : ascii) (s : str) : list str :=
  match s with
  | [] => [[]]
  | c :: s' =>
      if eqc c sep then [] :: split_char sep s'
      else match split_char sep s' with
           | w :: ws => (c :: w) :: ws
           | [] => [[c]]
           end
  end.

(** [s.zfill(n)]. *)
Definition zfill (n : nat) (s : str) : str :=
  repeat "0"%char (n - length s) ++ s.

(** [s[:n]]. *)
Definition slice_to (n : nat) (s : str) : str := firstn n s.

End Py.

Import Py.

(** ** Regular expressions: the fragment of [re] the program uses *)

Module Re.

(** Items of a bracketed class, and the escapes [\s], [\d], [\w]. *)
Inductive citem : Type :=
| IChr (c : ascii)
| IRange (lo hi : ascii)
| ISpace
| IDigit
| IWord.

Inductive regex : Type :=
| Eps
| Lit (c : ascii)                       (* a literal character *)
| Any                                   (* [.] *)
| Cls (neg : bool) (items : list citem) (* [[...]], [[^...]], [\s], ... *)
| Seq (r1 r2 : regex)
| Alt (r1 r2 : regex)
| Star (greedy : bool) (r : regex)      (* [r*] and [r*?] *)
| Group (n : nat) (r : regex)           (* capturing group number [n] *)
| WordB                                 (* [\b] *)
| Eos.                                  (* [$] *)

Record flags : Type := { ignorecase : bool; dotall : bool }.

Definition no_flags : flags := {| ignorecase := false; dotall := false |}.

(** Derived forms. *)
Definition Plus (g : bool) (r : regex) : regex := Seq r (Star g r).
Definition Opt (r : regex) : regex := Alt r Eps.
Fixpoint Str (s : str) : regex :=
  match s with
  | [] => Eps
  | [c] => Lit c
  | c :: s' => Seq (Lit c) (Str s')
  end.
Fixpoint Rep (n : nat) (r : regex) : regex :=
  match n with
  | 0 => Eps
  | 1 => r
  | S n' => Seq r (Rep n' r)
  end.
(** [r{1,2}] *)
Definition Rep12 (r : regex) : regex := Seq r (Opt r).
Fixpoint Alts (rs : list regex) (last : regex) : regex :=
  match rs with
  | [] => last
  | r :: rs' => Alt r (Alts rs' last)
  end.
Definition Space : regex := Cls false [ISpace].
Definition Digit : regex := Cls false [IDigit].
Definition Word : regex := Cls false [IWord].

Definition item_mem (i : citem) (a : ascii) : bool :=
  match i with
  | IChr c => eqc c a
  | IRange lo hi => between (code lo) (code hi) (code a)
  | ISpace => isspace a
  | IDigit => isdigit a
  | IWord => isword a
  end.

Definition cls_mem (neg : bool) (items : list citem) (a : ascii) : bool :=
  xorb neg (existsb (fun i => item_mem i a) items).

Definition lit_mem (f : flags) (c a : ascii) : bool :=
  if ignorecase f then eqc (lower_char c) (lower_char a) else eqc c a.

Definition any_mem (f : flags) (a : ascii) : bool :=
  dotall f || negb (eqc a "010"%char).

(** A position in the subject: the characters before it (nearest first)
    and the characters after it. *)
Record pos : Type := { before : str; after : str }.

Definition start_of (s : str) : pos := {| before := []; after := s |}.

Definition advance (a : ascii) (rest : str) (p : pos) : pos :=
  {| before := a :: before p; after := rest |}.

Definition offset (p : pos) : nat := length (before p).

(** The whole subject a position belongs to. *)
Definition subject (p : pos) : str := rev (before p) ++ after p.

Definition word_at (s : str) : bool :=
  match s with a :: _ => isword a | [] => false end.

(** [\b]: exactly one side of the position is a word character. *)
Definition at_boundary (p : pos) : bool :=
  xorb (word_at (before p)) (word_at (after p)).

(** [$]: the end of the subject, or just before a final newline. *)
Definition at_eos (p : pos) : bool :=
  match after p with
  | [] => true
  | [c] => eqc c "010"%char
  | _ => false
  end.

(** Captured groups: number and captured text. *)
Definition groups := list (nat * str).

Fixpoint get_group (n : nat) (g : groups) : option str :=
  match g with
  | [] => None
  | (m, s) :: g' => if n =? m then Some s else get_group n g'
  end.

Definition set_group (n : nat) (s : str) (g : groups) : groups := (n, s) :: g.

(** The text between two positions of one subject. *)
Definition captured (p q : pos) : str :=
  firstn (length (after p) - length (after q)) (after p).

Section Matcher.

Variable f : flags.
Variable A : Type.

(** The loop of a repetition [r*] or [r*?]: [body] matches [r] once,
    [n] bounds the iterations, and an iteration has to consume a
    character.  The greedy form tries one more iteration first, the lazy
    form tries to go on without. *)
Fixpoint star_loop
    (body : pos -> groups -> (pos -> groups -> option A) -> option A)
    (k : pos -> groups -> option A) (greedy : bool)
    (n : nat) (p : pos) (g : groups) {struct n} : option A :=
  match n with
  | 0 => k p g
  | S n' =>
      let again p1 g1 :=
        if length (after p1) <? length (after p)
        then star_loop body k greedy n' p1 g1 else None in
      if greedy then
        match body p g again with
        | Some x => Some x
        | None => k p g
        end
      else
        match k p g with
        | Some x => Some x
        | None => body p g again
        end
  end.

(** The backtracking matcher: alternatives are tried in the order [re]
    tries them, and the first complete match wins. *)
Fixpoint run (r : regex) (p : pos) (g : groups)
    (k : pos -> groups -> option A) {struct r} : option A :=
  match r with
  | Eps => k p g
  | Lit c =>
      match after p with
      | a :: rest => if lit_mem f c a then k (advance a rest p) g else None
      | [] => None
      end
  | Any =>
      match after p with
      | a :: rest => if any_mem f a then k (advance a rest p) g else None
      | [] => None
      end
  | Cls neg items =>
      match after p with
      | a :: rest => if cls_mem neg items a then k (advance a rest p) g else None
      | [] => None
      end
  | Seq r1 r2 => run r1 p g (fun p1 g1 => run r2 p1 g1 k)
  | Alt r1 r2 =>
      match run r1 p g k with
      | Some x => Some x
      | None => run r2 p g k
      end
  | Star greedy r1 =>
      star_loop (run r1) k greedy (S (length (after p))) p g
  | Group n r1 =>
      run r1 p g (fun p1 g1 => k p1 (set_group n (captured p p1) g1))
  | WordB => if at_boundary p then k p g else None
  | Eos => if at_eos p then k p g else None
  end.

End Matcher.

(** A match object: where it starts, where it ends, and its groups. *)
Record mobj : Type := { m_start : pos; m_end : pos; m_groups : groups }.

Definition group0 (m : mobj) : str := captured (m_start m) (m_end m).

(** [m.group(n)] for [n >= 1]; [None] stands for a group that did not
    take part in the match. *)
Definition group (n : nat) (m : mobj) : option str := get_group n (m_groups m).

(** [re.match]: a match starting at the given position. *)
Definition match_at (f : flags) (r : regex) (p : pos) : option mobj :=
  run f r p [] (fun q g => Some {| m_start := p; m_end := q; m_groups := g |}).

(** The scan of [re.search] from a position on: leftmost start first. *)
Fixpoint search_from (f : flags) (r : regex) (bef : str) (aft : str)
    : option mobj :=
  match match_at f r {| before := bef; after := aft |} with
  | Some m => Some m
  | None =>
      match aft with
      | [] => None
      | a :: rest => search_from f r (a :: bef) rest
      end
  end.

Definition search (f : flags) (r : regex) (s : str) : option mobj :=
  search_from f r [] s.

Definition re_match (f : flags) (r : regex) (s : str) : option mobj :=
  match_at f r (start_of s).

(** [re.findall] for a pattern without groups, and [re.sub] with a
    replacement computed from each match; both scan left to right over
    non-overlapping matches.  After an empty match the scan moves one
    character on. *)
Fixpoint scan (f : flags) (r : regex) (n : nat) (p : pos) : list mobj :=
  match n with
  | 0 => []
  | S n' =>
      match search_from f r (before p) (after p) with
      | None => []
      | Some m =>
          if length (after (m_end m)) <? length (after (m_start m))
          then m :: scan f r n' (m_end m)
          else match after (m_end m) with
               | a :: rest => m :: scan f r n' (advance a rest (m_end m))
               | [] => [m]
               end
      end
  end.

Definition finditer (f : flags) (r : regex) (s : str) : list mobj :=
  scan f r (S (length s)) (start_of s).

Definition findall (f : flags) (r : regex) (s : str) : list str :=
  map group0 (finditer f r s).

(** Rebuild the subject with every match replaced. *)
Fixpoint splice (repl : mobj -> str) (p : pos) (ms : list mobj) : str :=
  match ms with
  | [] => after p
  | m :: ms' =>
      captured p (m_start m) ++ repl m ++ splice repl (m_end m) ms'
  end.

Definition sub (f : flags) (r : regex) (repl : mobj -> str) (s : str) : str :=
  splice repl (start_of s) (finditer f r s).

(** The matches a pattern admits between two positions, without regard
    to the order in which [re] tries them.  [run] returns one of them
    ([run_sound] below) and finds one whenever there is one
    ([run_complete]). *)
Inductive Matches (f : flags)
  : regex -> pos -> groups -> pos -> groups -> Prop :=
| M_Eps p g : Matches f Eps p g p g
| M_Lit c a rest p g :
    after p = a :: rest -> lit_mem f c a = true ->
    Matches f (Lit c) p g (advance a rest p) g
| M_Any a rest p g :
    after p = a :: rest -> any_mem f a = true ->
    Matches f Any p g (advance a rest p) g
| M_Cls neg items a rest p g :
    after p = a :: rest -> cls_mem neg items a = true ->
    Matches f (Cls neg items) p g (advance a rest p) g
| M_Seq r1 r2 p g p1 g1 p2 g2 :
    Matches f r1 p g p1 g1 -> Matches f r2 p1 g1 p2 g2 ->
    Matches f (Seq r1 r2) p g p2 g2
| M_AltL r1 r2 p g p1 g1 :
    Matches f r1 p g p1 g1 -> Matches f (Alt r1 r2) p g p1 g1
| M_AltR r1 r2 p g p1 g1 :
    Matches f r2 p g p1 g1 -> Matches f (Alt r1 r2) p g p1 g1
| M_Star0 gr r p g : Matches f (Star gr r) p g p g
| M_StarS gr r p g p1 g1 p2 g2 :
    Matches f r p g p1 g1 ->
    length (after p1) < length (after p) ->
    Matches f (Star gr r) p1 g1 p2 g2 ->
    Matches f (Star gr r) p g p2 g2
| M_Group n r p g p1 g1 :
    Matches f r p g p1 g1 ->
    Matches f (Group n r) p g p1 (set_group n (captured p p1) g1)
| M_WordB p g : at_boundary p = true -> Matches f WordB p g p g
| M_Eos p g : at_eos p = true -> Matches f Eos p g p g.

(** A pattern that matches exactly one character, one that satisfies
    [P]. *)
Definition atom (f : flags) (r : regex) (P : ascii -> bool) : Prop :=
  forall p g q g',
    Matches f r p g q g' <->
    exists a rest, after p = a :: rest /\ P a = true
                   /\ q = advance a rest p /\ g' = g.

End Re.

(** ** JSON values and [json.loads] *)

Module Json.

(** A Python [float] read from a JSON text: a decimal [m * 10^e], or one
    of the constants the decoder accepts. *)
Inductive pyfloat : Type :=
| FDec (m e : Z)
| FNaN
| FInf (neg : bool).

(** What [json.loads] builds: [None], [bool], [int], [float], [str],
    [list], and [dict] with its keys in insertion order. *)
Inductive value : Type :=
| JNull
| JBool (b : bool)
| JInt (z : Z)
| JFloat (x : pyfloat)
| JStr (s : str)
| JList (l : list value)
| JDict (d : list (str * value)).

Definition dict := list (str * value).

(** [d.get(k)]: [None] when the key is absent. *)
Fixpoint get (k : str) (d : dict) : value :=
  match d with
  | [] => JNull
  | (k', v) :: d' => if eqs k k' then v else get k d'
  end.

Fixpoint has_key (k : str) (d : dict) : bool :=
  match d with
  | [] => false
  | (k', _) :: d' => eqs k k' || has_key k d'
  end.

(** [d[k] = v]: an existing key keeps its place. *)
Fixpoint set (k : str) (v : value) (d : dict) : dict :=
  match d with
  | [] => [(k, v)]
  | (k', v') :: d' => if eqs k k' then (k', v) :: d' else (k', v') :: set k v d'
  end.

(** A decimal that a binary64 float rounds to zero: at most half the
    smallest subnormal, [2^-1075]. *)
Definition rounds_to_zero (m e : Z) : bool :=
  ((m =? 0) || ((e <? 0) && (Z.abs m * 2 ^ 1075 <=? 10 ^ (- e))))%Z.

(** Truth value of a Python object. *)
Definition truthy (v : value) : bool :=
  match v with
  | JNull => false
  | JBool b => b
  | JInt z => negb (z =? 0)%Z
  | JFloat (FDec m e) => negb (rounds_to_zero m e)
  | JFloat _ => true
  | JStr s => negb (eqs s [])
  | JList l => match l with [] => false | _ => true end
  | JDict d => match d with [] => false | _ => true end
  end.

Definition dq : ascii := "034"%char.
Definition bslash : ascii := "092"%char.

Definition is_ws (c : ascii) : bool :=
  eqc c " " || eqc c "009" || eqc c "010" || eqc c "013".

Fixpoint skip_ws (s : str) : str :=
  match s with
  | c :: s' => if is_ws c then skip_ws s' else s
  | [] => []
  end.

Definition hex_digit (c : ascii) : option nat :=
  let n := code c in
  if between 48 57 n then Some (n - 48)
  else if between 97 102 n then Some (n - 87)
  else if between 65 70 n then Some (n - 55)
  else None.

Definition hex4 (a b c d : ascii) : option nat :=
  match hex_digit a, hex_digit b, hex_digit c, hex_digit d with
  | Some x, Some y, Some z, Some w => Some (((x * 16 + y) * 16 + z) * 16 + w)
  | _, _, _, _ => None
  end.

Definition simple_escape (c : ascii) : option ascii :=
  if eqc c dq then Some dq
  else if eqc c bslash then Some bslash
  else if eqc c "/" then Some "/"%char
  else if eqc c "b" then Some "008"%char
  else if eqc c "f" then Some "012"%char
  else if eqc c "n" then Some "010"%char
  else if eqc c "r" then Some "013"%char
  else if eqc c "t" then Some "009"%char
  else None.

(** The body of a string after its opening quote, up to the closing one.
    Control characters are refused (strict mode).  An escape [\uXXXX]
    above U+00FF lies outside the modelled alphabet and is refused. *)
Fixpoint scanstring (s : str) (acc : str) : option (str * str) :=
  match s with
  | [] => None
  | c :: s' =>
      if eqc c dq then Some (rev acc, s')
      else if eqc c bslash then
        match s' with
        | e :: s'' =>
            if eqc e "u" then
              match s'' with
              | h1 :: h2 :: h3 :: h4 :: s3 =>
                  match hex4 h1 h2 h3 h4 with
                  | Some n =>
                      if n <? 256 then scanstring s3 (ascii_of_nat n :: acc)
                      else None
                  | None => None
                  end
              | _ => None
              end
            else
              match simple_escape e with
              | Some x => scanstring s'' (x :: acc)
              | None => None
              end
        | [] => None
        end
      else if code c <? 32 then None
      else scanstring s' (c :: acc)
  end.

Fixpoint take_digits (s : str) : str * str :=
  match s with
  | c :: s' =>
      if isdigit c then let (d, r) := take_digits s' in (c :: d, r)
      else ([], s)
  | [] => ([], [])
  end.

Definition digits_to_Z (d : str) : Z :=
  fold_left (fun acc c => (acc * 10 + Z.of_nat (code c - 48))%Z) d 0%Z.

(** The number grammar of the decoder: an optional minus sign, an
    integer part without leading zeros, an optional fraction and an
    optional exponent; an [int] without fraction and exponent, a [float]
    otherwise.  A dot or an exponent mark that no digit follows is not
    part of the number. *)
Definition scan_sign (s : str) : bool * str :=
  match s with
  | c :: t => if eqc c "-" then (true, t) else (false, s)
  | [] => (false, s)
  end.

Definition scan_int (s : str) : option (str * str) :=
  match s with
  | c :: t =>
      if eqc c "0" then Some ([c], t)
      else if between 49 57 (code c) then
        let (d, r) := take_digits t in Some (c :: d, r)
      else None
  | [] => None
  end.

Definition scan_frac (s : str) : str * str :=
  match s with
  | c :: t =>
      if eqc c "." then
        match take_digits t with
        | ([], _) => ([], s)
        | (fd, r) => (fd, r)
        end
      else ([], s)
  | [] => ([], s)
  end.

Definition scan_exp (s : str) : option Z * str :=
  match s with
  | c :: t =>
      if eqc c "e" || eqc c "E" then
        let (eneg, t1) :=
          match t with
          | sg :: t' =>
              if eqc sg "-" then (true, t')
              else if eqc sg "+" then (false, t')
              else (false, t)
          | [] => (false, t)
          end in
        match take_digits t1 with
        | ([], _) => (None, s)
        | (ed, r) =>
            (Some (if eneg then (- digits_to_Z ed)%Z else digits_to_Z ed), r)
        end
      else (None, s)
  | [] => (None, s)
  end.

Definition scan_number (s : str) : option (value * str) :=
  let (neg, s1) := scan_sign s in
  match scan_int s1 with
  | None => None
  | Some (ds, s2) =>
      let (frac, s3) := scan_frac s2 in
      let (ex, s4) := scan_exp s3 in
      let sgn (z : Z) := if neg then (- z)%Z else z in
      match frac, ex with
      | [], None => Some (JInt (sgn (digits_to_Z ds)), s4)
      | _, _ =>
          Some (JFloat (FDec (sgn (digits_to_Z (ds ++ frac)))
                             (match ex with Some e => e | None => 0%Z end
                              - Z.of_nat (length frac))), s4)
      end
  end.

Definition after_word (w : str) (s : str) : option str :=
  if startswith w s then Some (skipn (length w) s) else None.

(** One value at the head of the text ([scan_once] of the decoder), with
    the members of an object and the elements of an array. *)
Fixpoint scan_once (n : nat) (s : str) : option (value * str) :=
  match n with
  | 0 => None
  | S n' =>
      match s with
      | [] => None
      | c :: t =>
          if eqc c dq then
            match scanstring t [] with
            | Some (x, r) => Some (JStr x, r)
            | None => None
            end
          else if eqc c "{" then
            match skip_ws t with
            | c1 :: r =>
                if eqc c1 "}" then Some (JDict [], r)
                else scan_members n' (c1 :: r) []
            | [] => None
            end
          else if eqc c "[" then
            match skip_ws t with
            | c1 :: r =>
                if eqc c1 "]" then Some (JList [], r)
                else scan_elements n' (c1 :: r) []
            | [] => None
            end
          else if startswith (L "null") s then Some (JNull, skipn 4 s)
          else if startswith (L "true") s then Some (JBool true, skipn 4 s)
          else if startswith (L "false") s then Some (JBool false, skipn 5 s)
          else if startswith (L "NaN") s then Some (JFloat FNaN, skipn 3 s)
          else if startswith (L "Infinity") s
               then Some (JFloat (FInf false), skipn 8 s)
          else if startswith (L "-Infinity") s
               then Some (JFloat (FInf true), skipn 9 s)
          else scan_number s
      end
  end
with scan_members (n : nat) (s : str) (acc : dict) : option (value * str) :=
  match n with
  | 0 => None
  | S n' =>
      match s with
      | c :: t =>
          if eqc c dq then
            match scanstring t [] with
            | Some (key, r) =>
                match skip_ws r with
                | c1 :: r1 =>
                    if eqc c1 ":" then
                      match scan_once n' (skip_ws r1) with
                      | Some (v, r2) =>
                          match skip_ws r2 with
                          | c2 :: r3 =>
                              if eqc c2 "}" then Some (JDict (set key v acc), r3)
                              else if eqc c2 ","
                              then scan_members n' (skip_ws r3) (set key v acc)
                              else None
                          | [] => None
                          end
                      | None => None
                      end
                    else None
                | [] => None
                end
            | None => None
            end
          else None
      | [] => None
      end
  end
with scan_elements (n : nat) (s : str) (acc : list value)
    : option (value * str) :=
  match n with
  | 0 => None
  | S n' =>
      match scan_once n' s with
      | Some (v, r) =>
          match skip_ws r with
          | c :: r1 =>
              if eqc c "]" then Some (JList (rev (v :: acc)), r1)
              else if eqc c "," then scan_elements n' (skip_ws r1) (v :: acc)
              else None
          | [] => None
          end
      | None => None
      end
  end.

(** [json.loads]: one value, with white space around it and nothing
    else.  [None] stands for [json.JSONDecodeError].  Two units of fuel
    for each character are enough: a nested value costs at most two
    calls for the character that opens it. *)
Definition loads (s : str) : option value :=
  match scan_once (S (2 * length s)) (skip_ws s) with
  | Some (v, r) => match skip_ws r with [] => Some v | _ => None end
  | None => None
  end.

End Json.

(** ** Calendar dates and [datetime.strptime] *)

Module Dates.

Import Re.

Record date : Type := { year : Z; month : Z; day : Z }.

Definition is_leap (y : Z) : bool :=
  (((y mod 4 =? 0) && negb (y mod 100 =? 0)) || (y mod 400 =? 0))%Z.

Definition days_in_month (y m : Z) : Z :=
  if (m =? 2)%Z then (if is_leap y then 29 else 28)%Z
  else if ((m =? 4) || (m =? 6) || (m =? 9) || (m =? 11))%Z then 30%Z
  else 31%Z.

(** The dates [datetime.date] accepts. *)
Definition valid (y m d : Z) : bool :=
  ((1 <=? y) && (y <=? 9999) && (1 <=? m) && (m <=? 12)
   && (1 <=? d) && (d <=? days_in_month y m))%Z.

(** [a <= b] and [a > b] on dates. *)
Definition le (a b : date) : bool :=
  ((year a <? year b)
   || ((year a =? year b)
       && ((month a <? month b)
           || ((month a =? month b) && (day a <=? day b)))))%Z.

Definition gt (a b : date) : bool := negb (le a b).

Definition rng (lo hi : ascii) : regex := Cls false [IRange lo hi].

(** The patterns [_strptime] uses for [%Y], [%m] and [%d]; the groups
    are numbered 1, 2 and 3. *)
Definition re_Y : regex := Group 1 (Rep 4 Digit).
Definition re_m : regex :=
  Group 2 (Alts [Seq (Lit "1") (rng "0" "2"); Seq (Lit "0") (rng "1" "9")]
                (rng "1" "9")).
Definition re_d : regex :=
  Group 3 (Alts [Seq (Lit "3") (rng "0" "1"); Seq (rng "1" "2") Digit;
                 Seq (Lit "0") (rng "1" "9"); rng "1" "9"]
                (Seq (Lit " ") (rng "1" "9"))).

(** The pattern of a format: directives [%Y], [%m], [%d], a run of white
    space as [\s+], any other character as itself.  [None] stands for
    the [ValueError] of a directive outside this fragment. *)
Fixpoint format_regex (fmt : str) : option regex :=
  match fmt with
  | [] => Some Eps
  | c :: rest =>
      if eqc c "%" then
        match rest with
        | d :: rest' =>
            let dir :=
              if eqc d "Y" then Some re_Y
              else if eqc d "m" then Some re_m
              else if eqc d "d" then Some re_d
              else None in
            match dir, format_regex rest' with
            | Some r, Some r' => Some (Seq r r')
            | _, _ => None
            end
        | [] => None
        end
      else
        match format_regex rest with
        | Some r' =>
            if isspace c then
              match rest with
              | c' :: _ => if isspace c' then Some r'
                           else Some (Seq (Plus true Space) r')
              | [] => Some (Seq (Plus true Space) r')
              end
            else Some (Seq (Lit c) r')
        | None => None
        end
  end.

Definition strptime_flags : flags := {| ignorecase := true; dotall := false |}.

(** [int(s)] on a captured field: digits, possibly after a space. *)
Definition field (m : mobj) (n : nat) (default : Z) : Z :=
  match group n m with
  | Some s => Json.digits_to_Z (lstrip s)
  | None => default
  end.

(** [datetime.strptime(s, fmt).date()]; [None] stands for [ValueError]:
    the text does not match the format, text remains after the match,
    or the fields are not a calendar date. *)
Definition strptime (s fmt : str) : option date :=
  match format_regex fmt with
  | None => None
  | Some r =>
      match re_match strptime_flags r s with
      | None => None
      | Some m =>
          match after (m_end m) with
          | [] =>
              let y := field m 1 1900%Z in
              let mo := field m 2 1%Z in
              let d := field m 3 1%Z in
              if valid y mo d
              then Some {| year := y; month := mo; day := d |}
              else None
          | _ :: _ => None
          end
      end
  end.

End Dates.

(** ** Exceptions *)

Module Exn.

(** The exception classes that matter to the handlers of the program. *)
Inductive exn : Type :=
| ValueError
| JSONDecodeError        (* a subclass of [ValueError] *)
| AttributeError
| TypeError
| KeyError
| IndexError
| HTTPError (status : Z) (* [requests.exceptions.HTTPError] *)
| RequestError           (* any other [requests.exceptions.RequestException] *)
| OSError
| ImportError.

Inductive result (A : Type) : Type :=
| Ok (a : A)
| Raise (e : exn).

Arguments Ok {A} a.
Arguments Raise {A} e.

Definition bind {A B : Type} (c : result A) (k : A -> result B) : result B :=
  match c with
  | Ok a => k a
  | Raise e => Raise e
  end.

(** [except ValueError], [except (ValueError, AttributeError)],
    [except requests.exceptions.RequestException]. *)
Definition is_ValueError (e : exn) : bool :=
  match e with ValueError | JSONDecodeError => true | _ => false end.

Definition is_ValueError_or_AttributeError (e : exn) : bool :=
  match e with
  | ValueError | JSONDecodeError | AttributeError => true
  | _ => false
  end.

Definition is_HTTPError (e : exn) : bool :=
  match e with HTTPError _ => true | _ => false end.

Definition is_RequestException (e : exn) : bool :=
  match e with HTTPError _ | RequestError => true | _ => false end.

End Exn.

(** ** The program *)

Module Checker.

Import Re Json Dates Exn.

Notation "x <- c ;; k" := (bind c (fun x => k))
  (at level 61, c at next level, right associativity).

(** *** Patterns *)

Fixpoint Cat (rs : list regex) : regex :=
  match rs with
  | [] => Eps
  | [r] => r
  | r :: rs' => Seq r (Cat rs')
  end.

Definition DOTALL : flags := {| ignorecase := false; dotall := true |}.
Definition IGNORECASE : flags := {| ignorecase := true; dotall := false |}.
Definition DOTALL_IGNORECASE : flags := {| ignorecase := true; dotall := true |}.

Definition fence : str := L "```".
Definition fence_json : str := L "```json".

(** [```json\s*(.*?)\s*```] *)
Definition re_fence_json : regex :=
  Cat [Str fence_json; Star true Space; Group 1 (Star false Any);
       Star true Space; Str fence].

(** [```\s*(.*?)\s*```] *)
Definition re_fence_any : regex :=
  Cat [Str fence; Star true Space; Group 1 (Star false Any);
       Star true Space; Str fence].

(** [[^{}]] *)
Definition no_brace : regex := Cls true [IChr "{"; IChr "}"].

(** The nested-brace pattern of lines 135 and 217: an opening brace, a
    run without braces, any number of inner brace pairs each followed
    by a run without braces, and a closing brace. *)
Definition re_brace : regex :=
  Cat [Lit "{"; Star true no_brace;
       Star true (Cat [Lit "{"; Star true no_brace; Lit "}"; Star true no_brace]);
       Lit "}"].

(** An opening brace, a lazy run, the key in double quotes, a lazy run
    and a closing brace (lines 218 and 219). *)
Definition re_with_key (key : str) : regex :=
  Cat [Lit "{"; Star false Any; Lit dq; Str key; Lit dq; Star false Any; Lit "}"].

(** [[^}]] *)
Definition no_close : regex := Cls true [IChr "}"].

(** The complete-structure pattern of line 220: the four keys in
    order, separated by runs without a closing brace. *)
Definition re_full_shape : regex :=
  Cat [Lit "{"; Star true no_close;
       Lit dq; Str (L "framework_name"); Lit dq; Star true no_close;
       Lit dq; Str (L "has_update"); Lit dq; Star true no_close;
       Lit dq; Str (L "latest_update_date"); Lit dq; Star true no_close;
       Lit dq; Str (L "document_url"); Lit dq; Star true no_close;
       Lit "}"].

Definition json_patterns : list regex :=
  [re_brace; re_with_key (L "has_update"); re_with_key (L "document_url");
   re_full_shape].

(** [(\w+):] *)
Definition re_bare_key : regex := Cat [Group 1 (Plus true Word); Lit ":"].

(** The class of URL characters in the patterns of lines 261-264 and
    519: anything but white space and the characters
    [<], [>], double quote, braces, [|], backslash, [^], backtick and
    square brackets. *)
Definition url_char : regex :=
  Cls true [ISpace; IChr "<"; IChr ">"; IChr dq; IChr "{"; IChr "}"; IChr "|";
            IChr bslash; IChr "^"; IChr "`"; IChr "["; IChr "]"].

Definition http_prefix : list regex := [Str (L "http"); Opt (Lit "s"); Str (L "://")].

(** [https?://U+\.pdf], with [U] the class of URL characters. *)
Definition re_pdf_url : regex :=
  Cat (http_prefix ++ [Plus true url_char; Str (L ".pdf")]).

Definition url_patterns : list regex :=
  [re_pdf_url;
   Cat (http_prefix ++ [Plus true url_char; Str (L ".pdf"); Star true url_char]);
   Cat (http_prefix ++ [Plus true url_char; Str (L "download");
                        Star true url_char; Str (L ".pdf")]);
   Cat (http_prefix ++ [Plus true url_char; Str (L "pdf"); Star true url_char])].

(** [[.,;:!?)\]]+$] *)
Definition re_trailing_punct : regex :=
  Cat [Plus true (Cls false [IChr "."; IChr ","; IChr ";"; IChr ":"; IChr "!";
                             IChr "?"; IChr ")"; IChr "]"]);
       Eos].

Definition sep : regex := Cls false [IChr "-"; IChr "/"].

Definition month_names : list str :=
  [L "January"; L "February"; L "March"; L "April"; L "May"; L "June";
   L "July"; L "August"; L "September"; L "October"; L "November";
   L "December"].

Definition re_20xx : regex := Cat [Str (L "20"); Rep 2 Digit].

Definition date_patterns : list regex :=
  [ (* [\b(20\d{2}[-/]\d{1,2}[-/]\d{1,2})\b] *)
    Cat [WordB; Group 1 (Cat [re_20xx; sep; Rep12 Digit; sep; Rep12 Digit]);
         WordB];
    (* [\b(\d{1,2}[-/]\d{1,2}[-/]20\d{2})\b] *)
    Cat [WordB; Group 1 (Cat [Rep12 Digit; sep; Rep12 Digit; sep; re_20xx]);
         WordB];
    (* [\b(January|...|December)\s+\d{1,2},?\s+20\d{2}\b] *)
    Cat [WordB;
         Group 1 (Alts (map Str (removelast month_names)) (Str (L "December")));
         Plus true Space; Rep12 Digit; Opt (Lit ","); Plus true Space;
         re_20xx; WordB];
    (* [\b(20\d{2})\b] *)
    Cat [WordB; Group 1 re_20xx; WordB] ].

(** [\b(\d{1,2})\b] *)
Definition re_day : regex := Cat [WordB; Group 1 (Rep12 Digit); WordB].

Definition month_map : list (str * str) :=
  [(L "january", L "01"); (L "february", L "02"); (L "march", L "03");
   (L "april", L "04"); (L "may", L "05"); (L "june", L "06");
   (L "july", L "07"); (L "august", L "08"); (L "september", L "09");
   (L "october", L "10"); (L "november", L "11"); (L "december", L "12")].

Definition strong_update_indicators : list str :=
  [L "has been updated"; L "was updated"; L "latest update"; L "recent update";
   L "new version"; L "new amendment"; L "latest amendment";
   L "recent amendment"; L "updated on"; L "published on"; L "released on";
   L "issued on"; L "version"; L "amendment"; L "update"; L "revision";
   L "supplement"].

Definition date_formats : list str :=
  [L "%Y-%m-%d"; L "%Y/%m/%d"; L "%m-%d-%Y"; L "%m/%d/%Y"].

(** *** Python objects *)

(** [m.group(1).strip()]: a group that did not take part is [None], and
    the method call on it raises. *)
Definition group_strip (n : nat) (m : mobj) : result str :=
  match group n m with
  | Some s => Ok (strip s)
  | None => Raise AttributeError
  end.

(** A group in a replacement template: empty when it did not take part. *)
Definition group_text (n : nat) (m : mobj) : str :=
  match group n m with Some s => s | None => [] end.

(** Method [get] on an object: only a [dict] has it. *)
Definition obj_get (k : str) (v : value) : result value :=
  match v with
  | JDict d => Ok (get k d)
  | _ => Raise AttributeError
  end.

(** Method [lower] on an object: only a [str] has it. *)
Definition obj_lower (v : value) : result str :=
  match v with
  | JStr s => Ok (lower s)
  | _ => Raise AttributeError
  end.

(** [datetime.strptime(v, fmt).date()] on an object. *)
Definition obj_strptime (v : value) (fmt : str) : result date :=
  match v with
  | JStr s =>
      match strptime s fmt with
      | Some d => Ok d
      | None => Raise ValueError
      end
  | _ => Raise TypeError
  end.

(** The loop over the date formats: the first format that parses wins,
    a [ValueError] moves on to the next, any other exception escapes. *)
Fixpoint first_format (v : value) (fmts : list str) : result (option date) :=
  match fmts with
  | [] => Ok None
  | fmt :: fmts' =>
      match obj_strptime v fmt with
      | Ok d => Ok (Some d)
      | Raise e => if is_ValueError e then first_format v fmts' else Raise e
      end
  end.

(** *** Response normaliser *)

(** [if marker in content: re.search(pattern, content, re.DOTALL)],
    lines 125-126 and 129-130. *)
Definition guarded_search (marker : str) (pattern : regex) (content : str)
    : option mobj :=
  if contains marker content then search DOTALL pattern content else None.

(** [_clean_response_content], lines 120-140. *)
Definition _clean_response_content (content : str) : result str :=
  match guarded_search fence_json re_fence_json content with
  | Some json_match => group_strip 1 json_match
  | None =>
      match guarded_search fence re_fence_any content with
      | Some json_match => group_strip 1 json_match
      | None =>
          match search DOTALL re_brace content with
          | Some json_match => Ok (strip (group0 json_match))
          | None => Ok (strip content)
          end
      end
  end.

(** *** Verdict extraction: permissive recovery, lines 216-235 *)

(** The light repair of a candidate: single quotes become double
    quotes, bare keys get quotes. *)
Definition repair (json_str : str) : str :=
  sub no_flags re_bare_key
      (fun m => [dq] ++ group_text 1 m ++ [dq; ":"%char])
      (replace_char "'" [dq] json_str).

(** The loop over [json_patterns]: the first pattern whose match parses
    after repair gives the value; [None] when no pattern does. *)
Fixpoint recover (patterns : list regex) (content : str) : option value :=
  match patterns with
  | [] => None
  | pattern :: rest =>
      match search DOTALL_IGNORECASE pattern content with
      | Some json_match =>
          match loads (repair (group0 json_match)) with
          | Some v => Some v
          | None => recover rest content
          end
      | None => recover rest content
      end
  end.

(** *** Verdict extraction: heuristic text scan, lines 241-394 *)

(** Lines 259-273: the first URL pattern that matches, stripped of
    trailing punctuation. *)
Fixpoint find_url (patterns : list regex) (content : str) : option str :=
  match patterns with
  | [] => None
  | pattern :: rest =>
      match search IGNORECASE pattern content with
      | Some url_match =>
          Some (sub no_flags re_trailing_punct (fun _ => [])
                    (strip (group0 url_match)))
      | None => find_url rest content
      end
  end.

(** Lines 309-316: the loop over [month_map]. *)
Fixpoint month_loop (months : list (str * str)) (date_str : str)
    : option str :=
  match months with
  | [] => None
  | (month_name, month_num) :: rest =>
      if contains month_name (lower date_str) then
        match search no_flags re_20xx date_str,
              search no_flags re_day date_str with
        | Some year_match, Some day_match =>
            Some (group0 year_match ++ L "-" ++ month_num ++ L "-"
                  ++ zfill 2 (group_text 1 day_match))
        | _, _ => month_loop rest date_str
        end
      else month_loop rest date_str
  end.

(** Lines 289-316: the matched text brought to [YYYY-MM-DD]. *)
Definition normalize_date (date_str : str) : option str :=
  if contains (L "/") date_str then
    match split_char "/" date_str with
    | [p0; p1; p2] =>
        if length p0 =? 4 then Some (replace_char "/" (L "-") date_str)
        else Some (p2 ++ L "-" ++ p0 ++ L "-" ++ p1)
    | _ => None
    end
  else if contains (L "-") date_str then Some date_str
  else if existsb (fun month => contains month date_str) month_names
  then month_loop month_map date_str
  else None.

(** Truth value of an optional string. *)
Definition some_text (o : option str) : bool :=
  match o with Some (_ :: _) => true | _ => false end.

(** Lines 284-322: the first date pattern whose match normalises. *)
Fixpoint find_date (patterns : list regex) (content : str) : option str :=
  match patterns with
  | [] => None
  | pattern :: rest =>
      match search IGNORECASE pattern content with
      | Some date_match =>
          let latest_date := normalize_date (group0 date_match) in
          if some_text latest_date then latest_date
          else find_date rest content
      | None => find_date rest content
      end
  end.

Definition opt_value (o : option str) : value :=
  match o with Some s => JStr s | None => JNull end.

(** Lines 335-356 and 359-381: the text of the date with slashes turned
    into dashes, and the comparison against the baseline when both
    dates parse. *)
Definition dashed (latest_date : str) : str :=
  if contains (L "/") latest_date
  then replace_char "/" (L "-") latest_date else latest_date.

Definition compare_dates (latest_date last_updated_date : str)
    : result (option bool) :=
  latest_date_obj <- first_format (JStr latest_date) date_formats ;;
  match latest_date_obj with
  | Some d =>
      match strptime last_updated_date (L "%Y-%m-%d") with
      | Some last_known_obj => Ok (Some (gt d last_known_obj))
      | None => Raise ValueError
      end
  | None => Ok None
  end.

(** Lines 241-394: the verdict synthesised from the text. *)
Definition text_scan (content last_updated_date : str) : dict :=
  let content_lower := lower content in
  let has_update_mention :=
    existsb (fun indicator => contains indicator content_lower)
            strong_update_indicators in
  let document_url := find_url url_patterns content in
  let latest_date := find_date date_patterns content in
  let '(has_update, latest_date) :=
    if some_text document_url then
      (true, if some_text latest_date
             then option_map dashed latest_date else latest_date)
    else if some_text latest_date then
      let latest_date := option_map dashed latest_date in
      match latest_date with
      | Some s =>
          match compare_dates s last_updated_date with
          | Ok (Some later) => (later, latest_date)
          | Ok None => (has_update_mention, latest_date)
          | Raise _ => (has_update_mention, latest_date)
          end
      | None => (has_update_mention, latest_date)
      end
    else (has_update_mention, latest_date) in
  [(L "has_update", JBool has_update);
   (L "latest_update_date",
    if some_text latest_date then opt_value latest_date
    else JStr last_updated_date);
   (L "document_url", opt_value document_url);
   (L "version", JNull);
   (L "notes", JStr (if 300 <? length content then slice_to 300 content
                     else content))].

(** *** [query_perplexity_api] after the HTTP exchange *)

(** Lines 207-394: strict parse of the normalised text (lines 208-212),
    then permissive recovery on the raw text, then the text scan. *)
Definition strict_parse (content : str) : result (option value) :=
  cleaned_content <- _clean_response_content content ;;
  Ok (loads cleaned_content).

Definition extract (content last_updated_date : str) : result value :=
  parsed <- strict_parse content ;;
  match parsed with
  | Some parsed => Ok parsed
  | None =>
      match recover json_patterns content with
      | Some JNull | None => Ok (JDict (text_scan content last_updated_date))
      | Some parsed => Ok parsed
      end
  end.

(** Lines 401-407: the final fallback. *)
Definition no_update (last_updated_date : str) : dict :=
  [(L "has_update", JBool false);
   (L "latest_update_date", JStr last_updated_date);
   (L "document_url", JNull);
   (L "version", JNull);
   (L "notes", JStr (L "Failed to parse API response"))].

(** Lines 396-407: a truthy result is logged through its method [get];
    a falsy one is replaced by the final fallback. *)
Definition or_no_update (parsed : value) (last_updated_date : str)
    : result dict :=
  if truthy parsed then
    match parsed with
    | JDict d => Ok d
    | _ => Raise AttributeError
    end
  else Ok (no_update last_updated_date).

(** Lines 409-440: the date validation. *)
Definition validate_date (parsed : dict) (last_updated_date : str)
    : result dict :=
  if truthy (get (L "has_update") parsed)
     && truthy (get (L "latest_update_date") parsed)
  then
    let attempt : result dict :=
      latest_date <-
        first_format (get (L "latest_update_date") parsed) date_formats ;;
      match latest_date with
      | Some d =>
          match strptime last_updated_date (L "%Y-%m-%d") with
          | Some last_known =>
              if le d last_known
                 && negb (truthy (get (L "document_url") parsed))
              then Ok (set (L "has_update") (JBool false) parsed)
              else Ok parsed
          | None => Raise ValueError
          end
      | None => Ok parsed
      end in
    match attempt with
    | Ok d => Ok d
    | Raise e =>
        if is_ValueError_or_AttributeError e then
          if negb (truthy (get (L "document_url") parsed))
          then Ok (set (L "has_update") (JBool false) parsed)
          else Ok parsed
        else Raise e
    end
  else Ok parsed.

(** Lines 442-450: the check of [document_url] only logs, but calls the
    method [lower] on a truthy value. *)
Definition check_document_url (parsed : dict) : result dict :=
  let doc_url := get (L "document_url") parsed in
  if truthy doc_url then
    _ <- obj_lower doc_url ;; Ok parsed
  else Ok parsed.

(** Lines 207-407: the verdict before the date validation. *)
Definition verdict (content last_updated_date : str) : result dict :=
  parsed <- extract content last_updated_date ;;
  or_no_update parsed last_updated_date.

(** Lines 207-452: from the text of the model's answer to the verdict
    the function returns. *)
Definition interpret (content last_updated_date : str) : result dict :=
  parsed <- verdict content last_updated_date ;;
  parsed <- validate_date parsed last_updated_date ;;
  check_document_url parsed.

(** *** The outside world *)

(** A byte string, written as runs of a repeated byte so that bodies of
    tens of megabytes can be written down: [(3, c)] stands for [ccc]. *)
Definition bytes := list (N * ascii).

Definition of_text (s : str) : bytes := map (fun c => (1%N, c)) s.

(** [len(b)] *)
Definition blen (b : bytes) : N :=
  fold_right (fun r acc => (fst r + acc)%N) 0%N b.

(** [b[:k]] *)
Fixpoint bread (k : nat) (b : bytes) : str :=
  match b with
  | [] => []
  | (n, c) :: b' =>
      let m := N.to_nat (N.min (N.of_nat k) n) in
      repeat c m ++ bread (k - m) b'
  end.

(** The answer of the prompt-answering service: status and body. *)
Record api_reply : Type := { api_status : Z; api_text : str }.

(** The answer to a download request: the status, the outcome of
    [int(response.headers.get('content-length', 0))], the chunks
    [iter_content] yields, and whether the stream breaks after them. *)
Record reply : Type := {
  status_code : Z;
  content_type : str;
  content_length : result Z;
  chunks : list bytes;
  stream_breaks : bool
}.

Inductive request : Type :=
| UpdateQuery (framework_name last_updated_date : str)
| PdfQuery (page_url framework_name : str).

(** Everything the program asks of its environment.  The first argument
    of a service is the number of external calls made before, so that
    successive calls may be answered differently. *)
Record world : Type := {
  post : nat -> request -> result api_reply;      (* [requests.post] *)
  http_get : nat -> str -> bool -> result reply;  (* [session.get]; the flag
                                                     marks the alternate headers *)
  media_root : result str;                        (* [settings.MEDIA_ROOT] *)
  makedirs : str -> result unit;                  (* [os.makedirs] *)
  now : nat -> str;            (* [datetime.now().strftime("%Y%m%d_%H%M%S")] *)
  s3_upload : nat -> str -> str -> result value;  (* client creation and
                                                     [s3_client.upload] *)
  process_downloaded_amendment :
    nat -> str -> str -> Z -> value -> str -> result value;
  exn_text : exn -> str                           (* [str(e)] *)
}.

(** The state the program changes: the count of external calls and the
    files of the download directory. *)
Record state : Type := { tick : nat; files : str -> option bytes }.

Definition M (A : Type) : Type := state -> state * result A.

Definition ret {A : Type} (a : A) : M A := fun st => (st, Ok a).

Definition raiseM {A : Type} (e : exn) : M A := fun st => (st, Raise e).

Definition lift {A : Type} (r : result A) : M A := fun st => (st, r).

Definition bindM {A B : Type} (c : M A) (k : A -> M B) : M B :=
  fun st =>
    match c st with
    | (st', Ok a) => k a st'
    | (st', Raise e) => (st', Raise e)
    end.

Notation "x <~ c ;; k" := (bindM c (fun x => k))
  (at level 61, c at next level, right associativity).

(** [try: c except Exception as e: h e] *)
Definition try_catch {A : Type} (c : M A) (h : exn -> M A) : M A :=
  fun st =>
    match c st with
    | (st', Ok a) => (st', Ok a)
    | (st', Raise e) => h e st'
    end.

Definition external {A : Type} (f : nat -> result A) : M A :=
  fun st => ({| tick := S (tick st); files := files st |}, f (tick st)).

Definition upd (path : str) (v : option bytes) (fs : str -> option bytes)
    : str -> option bytes :=
  fun q => if eqs q path then v else fs q.

(** [open(path, 'wb')] followed by the writes. *)
Definition write_file (path : str) (data : bytes) : M unit :=
  fun st => ({| tick := tick st; files := upd path (Some data) (files st) |},
             Ok tt).

(** [open(path, 'rb')] and [f.read(k)]. *)
Definition read_prefix (k : nat) (path : str) : M str :=
  fun st =>
    match files st path with
    | Some data => (st, Ok (bread k data))
    | None => (st, Raise OSError)
    end.

(** [os.remove] *)
Definition remove (path : str) : M unit :=
  fun st =>
    match files st path with
    | Some _ => ({| tick := tick st; files := upd path None (files st) |}, Ok tt)
    | None => (st, Raise OSError)
    end.

(** [os.rename] *)
Definition rename (src dst : str) : M unit :=
  fun st =>
    match files st src with
    | Some data =>
        ({| tick := tick st;
            files := upd dst (Some data) (upd src None (files st)) |}, Ok tt)
    | None => (st, Raise OSError)
    end.

(** [os.path.join] and [os.path.dirname] (POSIX). *)
Definition path_join (a b : str) : str :=
  if startswith (L "/") b then b
  else if eqs a [] || endswith (L "/") a then a ++ b
  else a ++ L "/" ++ b.

Fixpoint drop_slashes (s : str) : str :=
  match s with
  | c :: s' => if eqc c "/" then drop_slashes s' else s
  | [] => []
  end.

Fixpoint drop_to_slash (s : str) : str :=
  match s with
  | c :: s' => if eqc c "/" then s else drop_to_slash s'
  | [] => []
  end.

Definition dirname (p : str) : str :=
  let head := rev (drop_to_slash (rev p)) in
  match rev (drop_slashes (rev head)) with
  | [] => head
  | h => h
  end.

(** [raise_for_status]: 4xx and 5xx raise. *)
Definition bad_status (status : Z) : bool :=
  ((400 <=? status) && (status <? 600))%Z.

(** [obj[key]] and [obj[0]] on Python objects. *)
Definition subscript (k : str) (v : value) : result value :=
  match v with
  | JDict d => if has_key k d then Ok (get k d) else Raise KeyError
  | _ => Raise TypeError
  end.

Definition subscript0 (v : value) : result value :=
  match v with
  | JList (x :: _) => Ok x
  | JList [] => Raise IndexError
  | JStr (c :: _) => Ok (JStr [c])
  | JStr [] => Raise IndexError
  | JDict _ => Raise KeyError
  | _ => Raise TypeError
  end.

(** [d.get(k, default)] *)
Definition get_default (k : str) (default : value) (d : dict) : value :=
  if has_key k d then get k d else default.

(** [response.raise_for_status()], [response.json()] and
    [result["choices"][0]["message"]["content"]]. *)
Definition message_content (r : api_reply) : result value :=
  if bad_status (api_status r) then Raise (HTTPError (api_status r))
  else
    match loads (api_text r) with
    | None => Raise JSONDecodeError
    | Some result =>
        c <- subscript (L "choices") result ;;
        c <- subscript0 c ;;
        c <- subscript (L "message") c ;;
        subscript (L "content") c
    end.

(** *** [query_perplexity_api], lines 143-452 *)

(** The content has to be a [str]: slicing it for the log or searching
    it raises otherwise. *)
Definition query_perplexity_api (w : world)
    (framework_name last_updated_date api_key : str) : M dict :=
  if eqs api_key [] then raiseM ValueError
  else
    response <~ external (fun t =>
      post w t (UpdateQuery framework_name last_updated_date)) ;;
    content <~ lift (message_content response) ;;
    match content with
    | JStr content => lift (interpret content last_updated_date)
    | _ => raiseM TypeError
    end.

(** *** [find_actual_pdf_url], lines 455-526 *)

(** Lines 512-523, on the content of the answer. *)
Definition pick_pdf_url (content : value) : result (option str) :=
  match content with
  | JStr text =>
      let pdf_url := strip text in
      if negb (eqs pdf_url []) && negb (eqs pdf_url (L "NOT_FOUND"))
         && contains (L ".pdf") (lower pdf_url)
      then
        if contains (L "http") pdf_url then
          match findall no_flags re_pdf_url pdf_url with
          | url :: _ => Ok (Some url)
          | [] => Ok None
          end
        else Ok None
      else Ok None
  | _ => Raise AttributeError
  end.

Definition find_actual_pdf_url (w : world)
    (page_url framework_name api_key : str) : M (option str) :=
  try_catch
    (response <~ external (fun t =>
       post w t (PdfQuery page_url framework_name)) ;;
     content <~ lift (message_content response) ;;
     lift (pick_pdf_url content))
    (fun _ => ret None).

(** *** [download_document], lines 529-804 *)

Definition max_retries : nat := 3.

(** [MAX_AMENDMENT_SIZE_MB], line 721. *)
Definition MAX_AMENDMENT_SIZE_MB : N := 15.

Definition pdf_magic : str := L "%PDF".

(** Truth value of an optional key. *)
Definition key_given (api_key : option str) : bool := some_text api_key.

Definition key_text (api_key : option str) : str :=
  match api_key with Some k => k | None => [] end.

Definition is_pdf_name (s : str) : bool := endswith (L ".pdf") (lower s).

(** One [session.get] with [raise_for_status]. *)
Definition session_get (w : world) (url : str) (alternate : bool) : M reply :=
  resp <~ external (fun t => http_get w t url alternate) ;;
  if bad_status (status_code resp) then raiseM (HTTPError (status_code resp))
  else ret resp.

(** [_attempt_download], lines 554-602: on 403 one more request with the
    alternate headers; if that fails too, the first error is raised. *)
Definition _attempt_download (w : world) (url : str) : M reply :=
  try_catch (session_get w url false)
    (fun e =>
       match e with
       | HTTPError status =>
           if (status =? 403)%Z
           then try_catch (session_get w url true) (fun _ => raiseM e)
           else raiseM e
       | _ => raiseM e
       end).

(** Lines 632-676: the retry loop.  [fuel] bounds the iterations by
    [max_retries]; [None] is the loop left with no response. *)
Fixpoint retry_loop (w : world) (fuel : nat)
    (framework_name document_url : str) (api_key : option str)
    (retry_count : nat) (url_to_fetch : str) {struct fuel}
    : M (option reply) :=
  match fuel with
  | 0 => ret None
  | S fuel' =>
      if retry_count <? max_retries then
        try_catch
          (response <~ _attempt_download w url_to_fetch ;; ret (Some response))
          (fun e =>
             let next url :=
               retry_loop w fuel' framework_name document_url api_key
                          (S retry_count) url in
             let give_up_or_retry : M (option reply) :=
               if max_retries - 1 <=? retry_count then raiseM e
               else next url_to_fetch in
             match e with
             | HTTPError status =>
                 if (status =? 403)%Z && key_given api_key
                    && (retry_count <? max_retries - 1)
                 then
                   alternate_url <~
                     find_actual_pdf_url w document_url framework_name
                                         (key_text api_key) ;;
                   match alternate_url with
                   | Some u =>
                       if negb (eqs u []) && is_pdf_name u
                          && negb (eqs u url_to_fetch)
                       then next u
                       else if retry_count <? max_retries - 1
                            then next url_to_fetch
                            else give_up_or_retry
                   | None =>
                       if retry_count <? max_retries - 1
                       then next url_to_fetch
                       else give_up_or_retry
                   end
                 else give_up_or_retry
             | _ => give_up_or_retry
             end)
      else ret None
  end.

(** Lines 608-625: the URL to fetch; [None] is the early [return None]. *)
Definition choose_url (w : world) (framework_name document_url : str)
    (api_key : option str) : M (option str) :=
  if negb (is_pdf_name document_url) then
    if key_given api_key then
      direct_pdf_url <~
        find_actual_pdf_url w document_url framework_name (key_text api_key) ;;
      match direct_pdf_url with
      | Some u =>
          if negb (eqs u []) && is_pdf_name u && negb (eqs u (L "NOT_FOUND"))
          then ret (Some u) else ret None
      | None => ret None
      end
    else ret None
  else ret (Some document_url).

(** Line 683. *)
Definition safe_name (framework_name : str) : str :=
  replace_char bslash (L "_")
    (replace_char "/" (L "_") (replace_char " " (L "_") framework_name)).

(** Lines 693-697: what the loop over the chunks writes. *)
Definition written (cs : list bytes) : bytes :=
  concat (filter (fun chunk => negb (blen chunk =? 0)%N) cs).

(** Lines 720-723: [downloaded / (1024 * 1024) > MAX_AMENDMENT_SIZE_MB].
    The division by a power of two is exact on floats, so the test is
    the comparison of integers. *)
Definition too_large (downloaded : N) : bool :=
  (MAX_AMENDMENT_SIZE_MB * (1024 * 1024) <? downloaded)%N.

(** Lines 701-717: the magic-number check; [true] when the file was
    rejected. *)
Definition reject_unless_pdf (temp_filepath : str) : M bool :=
  try_catch
    (first_bytes <~ read_prefix 4 temp_filepath ;;
     if negb (eqs first_bytes pdf_magic)
     then (_ <~ remove temp_filepath ;; ret true)
     else ret false)
    (fun _ => try_catch (_ <~ remove temp_filepath ;; ret true)
                        (fun _ => ret true)).

(** Lines 738-777: the upload to the object store; any failure falls
    back to the local path. *)
Definition upload (w : world) (filepath filename : str) : M value :=
  try_catch
    (upload_result <~ external (fun t => s3_upload w t filepath filename) ;;
     success <~ lift (obj_get (L "success") upload_result) ;;
     if truthy success then
       file_info <~ lift (subscript (L "file_info") upload_result) ;;
       s3_url <~ lift (subscript (L "url") file_info) ;;
       s3_key <~ lift (match file_info with
                       | JDict d => Ok (get_default (L "s3Key") (JStr []) d)
                       | _ => Raise AttributeError
                       end) ;;
       stored_name <~ lift (match file_info with
                            | JDict d =>
                                Ok (get_default (L "storedName") (JStr filename) d)
                            | _ => Raise AttributeError
                            end) ;;
       ret (JDict [(L "local_path", JStr filepath); (L "s3_url", s3_url);
                   (L "s3_key", s3_key); (L "stored_name", stored_name)])
     else ret (JStr filepath))
    (fun _ => ret (JStr filepath)).

(** Lines 683-685 and 732-733: the temporary and the permanent name. *)
Definition temp_path (framework_name download_dir timestamp : str) : str :=
  path_join download_dir
            (safe_name framework_name ++ L "_" ++ timestamp ++ L ".tmp").

Definition pdf_name (framework_name timestamp : str) : str :=
  safe_name framework_name ++ L "_" ++ timestamp ++ L ".pdf".

Definition pdf_path (framework_name download_dir timestamp : str) : str :=
  path_join download_dir (pdf_name framework_name timestamp).

(** Lines 678-777: from the response to the stored document. *)
Definition store (w : world) (framework_name download_dir : str)
    (response : option reply) : M value :=
  match response with
  | None => raiseM AttributeError
  | Some response =>
      timestamp <~ (fun st => (st, Ok (now w (tick st)))) ;;
      let temp_filepath := temp_path framework_name download_dir timestamp in
      _ <~ lift (content_length response) ;;
      _ <~ write_file temp_filepath (written (chunks response)) ;;
      if stream_breaks response then raiseM RequestError
      else
        let downloaded := blen (written (chunks response)) in
        rejected <~ reject_unless_pdf temp_filepath ;;
        if rejected then ret JNull
        else if too_large downloaded then
          _ <~ remove temp_filepath ;; ret JNull
        else
          let filename := pdf_name framework_name timestamp in
          let filepath := pdf_path framework_name download_dir timestamp in
          _ <~ rename temp_filepath filepath ;;
          upload w filepath filename
  end.

(** Lines 544-551: the download directory. *)
Definition target_dir (w : world) (download_dir : str) (store_in_media : bool)
    : result str :=
  download_dir <-
    (if store_in_media
     then (root <- media_root w ;; Ok (path_join root (L "change_management")))
     else Ok download_dir) ;;
  _ <- makedirs w download_dir ;;
  Ok download_dir.

Definition download_document (w : world) (framework_name : str)
    (document_url : value) (download_dir : str) (api_key : option str)
    (store_in_media : bool) : M value :=
  if negb (truthy document_url) then ret JNull
  else
    download_dir <~ lift (target_dir w download_dir store_in_media) ;;
    try_catch
      (match document_url with
       | JStr document_url =>
           url_to_fetch <~ choose_url w framework_name document_url api_key ;;
           match url_to_fetch with
           | None => ret JNull
           | Some url_to_fetch =>
               response <~ retry_loop w max_retries framework_name document_url
                                      api_key 0 url_to_fetch ;;
               store w framework_name download_dir response
           end
       | _ => raiseM AttributeError
       end)
      (fun _ => ret JNull).

(** *** [run_framework_update_check], lines 807-926 *)

Definition opt_nonzero (framework_id : option Z) : bool :=
  match framework_id with Some z => negb (z =? 0)%Z | None => false end.

(** Lines 868-897: the optional processing of the amendment. *)
Definition process (w : world) (framework_name last_updated_date : str)
    (update_info : dict) (download_dir : option str) (framework_id : Z)
    (downloaded_path : str) : M value :=
  try_catch
    (let output_dir :=
       if some_text download_dir then key_text download_dir
       else dirname downloaded_path in
     processing_result <~ external (fun t =>
       process_downloaded_amendment w t downloaded_path framework_name
         framework_id
         (get_default (L "latest_update_date") (JStr last_updated_date)
                      update_info)
         output_dir) ;;
     _ <~ lift (obj_get (L "success") processing_result) ;;
     ret processing_result)
    (fun e => ret (JDict [(L "success", JBool false);
                          (L "error", JStr (exn_text w e))])).

(** Lines 845-905: the download and what it leaves in [downloaded_path],
    [downloaded_info] and [processing_result].  A [downloaded_path] that
    is not a [str] makes line 868 raise, and the handler of line 901
    resets [downloaded_path] alone. *)
Definition acquire (w : world) (framework_name last_updated_date api_key : str)
    (update_info : dict) (download_dir : option str)
    (framework_id : option Z) (process_amendment store_in_media : bool)
    : M (value * value * value) :=
  let download_folder :=
    if some_text download_dir then key_text download_dir
    else L "downloads" in
  if truthy (get (L "has_update") update_info)
     && truthy (get (L "document_url") update_info)
  then
    try_catch
      (download_result <~
         download_document w framework_name (get (L "document_url") update_info)
                           download_folder (Some api_key) store_in_media ;;
       if truthy download_result then
         let '(downloaded_path, downloaded_info) :=
           match download_result with
           | JDict d => (get (L "local_path") d, download_result)
           | _ => (download_result, JNull)
           end in
         if process_amendment && opt_nonzero framework_id
            && truthy downloaded_path
         then
           match downloaded_path, framework_id with
           | JStr path, Some id =>
               if is_pdf_name path then
                 processing_result <~
                   process w framework_name last_updated_date update_info
                           download_dir id path ;;
                 ret (downloaded_path, downloaded_info, processing_result)
               else ret (downloaded_path, downloaded_info, JNull)
           | _, _ => ret (JNull, downloaded_info, JNull)
           end
         else ret (downloaded_path, downloaded_info, JNull)
       else ret (JNull, JNull, JNull))
      (fun _ => ret (JNull, JNull, JNull))
  else ret (JNull, JNull, JNull).

(** Lines 912-926: the result record. *)
Definition assemble (update_info : dict)
    (downloaded_path downloaded_info processing_result : value) : dict :=
  let result := set (L "downloaded_path") downloaded_path update_info in
  let result :=
    match downloaded_info with
    | JDict d =>
        if truthy downloaded_info then
          set (L "s3_stored_name") (get (L "stored_name") d)
            (set (L "s3_key") (get (L "s3_key") d)
               (set (L "s3_url") (get (L "s3_url") d) result))
        else result
    | _ => result
    end in
  if truthy processing_result
  then set (L "processing_result") processing_result result
  else result.

Definition run_framework_update_check (w : world)
    (framework_name last_updated_date api_key : str)
    (download_dir : option str) (framework_id : option Z)
    (process_amendment store_in_media : bool) : M dict :=
  update_info <~
    query_perplexity_api w framework_name last_updated_date api_key ;;
  r <~ acquire w framework_name last_updated_date api_key update_info
               download_dir framework_id process_amendment store_in_media ;;
  let '(downloaded_path, downloaded_info, processing_result) := r in
  ret (assemble update_info downloaded_path downloaded_info processing_result).

End Checker.

(** ** The words of the specification *)

Module Spec.

Import Re Json Dates Exn Checker.

(** [sub] occurs in [s] after [n] characters. *)
Definition occurs_at (n : nat) (sub s : str) : Prop :=
  exists pre post, s = pre ++ sub ++ post /\ length pre = n.

Definition occurs (sub s : str) : Prop := exists n, occurs_at n sub s.

(** A fenced block of [s]: the opening fence, the body and the closing
    fence. *)
Definition fenced_block (opening body s : str) : Prop :=
  exists pre post, s = pre ++ opening ++ body ++ fence ++ post.

Definition is_brace (c : ascii) : bool := eqc c "{" || eqc c "}".

Definition brace_free (s : str) : bool :=
  forallb (fun c => negb (is_brace c)) s.


Definition all_space (s : str) : bool := forallb isspace s.

(** A balanced-looking brace-delimited text: braces around a run
    without braces and any number of inner pairs of braces, each with a
    run without braces inside and after it. *)
Definition inner_block (tu : str * str) : str :=
  L "{" ++ fst tu ++ L "}" ++ snd tu.

Definition brace_free_pair (tu : str * str) : Prop :=
  brace_free (fst tu) = true /\ brace_free (snd tu) = true.

Definition brace_block (s : str) : Prop :=
  exists t0 inner,
    s = L "{" ++ t0 ++ flat_map inner_block inner ++ L "}" /\
    brace_free t0 = true /\
    Forall brace_free_pair inner.

(** The first such text of [s]: none starts before it. *)
Definition first_brace_block (cand s : str) : Prop :=
  brace_block cand /\
  exists n, occurs_at n cand s /\
    forall n' cand', brace_block cand' -> occurs_at n' cand' s -> n <= n'.

(** A character that may stand in a URL (line 519). *)
Definition url_ok (c : ascii) : bool :=
  negb (isspace c || existsb (eqc c)
                       ["<"; ">"; dq; "{"; "}"; "|"; bslash; "^"; "`"; "["; "]"]%char).

(** A direct link to a PDF file: [http://] or [https://], at least one
    URL character, and the extension [.pdf]. *)
Definition direct_pdf_url (u : str) : Prop :=
  exists s body,
    u = L "http" ++ s ++ L "://" ++ body ++ L ".pdf" /\
    (s = [] \/ s = L "s") /\ body <> [] /\ forallb url_ok body = true.



(** A text in braces, as the text of a JSON object is. *)
Definition object_text (J : str) : Prop :=
  exists mid, J = L "{" ++ mid ++ L "}".


(** The raw model response to the update query made in state [st] is
    [content]. *)
Definition answers (w : world) (framework_name B : str) (st : state)
    (content : str) : Prop :=
  exists reply,
    post w (tick st) (UpdateQuery framework_name B) = Ok reply /\
    message_content reply = Ok (JStr content).

(** The rule of the specification for the returned verdict [v] against
    the baseline [B]: with a document URL present, [has_update] is true;
    without one, [has_update] is true exactly when the date of the
    verdict parses and lies strictly after the baseline. *)
Definition date_after (v : dict) (B : str) : Prop :=
  exists d b,
    first_format (get (L "latest_update_date") v) date_formats = Ok (Some d) /\
    strptime B (L "%Y-%m-%d") = Some b /\ gt d b = true.

Definition update_rule (v : dict) (B : str) : Prop :=
  if truthy (get (L "document_url") v)
  then truthy (get (L "has_update") v) = true
  else truthy (get (L "has_update") v) = true <-> date_after v B.

(** The rule of the specification for a date that does not parse:
    [has_update] is forced to false exactly when no document URL is
    present. *)
Definition unparseable_rule (before_validation returned : dict) : Prop :=
  truthy (get (L "has_update") returned)
  = truthy (get (L "document_url") before_validation).


End Spec.

(** ** Scenarios *)

Module Scenarios.

Import Re Json Dates Exn Checker.

(** The body of a chat-completion answer carrying [content]. *)
Definition json_escape (s : str) : str :=
  flat_map (fun c => if eqc c dq then [bslash; dq]
                     else if eqc c bslash then [bslash; bslash]
                     else if eqc c "010" then [bslash; "n"%char]
                     else [c]) s.

Definition answer (content : str) : api_reply :=
  {| api_status := 200;
     api_text := Q "{'choices':[{'message':{'content':'"
                 ++ json_escape content ++ Q "'}}]}" |}.

(** A world in which the prompt service answers the update query with
    [verdict_text] and the PDF query with [pdf_text], every download
    request is answered by [download], and neither the object store nor
    the amendment processor is installed. *)
Definition world_of (verdict_text pdf_text : str)
    (download : nat -> str -> bool -> result reply) : world :=
  {| post := fun _ req =>
       match req with
       | UpdateQuery _ _ => Ok (answer verdict_text)
       | PdfQuery _ _ => Ok (answer pdf_text)
       end;
     http_get := download;
     media_root := Ok (L "/srv/media");
     makedirs := fun _ => Ok tt;
     now := fun _ => L "20251103_120000";
     s3_upload := fun _ _ _ => Raise ImportError;
     process_downloaded_amendment := fun _ _ _ _ _ _ => Raise ImportError;
     exn_text := fun _ => L "error" |}.

(** A world in which the prompt service cannot be reached. *)
Definition unreachable : world :=
  {| post := fun _ _ => Raise RequestError;
     http_get := fun _ _ _ => Raise RequestError;
     media_root := Ok (L "/srv/media");
     makedirs := fun _ => Ok tt;
     now := fun _ => L "20251103_120000";
     s3_upload := fun _ _ _ => Raise ImportError;
     process_downloaded_amendment := fun _ _ _ _ _ _ => Raise ImportError;
     exn_text := fun _ => L "error" |}.

Definition served (body : list bytes) : nat -> str -> bool -> result reply :=
  fun _ _ _ =>
    Ok {| status_code := 200; content_type := L "application/pdf";
          content_length := Ok 0%Z; chunks := body; stream_breaks := false |}.

Definition offline : nat -> str -> bool -> result reply :=
  fun _ _ _ => Raise RequestError.

Definition empty_disk : state := {| tick := 0; files := fun _ => None |}.

Definition baseline : str := L "2025-09-13".

(** Scenario 2 of the specification. *)
Definition update_with_pdf : str :=
  Q "{'framework_name':'X','has_update':true,'latest_update_date':'2025-10-01','document_url':'https://x.org/upd.pdf'}".

(** A verdict that denies an update and still names a document. *)
Definition no_update_with_pdf : str :=
  Q "{'has_update': false, 'latest_update_date': '2025-10-01', 'document_url': 'https://x.org/upd.pdf'}".

(** A verdict that claims an update with a date no format parses. *)
Definition update_with_vague_date : str :=
  Q "{'has_update': true, 'latest_update_date': 'October 2025', 'document_url': null}".


Definition small_pdf : list bytes := [of_text (L "%PDF-1.7 amendment")].

(** An answer to the PDF query that wraps the link in a sentence. *)
Definition chatty_pdf_answer : str :=
  L "The PDF is at https://x.org/a.pdf (amendment)".

End Scenarios.

(** ** Requests, names and dates *)

Module Shapes.

Import Re Json Dates Exn Checker Spec.

(** [sep.join(parts)] *)
Fixpoint join (sep : str) (parts : list str) : str :=
  match parts with
  | [] => []
  | [p] => p
  | p :: rest => p ++ sep ++ join sep rest
  end.

(** Line 591: the referer of the second attempt of [_attempt_download],
    ['/'.join(url.split('/')[:3]) + '/']. *)
Definition referer (url : str) : str :=
  join (L "/") (firstn 3 (split_char "/" url)) ++ L "/".

Definition slash_free (s : str) : bool :=
  forallb (fun c => negb (eqc c "/")) s.

(** The characters the class of line 272 removes from the end of a
    URL. *)
Definition trailing_punct (c : ascii) : bool :=
  existsb (eqc c) ["."; ","; ";"; ":"; "!"; "?"; ")"; "]"]%char.

(** A number below 100 in two digits. *)
Definition digit (n : nat) : ascii := ascii_of_nat (48 + n).

Definition two (n : nat) : str := [digit (n / 10); digit (n mod 10)].

(** The same world with another amendment processor, with another
    answer to the download requests, and with another object store. *)
Definition with_processor (w : world)
    (p : nat -> str -> str -> Z -> value -> str -> result value) : world :=
  {| post := post w; http_get := http_get w; media_root := media_root w;
     makedirs := makedirs w; now := now w; s3_upload := s3_upload w;
     process_downloaded_amendment := p; exn_text := exn_text w |}.

Definition with_http_get (w : world)
    (g : nat -> str -> bool -> result reply) : world :=
  {| post := post w; http_get := g; media_root := media_root w;
     makedirs := makedirs w; now := now w; s3_upload := s3_upload w;
     process_downloaded_amendment := process_downloaded_amendment w;
     exn_text := exn_text w |}.

Definition with_s3_upload (w : world)
    (u : nat -> str -> str -> result value) : world :=
  {| post := post w; http_get := http_get w; media_root := media_root w;
     makedirs := makedirs w; now := now w; s3_upload := u;
     process_downloaded_amendment := process_downloaded_amendment w;
     exn_text := exn_text w |}.

(** The characters around the month name in a date as prose writes it:
    digits, the space and the comma. *)
Definition plain (c : ascii) : bool := isdigit c || eqc c " " || eqc c ",".

(** A date as prose writes it: the month of index [i] (January is 0),
    a space, the day, an optional comma, a space and the year [20YY];
    and the same date in the form [20YY-MM-DD]. *)
Definition written_date (i : nat) (D Y : str) (comma : bool) : str :=
  nth i month_names [] ++ L " " ++ D ++ (if comma then L "," else [])
  ++ L " 20" ++ Y.

Definition iso_date (i : nat) (D Y : str) : str :=
  L "20" ++ Y ++ L "-" ++ two (S i) ++ L "-" ++ zfill 2 D.

(** A value that is a string, or counts as false. *)
Definition text_or_falsy (v : value) : Prop :=
  truthy v = false \/ exists s, v = JStr s.

(** A text in which no word character stands before a colon, as the
    pattern of line 230 requires of a bare key; and a text without
    single quotes. *)
Fixpoint no_bare_key (s : str) : bool :=
  match s with
  | c :: t =>
      match t with
      | d :: _ => negb (isword c && eqc d ":") && no_bare_key t
      | [] => true
      end
  | [] => true
  end.

Definition no_single_quote (s : str) : bool :=
  forallb (fun c => negb (eqc c "'")) s.


(** Answers of the model: a verdict whose date is a number, and prose
    that names a link. *)
Definition update_with_numeric_date : str :=
  Q "{'has_update': true, 'latest_update_date': 20251001}".

Definition prose_with_link : str :=
  L "The amendment is at https://x.org/a.pdf.".

Definition prose_with_keywords : str :=
  L "The framework has been updated recently.".

Definition prose_with_date : str :=
  L "The board approved the text on 2025/10/01.".

(** A server that refuses every request, and an object store that
    accepts every upload. *)
Definition forbidden : nat -> str -> bool -> result reply :=
  fun _ _ _ =>
    Ok {| status_code := 403; content_type := L "text/html";
          content_length := Ok 0%Z; chunks := []; stream_breaks := false |}.

(** A server whose answer breaks off after the first bytes. *)
Definition cut_off : nat -> str -> bool -> result reply :=
  fun _ _ _ =>
    Ok {| status_code := 200; content_type := L "application/pdf";
          content_length := Ok 0%Z; chunks := [of_text (L "%PDF-1.7 am")];
          stream_breaks := true |}.

Definition stored_in_s3 : nat -> str -> str -> result value :=
  fun _ _ filename =>
    Ok (JDict [(L "success", JBool true);
               (L "file_info",
                JDict [(L "url", JStr (L "https://s3.example/" ++ filename));
                       (L "s3Key", JStr filename)])]).

End Shapes.

Import Re Json Dates Exn Checker Spec Scenarios.

Unset Implicit Arguments.

(** * Properties *)

(** ** The matcher against the declarative matches *)

Section MatcherFacts.

Variable f : flags.

(** A match moves the position forward inside one subject. *)
Lemma Matches_span r p g q g' :
  Matches f r p g q g' ->
  exists m, after p = m ++ after q /\ before q = rev m ++ before p.
Proof.
  induction 1.
  - exists []; auto.
  - exists [a]; simpl; auto.
  - exists [a]; simpl; auto.
  - exists [a]; simpl; auto.
  - destruct IHMatches1 as [m1 [E1 B1]], IHMatches2 as [m2 [E2 B2]].
    exists (m1 ++ m2). rewrite E1, E2, B2, B1, rev_app_distr, !app_assoc; auto.
  - assumption.
  - assumption.
  - exists []; auto.
  - destruct IHMatches1 as [m1 [E1 B1]], IHMatches2 as [m2 [E2 B2]].
    exists (m1 ++ m2). rewrite E1, E2, B2, B1, rev_app_distr, !app_assoc; auto.
  - assumption.
  - exists []; auto.
  - exists []; auto.
Qed.

Lemma Matches_length r p g q g' :
  Matches f r p g q g' -> length (after q) <= length (after p).
Proof.
  intros H. destruct (Matches_span _ _ _ _ _ H) as [m [E _]].
  rewrite E, length_app. lia.
Qed.

Lemma captured_span p q m :
  after p = m ++ after q -> captured p q = m.
Proof.
  intros E. unfold captured. rewrite E, length_app.
  replace (length m + length (after q) - length (after q)) with (length m) by lia.
  rewrite firstn_app, firstn_all, Nat.sub_diag. simpl. apply app_nil_r.
Qed.

Lemma Matches_subject r p g q g' :
  Matches f r p g q g' -> subject q = subject p.
Proof.
  intros H. destruct (Matches_span _ _ _ _ _ H) as [m [E B]].
  unfold subject. rewrite E, B, rev_app_distr, rev_involutive, app_assoc.
  reflexivity.
Qed.

Section Loop.

Variable A : Type.
Variable r : regex.
Variable k : pos -> groups -> option A.

Hypothesis body_sound :
  forall p g (k' : pos -> groups -> option A) x,
    run f r p g k' = Some x ->
    exists q g', Matches f r p g q g' /\ k' q g' = Some x.

Hypothesis body_complete :
  forall p g (k' : pos -> groups -> option A),
    run f r p g k' = None ->
    forall q g', Matches f r p g q g' -> k' q g' = None.

Lemma star_loop_sound gr n : forall p g x,
  star_loop (run f r) k gr n p g = Some x ->
  exists q g', Matches f (Star gr r) p g q g' /\ k q g' = Some x.
Proof.
  induction n as [|n IH]; intros p g x H; simpl in H.
  - exists p, g; split; [constructor | assumption].
  - assert (step : forall y,
      run f r p g (fun p1 g1 =>
        if length (after p1) <? length (after p)
        then star_loop (run f r) k gr n p1 g1 else None) = Some y ->
      exists q g', Matches f (Star gr r) p g q g' /\ k q g' = Some y).
    { intros y Hy. apply body_sound in Hy. destruct Hy as [p1 [g1 [M1 K1]]].
      destruct (length (after p1) <? length (after p)) eqn:Lt; [|discriminate].
      apply Nat.ltb_lt in Lt. apply IH in K1. destruct K1 as [q [g' [M2 K2]]].
      exists q, g'; split; [eapply M_StarS; eauto | assumption]. }
    destruct gr.
    + destruct (run f r p g _) eqn:E.
      * inversion H; subst. apply step; assumption.
      * exists p, g; split; [constructor | assumption].
    + destruct (k p g) eqn:E.
      * inversion H; subst. exists p, g; split; [constructor | assumption].
      * apply step; assumption.
Qed.

Lemma star_loop_complete gr n : forall p g,
  length (after p) < n ->
  star_loop (run f r) k gr n p g = None ->
  forall q g', Matches f (Star gr r) p g q g' -> k q g' = None.
Proof.
  induction n as [|n IH]; intros p g Hn H q g' M; [lia|].
  simpl in H.
  assert (H' :
    k p g = None /\
    run f r p g (fun p1 g1 =>
      if length (after p1) <? length (after p)
      then star_loop (run f r) k gr n p1 g1 else None) = None).
  { destruct gr.
    - destruct (run f r p g _); [discriminate | auto].
    - destruct (k p g); [discriminate | auto]. }
  destruct H' as [K0 B0].
  inversion M; subst.
  - assumption.
  - match goal with
    | M1 : Matches f r p g ?p1 ?g1, Lt : length (after ?p1) < _ |- _ =>
        pose proof (body_complete _ _ _ B0 _ _ M1) as C; simpl in C;
        apply Nat.ltb_lt in Lt as Lb; rewrite Lb in C;
        eapply IH; [ | exact C | eassumption ]; lia
    end.
Qed.

End Loop.

(** What the matcher returns comes from a match of the pattern. *)
Lemma run_sound r : forall A p g (k : pos -> groups -> option A) x,
  run f r p g k = Some x ->
  exists q g', Matches f r p g q g' /\ k q g' = Some x.
Proof.
  induction r; intros A p g k x H; cbn [run] in H.
  - exists p, g; split; [constructor | assumption].
  - destruct (after p) as [|a rest] eqn:E; [discriminate|].
    destruct (lit_mem f c a) eqn:Mem; [|discriminate].
    exists (advance a rest p), g; split; [constructor; assumption | assumption].
  - destruct (after p) as [|a rest] eqn:E; [discriminate|].
    destruct (any_mem f a) eqn:Mem; [|discriminate].
    exists (advance a rest p), g; split; [constructor; assumption | assumption].
  - destruct (after p) as [|a rest] eqn:E; [discriminate|].
    destruct (cls_mem neg items a) eqn:Mem; [|discriminate].
    exists (advance a rest p), g; split; [constructor; assumption | assumption].
  - apply IHr1 in H. destruct H as [p1 [g1 [M1 H]]].
    apply IHr2 in H. destruct H as [q [g' [M2 H]]].
    exists q, g'; split; [econstructor; eauto | assumption].
  - destruct (run f r1 p g k) eqn:E.
    + inversion H; subst. apply IHr1 in E. destruct E as [q [g' [M1 K]]].
      exists q, g'; split; [apply M_AltL; assumption | assumption].
    + apply IHr2 in H. destruct H as [q [g' [M1 K]]].
      exists q, g'; split; [apply M_AltR; assumption | assumption].
  - eapply star_loop_sound; [intros; eapply IHr; eassumption | exact H].
  - apply IHr in H. destruct H as [q [g' [M1 K]]].
    exists q, (set_group n (captured p q) g'); split;
      [constructor; assumption | assumption].
  - destruct (at_boundary p) eqn:E; [|discriminate].
    exists p, g; split; [constructor; assumption | assumption].
  - destruct (at_eos p) eqn:E; [|discriminate].
    exists p, g; split; [constructor; assumption | assumption].
Qed.

(** The matcher fails only when no match of the pattern can be
    continued. *)
Lemma run_complete r : forall A p g (k : pos -> groups -> option A),
  run f r p g k = None ->
  forall q g', Matches f r p g q g' -> k q g' = None.
Proof.
  induction r; intros A p g k H q g' M; cbn [run] in H.
  - inversion M; subst; assumption.
  - inversion M; subst.
    match goal with E : after p = _ |- _ => rewrite E in H end.
    match goal with E : lit_mem _ _ _ = true |- _ => rewrite E in H end.
    assumption.
  - inversion M; subst.
    match goal with E : after p = _ |- _ => rewrite E in H end.
    match goal with E : any_mem _ _ = true |- _ => rewrite E in H end.
    assumption.
  - inversion M; subst.
    match goal with E : after p = _ |- _ => rewrite E in H end.
    match goal with E : cls_mem _ _ _ = true |- _ => rewrite E in H end.
    assumption.
  - inversion M; subst.
    match goal with
    | M1 : Matches f r1 p g ?p1 ?g1, M2 : Matches f r2 ?p1 ?g1 q g' |- _ =>
        pose proof (IHr1 _ _ _ _ H _ _ M1) as C; simpl in C;
        exact (IHr2 _ _ _ _ C _ _ M2)
    end.
  - destruct (run f r1 p g k) eqn:E; [discriminate|].
    inversion M; subst; [eapply IHr1 | eapply IHr2]; eauto.
  - eapply star_loop_complete; [ | | exact H | exact M ].
    + intros p0 g0 k' H0 q0 g0' M0. eapply IHr; eauto.
    + lia.
  - inversion M; subst.
    match goal with
    | M1 : Matches f r p g q ?g1 |- _ =>
        exact (IHr _ _ _ _ H _ _ M1)
    end.
  - inversion M; subst.
    match goal with E : at_boundary _ = true |- _ => rewrite E in H end.
    assumption.
  - inversion M; subst.
    match goal with E : at_eos _ = true |- _ => rewrite E in H end.
    assumption.
Qed.

End MatcherFacts.

(** ** Strings *)

Lemma eqc_true a b : eqc a b = true <-> a = b.
Proof. unfold eqc. apply Ascii.eqb_eq. Qed.

Lemma eqc_refl a : eqc a a = true.
Proof. apply eqc_true; reflexivity. Qed.

Lemma eqs_true a : forall b, eqs a b = true <-> a = b.
Proof.
  induction a as [|x a IH]; intros [|y b]; simpl; split; intros H;
    try reflexivity; try discriminate.
  - apply andb_true_iff in H. destruct H as [H1 H2].
    apply eqc_true in H1. apply IH in H2. subst; reflexivity.
  - inversion H; subst. rewrite eqc_refl. simpl. apply IH; reflexivity.
Qed.

Lemma eqs_refl a : eqs a a = true.
Proof. apply eqs_true; reflexivity. Qed.

Lemma eqs_false a b : eqs a b = false <-> a <> b.
Proof.
  split.
  - intros H E. apply eqs_true in E. congruence.
  - intros H. destruct (eqs a b) eqn:E; [|reflexivity].
    apply eqs_true in E. contradiction.
Qed.

Lemma startswith_app p : forall s, startswith p s = true <-> exists t, s = p ++ t.
Proof.
  induction p as [|x p IH]; intros s; simpl.
  - split; [intros _; exists s; reflexivity | reflexivity].
  - destruct s as [|y s].
    + split; [discriminate | intros [t H]; discriminate].
    + rewrite andb_true_iff, eqc_true, IH. split.
      * intros [E [t H]]. subst. exists t; reflexivity.
      * intros [t H]. inversion H; subst. split; [reflexivity | exists t; reflexivity].
Qed.

Lemma contains_occurs p : forall s,
  contains p s = true <-> exists pre post, s = pre ++ p ++ post.
Proof.
  induction s as [|c s IH].
  - simpl. rewrite orb_false_r, startswith_app. split.
    + intros [t H]. exists [], t. assumption.
    + intros [pre [post H]]. destruct pre; [|discriminate].
      exists post. assumption.
  - cbn [contains]. rewrite orb_true_iff, startswith_app, IH. split.
    + intros [[t H] | [pre [post H]]].
      * exists [], t. assumption.
      * exists (c :: pre), post. rewrite H. reflexivity.
    + intros [pre [post H]]. destruct pre as [|x pre].
      * left. exists post. assumption.
      * right. inversion H; subst. exists pre, post. reflexivity.
Qed.

Lemma endswith_app p s : endswith p s = true <-> exists t, s = t ++ p.
Proof.
  unfold endswith. rewrite startswith_app. split.
  - intros [t H]. exists (rev t).
    rewrite <- (rev_involutive s), H, rev_app_distr, rev_involutive.
    reflexivity.
  - intros [t H]. exists (rev t). rewrite H, rev_app_distr. reflexivity.
Qed.

Lemma lstrip_spaces ws s : all_space ws = true -> lstrip (ws ++ s) = lstrip s.
Proof.
  induction ws as [|c ws IH]; simpl; intros H; [reflexivity|].
  apply andb_true_iff in H. destruct H as [H1 H2]. rewrite H1. auto.
Qed.

Lemma all_space_rev ws : all_space ws = true -> all_space (rev ws) = true.
Proof.
  unfold all_space. rewrite !forallb_forall. intros H x Hx.
  apply H. apply in_rev. assumption.
Qed.

Lemma lstrip_head c s : isspace c = false -> lstrip (c :: s) = c :: s.
Proof. intros H. simpl. rewrite H. reflexivity. Qed.

(** White space around a text does not change what [strip] returns. *)
Lemma strip_spaces ws1 s ws2 :
  all_space ws1 = true -> all_space ws2 = true ->
  strip (ws1 ++ s ++ ws2) = strip s.
Proof.
  intros H1 H2. unfold strip, rstrip.
  rewrite (lstrip_spaces _ _ H1).
  assert (R : forall t, rev (lstrip (rev (lstrip (t ++ ws2))))
                        = rev (lstrip (rev (lstrip t)))).
  { induction t as [|c t IHt].
    - simpl. destruct (lstrip ws2) eqn:E.
      + reflexivity.
      + assert (X : forall w, all_space w = true ->
                  rev (lstrip (rev (lstrip w))) = []).
        { clear. induction w as [|c w IHw]; intros H; [reflexivity|].
          simpl in *. apply andb_true_iff in H. destruct H as [Hc Hw].
          rewrite Hc. auto. }
        rewrite <- E. apply X. assumption.
    - cbn [app lstrip]. destruct (isspace c) eqn:Ec; [assumption|].
      change (c :: t ++ ws2) with ((c :: t) ++ ws2).
      rewrite rev_app_distr.
      rewrite (lstrip_spaces _ _ (all_space_rev _ H2)). reflexivity. }
  apply R.
Qed.

(** A text that starts and ends with a character that is not white
    space is left alone by [strip]. *)
Lemma strip_id a mid b :
  isspace a = false -> isspace b = false ->
  strip (a :: mid ++ [b]) = a :: mid ++ [b].
Proof.
  intros Ha Hb. unfold strip, rstrip. rewrite (lstrip_head _ _ Ha).
  replace (rev (a :: mid ++ [b])) with (b :: rev (a :: mid)).
  - rewrite (lstrip_head _ _ Hb).
    change (b :: rev (a :: mid)) with ([b] ++ rev (a :: mid)).
    rewrite rev_app_distr, rev_involutive. reflexivity.
  - change (a :: mid ++ [b]) with ((a :: mid) ++ [b]).
    rewrite rev_app_distr. reflexivity.
Qed.

(** ** [re.search] *)

Section SearchFacts.

Variable f : flags.
Variable r : regex.

Lemma match_at_sound p m :
  match_at f r p = Some m ->
  m_start m = p /\ Matches f r p [] (m_end m) (m_groups m).
Proof.
  unfold match_at. intros H. apply run_sound in H.
  destruct H as [q [g' [M E]]]. inversion E; subst. simpl. auto.
Qed.

Lemma match_at_none p :
  match_at f r p = None -> forall q g', ~ Matches f r p [] q g'.
Proof.
  unfold match_at. intros H q g' M.
  pose proof (run_complete _ _ _ _ _ _ H _ _ M) as C. discriminate.
Qed.

(** [re.search] returns a match of the pattern, at the leftmost place
    where the pattern matches at all. *)
Lemma search_from_sound : forall aft bef m,
  search_from f r bef aft = Some m ->
  exists pre,
    aft = pre ++ after (m_start m) /\
    before (m_start m) = rev pre ++ bef /\
    Matches f r (m_start m) [] (m_end m) (m_groups m) /\
    forall pre' rest' q g',
      aft = pre' ++ rest' -> length pre' < length pre ->
      ~ Matches f r {| before := rev pre' ++ bef; after := rest' |} [] q g'.
Proof.
  induction aft as [|a aft IH]; intros bef m H; simpl in H.
  - destruct (match_at f r _) eqn:E; [|discriminate].
    inversion H; subst. apply match_at_sound in E. destruct E as [S M].
    exists []. rewrite S. simpl. repeat split; auto.
    intros; simpl in *; lia.
  - destruct (match_at f r _) eqn:E.
    + inversion H; subst. apply match_at_sound in E. destruct E as [S M].
      exists []. rewrite S. simpl. repeat split; auto.
      intros; simpl in *; lia.
    + apply IH in H. destruct H as [pre [E1 [E2 [M N]]]].
      exists (a :: pre). split; [simpl; rewrite <- E1; reflexivity|].
      split; [rewrite E2; simpl; rewrite <- app_assoc; reflexivity|].
      split; [assumption|].
      intros pre' rest' q g' S Lt. destruct pre' as [|x pre'].
      * simpl in S. subst rest'. simpl. apply match_at_none. assumption.
      * simpl in S. injection S as Ex S'. subst x. simpl.
        rewrite <- app_assoc. simpl.
        apply N; [exact S' | simpl in Lt; lia].
Qed.

Lemma search_from_none : forall aft bef,
  search_from f r bef aft = None ->
  forall pre rest q g',
    aft = pre ++ rest ->
    ~ Matches f r {| before := rev pre ++ bef; after := rest |} [] q g'.
Proof.
  induction aft as [|a aft IH]; intros bef H pre rest q g' S; simpl in H.
  - destruct (match_at f r _) eqn:E; [discriminate|].
    destruct pre; [|discriminate]. simpl in S. subst rest. simpl.
    apply match_at_none. assumption.
  - destruct (match_at f r _) eqn:E; [discriminate|].
    destruct pre as [|x pre].
    + simpl in S. subst rest. simpl. apply match_at_none. assumption.
    + simpl in S. injection S as Ex S'. subst x. simpl.
      rewrite <- app_assoc. simpl.
      eapply IH; eauto.
Qed.

Lemma search_sound s m :
  search f r s = Some m ->
  exists pre,
    s = pre ++ after (m_start m) /\
    before (m_start m) = rev pre /\
    Matches f r (m_start m) [] (m_end m) (m_groups m) /\
    forall pre' rest' q g',
      s = pre' ++ rest' -> length pre' < length pre ->
      ~ Matches f r {| before := rev pre'; after := rest' |} [] q g'.
Proof.
  unfold search. intros H. apply search_from_sound in H.
  destruct H as [pre [E1 [E2 [M N]]]]. exists pre.
  rewrite app_nil_r in E2. repeat split; auto.
  intros pre' rest' q g' S Lt C. eapply N; eauto.
  rewrite app_nil_r. exact C.
Qed.

Lemma search_none s :
  search f r s = None ->
  forall pre rest q g',
    s = pre ++ rest ->
    ~ Matches f r {| before := rev pre; after := rest |} [] q g'.
Proof.
  unfold search. intros H pre rest q g' S C.
  eapply search_from_none; eauto. rewrite app_nil_r. exact C.
Qed.

(** The text of a match, inside the subject. *)
Lemma search_group0 s m :
  search f r s = Some m ->
  exists pre, s = pre ++ group0 m ++ after (m_end m)
              /\ after (m_start m) = group0 m ++ after (m_end m)
              /\ before (m_start m) = rev pre.
Proof.
  intros H. apply search_sound in H. destruct H as [pre [E1 [E2 [M _]]]].
  destruct (Matches_span _ _ _ _ _ _ M) as [t [E3 _]].
  exists pre. unfold group0. rewrite (captured_span _ _ _ E3).
  rewrite E1 at 1. rewrite E3. auto.
Qed.

End SearchFacts.

(** ** The fuel of [json.loads] *)

Lemma skip_ws_length s : length (skip_ws s) <= length s.
Proof.
  induction s as [|c s IH]; simpl; [lia|].
  destruct (is_ws c); simpl; lia.
Qed.

Lemma scanstring_length : forall n s acc x r,
  length s <= n -> scanstring s acc = Some (x, r) -> length r < length s.
Proof.
  induction n as [|n IH]; intros s acc x r Hn H.
  - destruct s; [discriminate | simpl in Hn; lia].
  - destruct s as [|c s]; [discriminate|]. simpl in H, Hn.
    destruct (eqc c dq).
    + inversion H; subst. simpl. lia.
    + destruct (eqc c bslash).
      * destruct s as [|e s]; [discriminate|].
        destruct (eqc e "u").
        -- destruct s as [|h1 [|h2 [|h3 [|h4 s]]]]; try discriminate.
           destruct (hex4 h1 h2 h3 h4); [|discriminate].
           destruct (_ <? 256); [|discriminate].
           apply IH in H; simpl in *; lia.
        -- destruct (simple_escape e); [|discriminate].
           apply IH in H; simpl in *; lia.
      * destruct (code c <? 32); [discriminate|].
        apply IH in H; simpl in *; lia.
Qed.

Lemma take_digits_length s : length (snd (take_digits s)) <= length s.
Proof.
  induction s as [|c s IH]; simpl; [lia|].
  destruct (isdigit c); simpl; [|lia].
  destruct (take_digits s). simpl in *. lia.
Qed.

Lemma scan_number_length s v r :
  scan_number s = Some (v, r) -> length r < length s.
Proof.
  unfold scan_number.
  destruct (scan_sign s) as [neg s1] eqn:E1.
  assert (L1 : length s1 <= length s).
  { unfold scan_sign in E1. destruct s as [|c t]; [inversion E1; auto|].
    destruct (eqc c "-"); inversion E1; subst; simpl; lia. }
  destruct (scan_int s1) as [[ds s2]|] eqn:E2; [|discriminate].
  assert (L2 : length s2 < length s1).
  { unfold scan_int in E2. destruct s1 as [|c t]; [discriminate|].
    destruct (eqc c "0"); [inversion E2; subst; simpl; lia|].
    destruct (between 49 57 (code c)); [|discriminate].
    pose proof (take_digits_length t) as T.
    destruct (take_digits t). inversion E2; subst. simpl in *. lia. }
  destruct (scan_frac s2) as [frac s3] eqn:E3.
  assert (L3 : length s3 <= length s2).
  { unfold scan_frac in E3. destruct s2 as [|c t]; [inversion E3; auto|].
    destruct (eqc c "."); [|inversion E3; auto].
    pose proof (take_digits_length t) as T.
    destruct (take_digits t) as [[|x fd] r0]; inversion E3; subst;
      simpl in *; lia. }
  destruct (scan_exp s3) as [ex s4] eqn:E4.
  assert (L4 : length s4 <= length s3).
  { unfold scan_exp in E4. destruct s3 as [|c t]; [inversion E4; auto|].
    destruct (eqc c "e" || eqc c "E"); [|inversion E4; auto].
    destruct t as [|sg t'].
    { simpl in E4. inversion E4; subst. auto. }
    destruct (eqc sg "-").
    { pose proof (take_digits_length t') as T.
      destruct (take_digits t') as [[|x ed] r0]; inversion E4; subst;
        simpl in *; lia. }
    destruct (eqc sg "+").
    { pose proof (take_digits_length t') as T.
      destruct (take_digits t') as [[|x ed] r0]; inversion E4; subst;
        simpl in *; lia. }
    pose proof (take_digits_length (sg :: t')) as T.
    destruct (take_digits (sg :: t')) as [[|x ed] r0]; inversion E4; subst;
      simpl in *; lia. }
  destruct frac; destruct ex; intros H; inversion H; subst; lia.
Qed.

(** A value takes characters from the text. *)
Lemma scan_length : forall n,
  (forall s v r, scan_once n s = Some (v, r) -> length r < length s) /\
  (forall s acc v r, scan_members n s acc = Some (v, r) ->
                     length r < length s) /\
  (forall s acc v r, scan_elements n s acc = Some (v, r) ->
                     length r < length s).
Proof.
  induction n as [|n [IH1 [IH2 IH3]]]; [repeat split; discriminate|].
  split; [|split].
  - intros s v r H. cbn [scan_once] in H.
    destruct s as [|c t]; [discriminate|].
    destruct (eqc c dq).
    { destruct (scanstring t []) as [[x r0]|] eqn:E; [|discriminate].
      apply (scanstring_length (length t)) in E; [|lia].
      inversion H; subst. simpl. lia. }
    destruct (eqc c "{").
    { pose proof (skip_ws_length t) as W.
      destruct (skip_ws t) as [|c1 r0]; [discriminate|].
      destruct (eqc c1 "}"); [inversion H; subst; simpl in *; lia|].
      apply IH2 in H. simpl in *. lia. }
    destruct (eqc c "[").
    { pose proof (skip_ws_length t) as W.
      destruct (skip_ws t) as [|c1 r0]; [discriminate|].
      destruct (eqc c1 "]"); [inversion H; subst; simpl in *; lia|].
      apply IH3 in H. simpl in *. lia. }
    assert (K : forall k x, Some (x, skipn k (c :: t)) = Some (v, r) ->
                forall w, startswith w (c :: t) = true -> k = length w ->
                0 < k -> length r < length (c :: t)).
    { intros k x E w Sw Ek Pk. injection E as _ Er. subst r.
      apply startswith_app in Sw. destruct Sw as [u Eu].
      rewrite Eu, Ek, skipn_app, skipn_all, Nat.sub_diag. simpl.
      rewrite length_app. lia. }
    repeat match type of H with
           | (if startswith ?w ?s then _ else _) = _ =>
               destruct (startswith w s) eqn:?;
               [eapply (K _ _ H); [eassumption | reflexivity | simpl; lia]|]
           end.
    exact (scan_number_length _ _ _ H).
  - intros s acc v r H. cbn [scan_members] in H.
    destruct s as [|c t]; [discriminate|].
    destruct (eqc c dq); [|discriminate].
    destruct (scanstring t []) as [[key r0]|] eqn:E; [|discriminate].
    apply (scanstring_length (length t)) in E; [|lia].
    pose proof (skip_ws_length r0) as W0.
    destruct (skip_ws r0) as [|c1 r1]; [discriminate|].
    destruct (eqc c1 ":"); [|discriminate].
    pose proof (skip_ws_length r1) as W1.
    destruct (scan_once n (skip_ws r1)) as [[v0 r2]|] eqn:E2; [|discriminate].
    apply IH1 in E2.
    pose proof (skip_ws_length r2) as W2.
    destruct (skip_ws r2) as [|c2 r3]; [discriminate|].
    destruct (eqc c2 "}"); [inversion H; subst; simpl in *; lia|].
    destruct (eqc c2 ","); [|discriminate].
    apply IH2 in H. pose proof (skip_ws_length r3). simpl in *. lia.
  - intros s acc v r H. cbn [scan_elements] in H.
    destruct (scan_once n s) as [[v0 r0]|] eqn:E; [|discriminate].
    apply IH1 in E.
    pose proof (skip_ws_length r0) as W0.
    destruct (skip_ws r0) as [|c r1]; [discriminate|].
    destruct (eqc c "]"); [inversion H; subst; simpl in *; lia|].
    destruct (eqc c ","); [|discriminate].
    apply IH3 in H. pose proof (skip_ws_length r1). simpl in *. lia.
Qed.

(** With two units of fuel for each character, one more unit changes
    nothing: the fuel of [loads] never runs out. *)
Lemma scan_fuel : forall n,
  (forall s, 2 * length s + 1 <= n -> scan_once (S n) s = scan_once n s) /\
  (forall s acc, 2 * length s + 2 <= n ->
                 scan_members (S n) s acc = scan_members n s acc) /\
  (forall s acc, 2 * length s + 2 <= n ->
                 scan_elements (S n) s acc = scan_elements n s acc).
Proof.
  induction n as [|n [IH1 [IH2 IH3]]]; [repeat split; intros; lia|].
  split; [|split].
  - intros s Hn. cbn [scan_once].
    destruct s as [|c t]; [reflexivity|]. simpl in Hn.
    destruct (eqc c dq); [reflexivity|].
    destruct (eqc c "{").
    { pose proof (skip_ws_length t) as W.
      destruct (skip_ws t) as [|c1 r0]; [reflexivity|].
      destruct (eqc c1 "}"); [reflexivity|].
      apply IH2. simpl in *. lia. }
    destruct (eqc c "[").
    { pose proof (skip_ws_length t) as W.
      destruct (skip_ws t) as [|c1 r0]; [reflexivity|].
      destruct (eqc c1 "]"); [reflexivity|].
      apply IH3. simpl in *. lia. }
    reflexivity.
  - intros s acc Hn.
    change (scan_members (S (S n)) s acc) with
      (match s with
       | c :: t =>
           if eqc c dq then
             match scanstring t [] with
             | Some (key, r) =>
                 match skip_ws r with
                 | c1 :: r1 =>
                     if eqc c1 ":" then
                       match scan_once (S n) (skip_ws r1) with
                       | Some (v, r2) =>
                           match skip_ws r2 with
                           | c2 :: r3 =>
                               if eqc c2 "}" then Some (JDict (set key v acc), r3)
                               else if eqc c2 ","
                               then scan_members (S n) (skip_ws r3) (set key v acc)
                               else None
                           | [] => None
                           end
                       | None => None
                       end
                     else None
                 | [] => None
                 end
             | None => None
             end
           else None
       | [] => None
       end).
    cbn [scan_members].
    destruct s as [|c t]; [reflexivity|].
    destruct (eqc c dq); [|reflexivity].
    destruct (scanstring t []) as [[key r0]|] eqn:E; [|reflexivity].
    apply (scanstring_length (length t)) in E; [|lia].
    pose proof (skip_ws_length r0) as W0.
    destruct (skip_ws r0) as [|c1 r1]; [reflexivity|].
    destruct (eqc c1 ":"); [|reflexivity].
    pose proof (skip_ws_length r1) as W1.
    rewrite IH1 by (simpl in *; lia).
    destruct (scan_once n (skip_ws r1)) as [[v0 r2]|] eqn:E2; [|reflexivity].
    apply (proj1 (scan_length n)) in E2.
    pose proof (skip_ws_length r2) as W2.
    destruct (skip_ws r2) as [|c2 r3]; [reflexivity|].
    destruct (eqc c2 "}"); [reflexivity|].
    destruct (eqc c2 ","); [|reflexivity].
    apply IH2. pose proof (skip_ws_length r3). simpl in *. lia.
  - intros s acc Hn.
    change (scan_elements (S (S n)) s acc) with
      (match scan_once (S n) s with
       | Some (v, r) =>
           match skip_ws r with
           | c :: r1 =>
               if eqc c "]" then Some (JList (rev (v :: acc)), r1)
               else if eqc c "," then scan_elements (S n) (skip_ws r1) (v :: acc)
               else None
           | [] => None
           end
       | None => None
       end).
    cbn [scan_elements].
    rewrite IH1 by lia.
    destruct (scan_once n s) as [[v0 r0]|] eqn:E; [|reflexivity].
    apply (proj1 (scan_length n)) in E.
    pose proof (skip_ws_length r0) as W0.
    destruct (skip_ws r0) as [|c r1]; [reflexivity|].
    destruct (eqc c "]"); [reflexivity|].
    destruct (eqc c ","); [|reflexivity].
    apply IH3. pose proof (skip_ws_length r1). simpl in *. lia.
Qed.

Lemma loads_fuel s k :
  scan_once (S (2 * length s) + k) (skip_ws s)
  = scan_once (S (2 * length s)) (skip_ws s).
Proof.
  induction k as [|k IH]; [rewrite Nat.add_0_r; reflexivity|].
  rewrite Nat.add_succ_r, (proj1 (scan_fuel _)); [exact IH|].
  pose proof (skip_ws_length s). lia.
Qed.

(** ** Matches of the building blocks *)

Section Blocks.

Variable f : flags.
Hypothesis case_sensitive : ignorecase f = false.

Lemma pos_eta p : {| before := before p; after := after p |} = p.
Proof. destruct p; reflexivity. Qed.

Lemma atom_Lit c : atom f (Lit c) (eqc c).
Proof.
  intros p g q g'. split.
  - intros H. inversion H; subst. exists a, rest.
    unfold lit_mem in *. rewrite case_sensitive in *. auto.
  - intros [a [rest [E [Pa [Eq Eg]]]]]. subst. constructor; [assumption|].
    unfold lit_mem. rewrite case_sensitive. assumption.
Qed.

Lemma atom_Cls neg items : atom f (Cls neg items) (cls_mem neg items).
Proof.
  intros p g q g'. split.
  - intros H. inversion H; subst. exists a, rest. auto.
  - intros [a [rest [E [Pa [Eq Eg]]]]]. subst. constructor; assumption.
Qed.

Lemma atom_Any : atom f Any (any_mem f).
Proof.
  intros p g q g'. split.
  - intros H. inversion H; subst. exists a, rest. auto.
  - intros [a [rest [E [Pa [Eq Eg]]]]]. subst. constructor; assumption.
Qed.

Lemma Star_atom_inv r P gr p g q g' :
  atom f r P -> Matches f (Star gr r) p g q g' ->
  exists m, after p = m ++ after q /\ forallb P m = true /\ g' = g.
Proof.
  intros At H. remember (Star gr r) as sr eqn:E.
  induction H; try discriminate.
  - exists []. auto.
  - injection E as E1 E2. subst gr0 r0.
    apply At in H. destruct H as [a [rest [Ea [Pa [Eq Eg]]]]]. subst p1 g1.
    destruct (IHMatches2 eq_refl) as [m [Em [Pm Egm]]].
    exists (a :: m). simpl in Em. rewrite Ea, Em. simpl. rewrite Pa, Pm. auto.
Qed.

Lemma Star_atom_intro r P gr m : forall p g rest,
  atom f r P -> forallb P m = true -> after p = m ++ rest ->
  exists q, Matches f (Star gr r) p g q g /\ after q = rest
            /\ before q = rev m ++ before p.
Proof.
  induction m as [|a m IH]; intros p g rest At Pm E.
  - exists p. repeat split; [constructor | assumption].
  - simpl in Pm. apply andb_true_iff in Pm. destruct Pm as [Pa Pm].
    destruct (IH (advance a (m ++ rest) p) g rest At Pm eq_refl)
      as [q [M [Eq Bq]]].
    exists q. split; [|split; [assumption|]].
    + eapply M_StarS; [ | | exact M].
      * apply At. exists a, (m ++ rest). auto.
      * simpl. rewrite E. simpl. lia.
    + rewrite Bq. simpl. rewrite <- app_assoc. reflexivity.
Qed.

Lemma Str_inv s : forall p g q g',
  Matches f (Str s) p g q g' -> after p = s ++ after q /\ g' = g.
Proof.
  induction s as [|c s IH]; intros p g q g' H.
  - inversion H; subst. auto.
  - destruct s as [|c' s'].
    + apply (atom_Lit c) in H. destruct H as [a [rest [E [Pa [Eq Eg]]]]].
      apply eqc_true in Pa. subst. simpl. auto.
    + change (Str (c :: c' :: s')) with (Seq (Lit c) (Str (c' :: s'))) in H.
      inversion H; subst.
      match goal with
      | M1 : Matches f (Lit c) _ _ ?p1 ?g1, M2 : Matches f _ ?p1 ?g1 _ _ |- _ =>
          apply (atom_Lit c) in M1;
          destruct M1 as [a [rest [E [Pa [Eq Eg]]]]];
          apply (IH p1 g1) in M2; destruct M2 as [E2 Eg2]
      end.
      apply eqc_true in Pa. subst. simpl in E2. rewrite E, E2. auto.
Qed.

Lemma Str_intro s : forall p g rest,
  after p = s ++ rest ->
  exists q, Matches f (Str s) p g q g /\ after q = rest
            /\ before q = rev s ++ before p.
Proof.
  induction s as [|c s IH]; intros p g rest E.
  - exists p. repeat split; [constructor | assumption].
  - destruct s as [|c' s'].
    + exists (advance c rest p). repeat split.
      apply (atom_Lit c). exists c, rest. rewrite eqc_refl. auto.
    + destruct (IH (advance c ((c' :: s') ++ rest) p) g rest eq_refl)
        as [q [M [Eq Bq]]].
      exists q. split; [|split; [assumption|]].
      * change (Str (c :: c' :: s')) with (Seq (Lit c) (Str (c' :: s'))).
        eapply M_Seq; [|exact M].
        apply (atom_Lit c). exists c, ((c' :: s') ++ rest).
        rewrite eqc_refl. auto.
      * rewrite Bq. cbn [advance before]. cbn [rev].
        rewrite <- !app_assoc. reflexivity.
Qed.

End Blocks.

Lemma Seq_inv f r1 r2 p g q g' :
  Matches f (Seq r1 r2) p g q g' ->
  exists p1 g1, Matches f r1 p g p1 g1 /\ Matches f r2 p1 g1 q g'.
Proof. intros H. inversion H; subst. eauto. Qed.

Lemma Group_inv f n r p g q g' :
  Matches f (Group n r) p g q g' ->
  exists g1, Matches f r p g q g1 /\ g' = set_group n (captured p q) g1.
Proof. intros H. inversion H; subst. eauto. Qed.

Lemma Alt_inv f r1 r2 p g q g' :
  Matches f (Alt r1 r2) p g q g' ->
  Matches f r1 p g q g' \/ Matches f r2 p g q g'.
Proof. intros H. inversion H; subst; auto. Qed.

Lemma Eps_inv f p g q g' : Matches f Eps p g q g' -> q = p /\ g' = g.
Proof. intros H. inversion H; subst; auto. Qed.

Lemma space_mem a : cls_mem false [ISpace] a = isspace a.
Proof. unfold cls_mem. simpl. rewrite orb_false_r. reflexivity. Qed.

Lemma forallb_eq (P Q : ascii -> bool) m :
  (forall a, P a = Q a) -> forallb P m = forallb Q m.
Proof. intros E. induction m; simpl; [reflexivity | rewrite E, IHm; reflexivity]. Qed.

(** ** The fence patterns *)

Section Fences.

Variable opening : str.

Local Abbreviation pattern :=
  (Cat [Str opening; Star true Space; Group 1 (Star false Any);
        Star true Space; Str fence]).

Lemma DOTALL_sensitive : ignorecase DOTALL = false.
Proof. reflexivity. Qed.

(** A match of a fence pattern is a fenced block, and group 1 is its
    body without the white space next to the fences. *)
Lemma fence_sound p g q g' :
  Matches DOTALL pattern p g q g' ->
  exists ws1 body ws2,
    after p = opening ++ ws1 ++ body ++ ws2 ++ fence ++ after q /\
    all_space ws1 = true /\ all_space ws2 = true /\
    get_group 1 g' = Some body.
Proof.
  cbn [Cat]. intros H.
  apply Seq_inv in H. destruct H as [p1 [g1 [H1 H]]].
  apply Seq_inv in H. destruct H as [p2 [g2 [H2 H]]].
  apply Seq_inv in H. destruct H as [p3 [g3 [H3 H]]].
  apply Seq_inv in H. destruct H as [p4 [g4 [H4 H5]]].
  apply (Str_inv _ DOTALL_sensitive) in H1. destruct H1 as [E1 G1].
  apply (Star_atom_inv _ _ _ _ _ _ _ _ (atom_Cls _ _ _)) in H2.
  destruct H2 as [ws1 [E2 [S2 G2]]].
  apply Group_inv in H3. destruct H3 as [g3' [H3 G3]].
  apply (Star_atom_inv _ _ _ _ _ _ _ _ (atom_Any _)) in H3.
  destruct H3 as [body [E3 [_ G3']]].
  apply (Star_atom_inv _ _ _ _ _ _ _ _ (atom_Cls _ _ _)) in H4.
  destruct H4 as [ws2 [E4 [S4 G4]]].
  apply (Str_inv _ DOTALL_sensitive) in H5. destruct H5 as [E5 G5].
  exists ws1, body, ws2.
  rewrite E1, E2, E3, E4, E5.
  rewrite (forallb_eq _ isspace _ space_mem) in S2.
  rewrite (forallb_eq _ isspace _ space_mem) in S4.
  repeat split; try assumption.
  subst. rewrite (captured_span _ _ _ E3). simpl. reflexivity.
Qed.

Lemma all_any m : forallb (any_mem DOTALL) m = true.
Proof. induction m; simpl; auto. Qed.

(** Wherever an opening fence is followed by a closing fence, the
    pattern matches. *)
Lemma fence_complete p g mid rest :
  after p = opening ++ mid ++ fence ++ rest ->
  exists q g', Matches DOTALL pattern p g q g'.
Proof.
  intros E. cbn [Cat].
  destruct (Str_intro _ DOTALL_sensitive opening p g _ E) as [p1 [M1 [E1 _]]].
  destruct (Star_atom_intro DOTALL (Cls false [ISpace]) _ true [] p1 g _
              (atom_Cls DOTALL false [ISpace]) eq_refl E1) as [p2 [M2 [E2 _]]].
  destruct (Star_atom_intro DOTALL Any _ false mid p2 g _
              (atom_Any DOTALL) (all_any _) E2) as [p3 [M3 [E3 _]]].
  destruct (Star_atom_intro DOTALL (Cls false [ISpace]) _ true [] p3
              (set_group 1 (captured p2 p3) g) _
              (atom_Cls DOTALL false [ISpace]) eq_refl E3) as [p4 [M4 [E4 _]]].
  destruct (Str_intro _ DOTALL_sensitive fence p4
              (set_group 1 (captured p2 p3) g) _ E4) as [q [M5 _]].
  exists q, (set_group 1 (captured p2 p3) g).
  eapply M_Seq; [exact M1|].
  eapply M_Seq; [exact M2|].
  eapply M_Seq; [apply M_Group; exact M3|].
  eapply M_Seq; [exact M4 | exact M5].
Qed.

End Fences.

(** ** The nested-brace pattern *)

Section Braces.

Variable f : flags.
Hypothesis case_sensitive : ignorecase f = false.

Lemma eqc_sym a b : eqc a b = eqc b a.
Proof.
  destruct (eqc a b) eqn:E.
  - apply eqc_true in E. subst. symmetry. apply eqc_refl.
  - destruct (eqc b a) eqn:E'; [|reflexivity].
    apply eqc_true in E'. subst. rewrite eqc_refl in E. discriminate.
Qed.

Lemma no_brace_mem a :
  cls_mem true [IChr "{"%char; IChr "}"%char] a = negb (is_brace a).
Proof.
  unfold cls_mem, is_brace. simpl. rewrite orb_false_r.
  rewrite (eqc_sym a "{"), (eqc_sym a "}"). reflexivity.
Qed.

Lemma no_brace_run m :
  forallb (cls_mem true [IChr "{"%char; IChr "}"%char]) m = brace_free m.
Proof. apply forallb_eq. apply no_brace_mem. Qed.

Local Abbreviation inner_re :=
  (Cat [Lit "{"; Star true no_brace; Lit "}"; Star true no_brace]).

Lemma Lit_inv c p g q g' :
  Matches f (Lit c) p g q g' -> after p = c :: after q /\ g' = g.
Proof.
  intros H. apply (atom_Lit _ case_sensitive) in H.
  destruct H as [a [rest [E [Pa [Eq Eg]]]]]. apply eqc_true in Pa. subst.
  auto.
Qed.

Lemma Lit_intro c p g rest :
  after p = c :: rest ->
  exists q, Matches f (Lit c) p g q g /\ after q = rest.
Proof.
  intros E. exists (advance c rest p). split; [|reflexivity].
  apply (atom_Lit _ case_sensitive). exists c, rest. rewrite eqc_refl. auto.
Qed.

Lemma run_inv gr p g q g' :
  Matches f (Star gr no_brace) p g q g' ->
  exists t, after p = t ++ after q /\ brace_free t = true /\ g' = g.
Proof.
  intros H. apply (Star_atom_inv _ _ _ _ _ _ _ _ (atom_Cls _ _ _)) in H.
  destruct H as [t [E [S G]]]. rewrite no_brace_run in S. eauto.
Qed.

Lemma run_intro gr t p g rest :
  brace_free t = true -> after p = t ++ rest ->
  exists q, Matches f (Star gr no_brace) p g q g /\ after q = rest.
Proof.
  intros S E. rewrite <- no_brace_run in S.
  destruct (Star_atom_intro f no_brace _ gr t p g rest
              (atom_Cls f true [IChr "{"%char; IChr "}"%char]) S E)
    as [q [M [Eq _]]].
  eauto.
Qed.

Lemma inner_inv p g q g' :
  Matches f inner_re p g q g' ->
  exists t u, after p = inner_block (t, u) ++ after q /\
              brace_free t = true /\ brace_free u = true /\ g' = g.
Proof.
  cbn [Cat]. intros H.
  apply Seq_inv in H. destruct H as [p1 [g1 [H1 H]]].
  apply Seq_inv in H. destruct H as [p2 [g2 [H2 H]]].
  apply Seq_inv in H. destruct H as [p3 [g3 [H3 H4]]].
  apply Lit_inv in H1. destruct H1 as [E1 G1].
  apply run_inv in H2. destruct H2 as [t [E2 [S2 G2]]].
  apply Lit_inv in H3. destruct H3 as [E3 G3].
  apply run_inv in H4. destruct H4 as [u [E4 [S4 G4]]].
  exists t, u. unfold inner_block. simpl.
  rewrite E1, E2, E3, E4, <- !app_assoc. simpl. subst. auto.
Qed.

Lemma inner_intro t u p g rest :
  brace_free t = true -> brace_free u = true ->
  after p = inner_block (t, u) ++ rest ->
  exists q, Matches f inner_re p g q g /\ after q = rest.
Proof.
  unfold inner_block. simpl. rewrite <- !app_assoc. simpl.
  intros St Su E.
  destruct (Lit_intro _ p g _ E) as [p1 [M1 E1]].
  destruct (run_intro true t p1 g _ St E1) as [p2 [M2 E2]].
  destruct (Lit_intro _ p2 g _ E2) as [p3 [M3 E3]].
  destruct (run_intro true u p3 g _ Su E3) as [q [M4 E4]].
  exists q. split; [|assumption].
  cbn [Cat].
  eapply M_Seq; [exact M1|].
  eapply M_Seq; [exact M2|].
  eapply M_Seq; [exact M3 | exact M4].
Qed.

Lemma inners_inv gr p g q g' :
  Matches f (Star gr inner_re) p g q g' ->
  exists inner, after p = flat_map inner_block inner ++ after q /\
                Forall brace_free_pair inner /\ g' = g.
Proof.
  intros H. remember (Star gr inner_re) as sr eqn:E.
  induction H; try discriminate.
  - exists []. auto.
  - injection E as E1 E2. subst gr0 r.
    apply inner_inv in H. destruct H as [t [u [Ea [St [Su Eg]]]]]. subst g1.
    destruct (IHMatches2 eq_refl) as [inner [Em [Fm Egm]]].
    exists ((t, u) :: inner). cbn [flat_map].
    rewrite Ea, Em, <- app_assoc. repeat split; auto.
    constructor; [split; assumption | assumption].
Qed.

Lemma inners_intro gr inner : forall p g rest,
  Forall brace_free_pair inner ->
  after p = flat_map inner_block inner ++ rest ->
  exists q, Matches f (Star gr inner_re) p g q g /\ after q = rest.
Proof.
  induction inner as [|[t u] inner IH]; intros p g rest F E.
  - exists p. split; [constructor | assumption].
  - inversion F as [|x l [St Su] F']; subst. simpl in St, Su.
    cbn [flat_map] in E. rewrite <- app_assoc in E.
    destruct (inner_intro t u p g _ St Su E) as [p1 [M1 E1]].
    destruct (IH p1 g rest F' E1) as [q [M2 E2]].
    exists q. split; [|assumption].
    eapply M_StarS; [exact M1 | | exact M2].
    rewrite E, E1. unfold inner_block. simpl. rewrite !length_app. simpl. lia.
Qed.

(** A match of the nested-brace pattern is a balanced-looking
    brace-delimited text, and every such text is matched. *)
Lemma brace_sound p g q g' :
  Matches f re_brace p g q g' ->
  exists cand, brace_block cand /\ after p = cand ++ after q.
Proof.
  unfold re_brace. cbn [Cat]. intros H.
  apply Seq_inv in H. destruct H as [p1 [g1 [H1 H]]].
  apply Seq_inv in H. destruct H as [p2 [g2 [H2 H]]].
  apply Seq_inv in H. destruct H as [p3 [g3 [H3 H4]]].
  apply Lit_inv in H1. destruct H1 as [E1 G1].
  apply run_inv in H2. destruct H2 as [t0 [E2 [S2 G2]]].
  apply inners_inv in H3. destruct H3 as [inner [E3 [F3 G3]]].
  apply Lit_inv in H4. destruct H4 as [E4 G4].
  exists (L "{" ++ t0 ++ flat_map inner_block inner ++ L "}"). split.
  - exists t0, inner. auto.
  - rewrite E1, E2, E3, E4. simpl. rewrite <- !app_assoc. reflexivity.
Qed.

Lemma brace_complete cand p g rest :
  brace_block cand -> after p = cand ++ rest ->
  exists q g', Matches f re_brace p g q g'.
Proof.
  intros [t0 [inner [Ec [S0 F]]]] E. subst cand.
  simpl in E. rewrite <- !app_assoc in E. simpl in E.
  destruct (Lit_intro _ p g _ E) as [p1 [M1 E1]].
  destruct (run_intro true t0 p1 g _ S0 E1) as [p2 [M2 E2]].
  destruct (inners_intro true inner p2 g _ F E2) as [p3 [M3 E3]].
  destruct (Lit_intro _ p3 g _ E3) as [q [M4 E4]].
  exists q, g. unfold re_brace. cbn [Cat].
  eapply M_Seq; [exact M1|].
  eapply M_Seq; [exact M2|].
  eapply M_Seq; [exact M3 | exact M4].
Qed.

End Braces.

(** ** The PDF-URL pattern *)

Lemma no_flags_sensitive : ignorecase no_flags = false.
Proof. reflexivity. Qed.

Lemma url_char_mem a :
  cls_mem true
    [ISpace; IChr "<"; IChr ">"; IChr dq; IChr "{"; IChr "}"; IChr "|";
     IChr bslash; IChr "^"; IChr "`"; IChr "["; IChr "]"]%char a = url_ok a.
Proof.
  unfold cls_mem, url_ok. cbn [existsb item_mem xorb].
  rewrite !(eqc_sym a). destruct (isspace a); reflexivity.
Qed.

(** A match of the pattern of line 519 is a direct link to a PDF
    file. *)
Lemma pdf_url_sound p g q g' :
  Matches no_flags re_pdf_url p g q g' ->
  exists u, direct_pdf_url u /\ after p = u ++ after q.
Proof.
  unfold re_pdf_url, http_prefix, Plus, Opt. cbn [app Cat]. intros H.
  apply Seq_inv in H. destruct H as [p1 [g1 [H1 H]]].
  apply Seq_inv in H. destruct H as [p2 [g2 [H2 H]]].
  apply Seq_inv in H. destruct H as [p3 [g3 [H3 H]]].
  apply Seq_inv in H. destruct H as [p4 [g4 [H4 H5]]].
  apply Seq_inv in H4. destruct H4 as [p5 [g5 [H4 H6]]].
  apply (Str_inv _ no_flags_sensitive) in H1. destruct H1 as [E1 _].
  apply (Str_inv _ no_flags_sensitive) in H3. destruct H3 as [E3 _].
  apply (Str_inv _ no_flags_sensitive) in H5. destruct H5 as [E5 _].
  apply (atom_Cls no_flags) in H4.
  destruct H4 as [a [rest [E4 [Pa [Eq _]]]]]. subst p5.
  apply (Star_atom_inv _ _ _ _ _ _ _ _ (atom_Cls no_flags _ _)) in H6.
  destruct H6 as [m [E6 [Pm _]]]. simpl in E6.
  rewrite url_char_mem in Pa.
  rewrite (forallb_eq _ url_ok _ url_char_mem) in Pm.
  assert (S : exists s, after p1 = s ++ after p2 /\ (s = [] \/ s = L "s")).
  { apply Alt_inv in H2. destruct H2 as [H2 | H2].
    - apply (Lit_inv _ no_flags_sensitive) in H2. destruct H2 as [E2 _].
      exists (L "s"). auto.
    - apply Eps_inv in H2. destruct H2 as [E2 _]. subst. exists []. auto. }
  destruct S as [s [E2 Hs]].
  exists (L "http" ++ s ++ L "://" ++ (a :: m) ++ L ".pdf"). split.
  - exists s, (a :: m). repeat split; auto; [discriminate|].
    simpl. rewrite Pa, Pm. reflexivity.
  - rewrite E1, E2, E3, E4, E6, E5.
    destruct Hs; subst s; simpl; rewrite <- ?app_assoc; reflexivity.
Qed.

(** The first element of [re.findall] is the text [re.search] finds. *)
Lemma findall_head f r s u rest :
  findall f r s = u :: rest ->
  exists m, search f r s = Some m /\ group0 m = u.
Proof.
  unfold findall, finditer, search. cbn [scan start_of before after].
  destruct (search_from f r [] s) as [m|] eqn:E; [|discriminate].
  intros H. exists m. split; [reflexivity|].
  destruct (length (after (m_end m)) <? length (after (m_start m)));
    [|destruct (after (m_end m))]; simpl in H; inversion H; reflexivity.
Qed.

Lemma direct_pdf_url_shape u :
  direct_pdf_url u ->
  (startswith (L "http://") u = true \/ startswith (L "https://") u = true)
  /\ endswith (L ".pdf") u = true.
Proof.
  intros [s [body [E [[Hs | Hs] _]]]]; subst; split.
  - left. reflexivity.
  - apply endswith_app. exists (L "http" ++ [] ++ L "://" ++ body).
    rewrite <- !app_assoc. reflexivity.
  - right. reflexivity.
  - apply endswith_app. exists (L "http" ++ L "s" ++ L "://" ++ body).
    rewrite <- !app_assoc. reflexivity.
Qed.

(** Lines 512-523: what is picked out of the answer is a direct PDF link
    that occurs in it. *)
Lemma pick_pdf_url_sound text url :
  pick_pdf_url (JStr text) = Ok (Some url) ->
  direct_pdf_url url /\ occurs url (strip text).
Proof.
  unfold pick_pdf_url. intros H.
  destruct (_ && _) in H; [|discriminate].
  destruct (contains (L "http") (strip text)); [|discriminate].
  destruct (findall no_flags re_pdf_url (strip text)) as [|u rest] eqn:F;
    [discriminate|].
  inversion H; subst u. clear H.
  apply findall_head in F. destruct F as [m [Sm G0]].
  pose proof (search_group0 _ _ _ _ Sm) as [pre [E1 [E2 E3]]].
  apply search_sound in Sm. destruct Sm as [pre' [_ [_ [M _]]]].
  apply pdf_url_sound in M. destruct M as [u [D Eu]].
  rewrite E2 in Eu. apply app_inv_tail in Eu. rewrite G0 in Eu. subst u.
  split; [assumption|].
  exists (length pre), pre, (after (m_end m)). rewrite <- G0. auto.
Qed.

(** ** The response normaliser *)

Lemma fence_search_some opening content m :
  guarded_search opening (Cat [Str opening; Star true Space; Group 1 (Star false Any);
                       Star true Space; Str fence]) content = Some m ->
  exists body, fenced_block opening body content
               /\ group_strip 1 m = Ok (strip body).
Proof.
  unfold guarded_search. destruct (contains opening content); [|discriminate].
  intros H. apply search_sound in H. destruct H as [pre [E [_ [M _]]]].
  apply fence_sound in M. destruct M as [ws1 [body [ws2 [Ea [S1 [S2 G]]]]]].
  exists (ws1 ++ body ++ ws2). split.
  - exists pre, (after (m_end m)). rewrite E, Ea, <- !app_assoc. reflexivity.
  - unfold group_strip, group. rewrite G, strip_spaces; auto.
Qed.

Lemma fence_search_none opening content :
  guarded_search opening (Cat [Str opening; Star true Space; Group 1 (Star false Any);
                       Star true Space; Str fence]) content = None ->
  forall body, ~ fenced_block opening body content.
Proof.
  unfold guarded_search. intros H body [pre [post E]].
  destruct (contains opening content) eqn:C.
  - destruct (fence_complete opening
                {| before := rev pre; after := opening ++ body ++ fence ++ post |}
                [] body post eq_refl) as [q [g' M]].
    exact (search_none _ _ _ H pre _ q g' E M).
  - assert (X : contains opening content = true).
    { apply contains_occurs. exists pre, (body ++ fence ++ post). exact E. }
    congruence.
Qed.

Lemma brace_block_strip cand : brace_block cand -> strip cand = cand.
Proof.
  intros [t0 [inner [E _]]]. subst cand.
  change (L "{" ++ t0 ++ flat_map inner_block inner ++ L "}")
    with ("{"%char :: (t0 ++ flat_map inner_block inner ++ ["}"%char])).
  rewrite app_assoc. apply strip_id; reflexivity.
Qed.

Lemma brace_search_some content m :
  search DOTALL re_brace content = Some m ->
  first_brace_block (group0 m) content.
Proof.
  intros H. pose proof (search_group0 _ _ _ _ H) as [pre0 [E0 [Ea Eb]]].
  apply search_sound in H. destruct H as [pre [E [B [M N]]]].
  assert (pre0 = pre).
  { rewrite Eb in B. apply (f_equal (@rev ascii)) in B.
    rewrite !rev_involutive in B. exact B. }
  subst pre0.
  pose proof (brace_sound _ DOTALL_sensitive _ _ _ _ M) as [cand [Bc Ec]].
  assert (group0 m = cand).
  { rewrite Ea in Ec. apply app_inv_tail in Ec. exact Ec. }
  split; [congruence|].
  exists (length pre). split.
  - exists pre, (after (m_end m)). auto.
  - intros n' cand' Bc' [pre' [post' [E' Ln]]].
    destruct (Nat.le_gt_cases (length pre) n') as [Le | Gt]; [exact Le|].
    exfalso.
    destruct (brace_complete _ DOTALL_sensitive cand'
                {| before := rev pre'; after := cand' ++ post' |} [] post'
                Bc' eq_refl) as [q [g' M']].
    apply (N pre' (cand' ++ post') q g' E'); [lia | exact M'].
Qed.

Lemma brace_search_none content :
  search DOTALL re_brace content = None ->
  forall cand, brace_block cand -> ~ occurs cand content.
Proof.
  intros H cand Bc [n [pre [post [E _]]]].
  destruct (brace_complete _ DOTALL_sensitive cand
              {| before := rev pre; after := cand ++ post |} [] post
              Bc eq_refl) as [q [g' M]].
  exact (search_none _ _ _ H pre _ q g' E M).
Qed.

(** C6.  [_clean_response_content] returns a string for every input, and
    the string follows the priority order: the stripped body of a
    fenced block opened by the json fence when the text has one;
    otherwise the stripped body of a fenced block when the text has one;
    otherwise the first balanced-looking brace-delimited text; otherwise
    the whole text, stripped. *)
Theorem clean_response_content_priority (content : str) :
  exists out,
    _clean_response_content content = Ok out /\
    ((exists body, fenced_block fence_json body content /\ out = strip body)
     \/ ((forall body, ~ fenced_block fence_json body content) /\
         exists body, fenced_block fence body content /\ out = strip body)
     \/ ((forall body, ~ fenced_block fence body content) /\
         first_brace_block out content)
     \/ ((forall body, ~ fenced_block fence body content) /\
         (forall cand, brace_block cand -> ~ occurs cand content) /\
         out = strip content)).
Proof.
  unfold _clean_response_content.
  destruct (guarded_search fence_json re_fence_json content) as [m|] eqn:F1.
  { apply fence_search_some in F1. destruct F1 as [body [Fb G]].
    exists (strip body). split; [exact G|]. left. eauto. }
  pose proof (fence_search_none _ _ F1) as N1.
  destruct (guarded_search fence re_fence_any content) as [m|] eqn:F2.
  { apply fence_search_some in F2. destruct F2 as [body [Fb G]].
    exists (strip body). split; [exact G|]. right; left. eauto. }
  pose proof (fence_search_none _ _ F2) as N2.
  destruct (search DOTALL re_brace content) as [m|] eqn:F3.
  { apply brace_search_some in F3.
    exists (group0 m). split.
    - rewrite (brace_block_strip _ (proj1 F3)). reflexivity.
    - right; right; left. auto. }
  exists (strip content). split; [reflexivity|].
  right; right; right. split; [exact N2|]. split; [|reflexivity].
  apply brace_search_none. exact F3.
Qed.

(** ** Unwrapping a JSON text *)








Lemma brace_block_object J : brace_block J -> object_text J.
Proof.
  intros [t0 [inner [E _]]]. exists (t0 ++ flat_map inner_block inner).
  rewrite E, <- app_assoc. reflexivity.
Qed.















(** ** The date validation *)

Lemma get_set k k' x d :
  get k (set k' x d) = if eqs k k' then x else get k d.
Proof.
  induction d as [|[k0 v0] d IH]; simpl.
  - reflexivity.
  - destruct (eqs k' k0) eqn:E1; simpl.
    + apply eqs_true in E1. subst k0.
      destruct (eqs k k'); reflexivity.
    + destruct (eqs k k0) eqn:E2.
      * apply eqs_true in E2. subst k0.
        destruct (eqs k k') eqn:E3; [|reflexivity].
        apply eqs_true in E3. subst k'. rewrite eqs_refl in E1. discriminate.
      * exact IH.
Qed.

Lemma get_set_other k k' x d : k <> k' -> get k (set k' x d) = get k d.
Proof. intros N. rewrite get_set. apply eqs_false in N. rewrite N. reflexivity. Qed.

(** A date that parses is a non-empty string. *)
Lemma parsed_date_truthy v d :
  first_format v date_formats = Ok (Some d) -> truthy v = true.
Proof.
  destruct v as [| | | |s| |];
    try (intros H; cbv [first_format date_formats obj_strptime is_ValueError]
           in H; discriminate).
  destruct s as [|c s]; [intros H; vm_compute in H; discriminate|].
  reflexivity.
Qed.

(** Lines 412-440 when the date of the verdict parses and the baseline
    is a date. *)
Lemma validate_date_parsed parsed B d b :
  truthy (get (L "has_update") parsed) = true ->
  first_format (get (L "latest_update_date") parsed) date_formats
    = Ok (Some d) ->
  strptime B (L "%Y-%m-%d") = Some b ->
  validate_date parsed B =
  Ok (if le d b && negb (truthy (get (L "document_url") parsed))
      then set (L "has_update") (JBool false) parsed else parsed).
Proof.
  intros Hu Hd Hb. unfold validate_date.
  rewrite Hu, (parsed_date_truthy _ _ Hd), Hd. cbn [andb bind]. rewrite Hb.
  destruct (le d b && negb (truthy (get (L "document_url") parsed)));
    reflexivity.
Qed.

(** Lines 412-440 when no format parses the date of the verdict: the
    inner handler swallows every [ValueError], so nothing is changed. *)
Lemma validate_date_unparsed parsed B :
  first_format (get (L "latest_update_date") parsed) date_formats = Ok None ->
  validate_date parsed B = Ok parsed.
Proof.
  intros Hd. unfold validate_date. rewrite Hd. cbn [bind].
  destruct (_ && _); reflexivity.
Qed.

(** Lines 143-452: with a key, and a raw response that is a string,
    [query_perplexity_api] returns what [interpret] makes of the
    response. *)
Lemma query_interprets w fn B key st content :
  key <> [] -> answers w fn B st content ->
  query_perplexity_api w fn B key st =
  ({| tick := S (tick st); files := files st |}, interpret content B).
Proof.
  intros Hk [reply [Hp Hm]]. unfold query_perplexity_api.
  apply eqs_false in Hk. rewrite Hk.
  unfold bindM, external, lift. rewrite Hp, Hm. reflexivity.
Qed.

Lemma check_document_url_returns v0 v :
  check_document_url v0 = Ok v -> v = v0.
Proof.
  unfold check_document_url.
  destruct (truthy (get (L "document_url") v0)); [|congruence].
  destruct (obj_lower _); simpl; congruence.
Qed.

(** C10.  The date validation never upgrades [has_update]: a verdict
    whose [has_update] is false or absent passes through lines 409-440
    unchanged, whatever its date and its document URL, so a verdict
    that [query_perplexity_api] returns is that verdict, with
    [has_update] still false or absent. *)
Theorem date_validation_never_upgrades (w : world) (fn B key : str)
    (st : state) (content : str) (v0 : dict) :
  key <> [] -> answers w fn B st content ->
  verdict content B = Ok v0 ->
  truthy (get (L "has_update") v0) = false ->
  validate_date v0 B = Ok v0 /\
  query_perplexity_api w fn B key st =
    ({| tick := S (tick st); files := files st |}, check_document_url v0) /\
  forall st' v, query_perplexity_api w fn B key st = (st', Ok v) ->
                v = v0 /\ truthy (get (L "has_update") v) = false.
Proof.
  intros Hk Ha Hv Hu.
  assert (V : validate_date v0 B = Ok v0).
  { unfold validate_date. rewrite Hu. reflexivity. }
  assert (I : interpret content B = check_document_url v0).
  { unfold interpret. rewrite Hv. cbn [bind]. rewrite V. reflexivity. }
  rewrite (query_interprets w fn B key st content Hk Ha), I.
  split; [exact V|]. split; [reflexivity|].
  intros st' v E. injection E as _ E.
  apply check_document_url_returns in E. subst v. auto.
Qed.

(** C1, as amended.  For every raw response and baseline date: when the
    extracted verdict claims an update and its date parses in an
    accepted format, [query_perplexity_api] returns (unless the final
    check of [document_url] raises) a verdict whose [has_update] is true
    exactly when the date lies strictly after the baseline or a document
    URL is present; the other fields are returned as extracted. *)
Theorem has_update_after_validation (w : world) (fn B key : str)
    (st : state) (content : str) (v0 : dict) (d b : date) :
  key <> [] -> answers w fn B st content ->
  verdict content B = Ok v0 ->
  truthy (get (L "has_update") v0) = true ->
  first_format (get (L "latest_update_date") v0) date_formats = Ok (Some d) ->
  strptime B (L "%Y-%m-%d") = Some b ->
  exists v,
    validate_date v0 B = Ok v /\
    query_perplexity_api w fn B key st =
      ({| tick := S (tick st); files := files st |}, check_document_url v) /\
    (truthy (get (L "has_update") v) = true <->
     gt d b = true \/ truthy (get (L "document_url") v0) = true) /\
    (forall k, k <> L "has_update" -> get k v = get k v0).
Proof.
  intros Hk Ha Hv Hu Hd Hb.
  pose proof (validate_date_parsed v0 B d b Hu Hd Hb) as V.
  eexists. split; [exact V|]. split.
  - rewrite (query_interprets w fn B key st content Hk Ha).
    unfold interpret. rewrite Hv. cbn [bind]. rewrite V. reflexivity.
  - unfold gt.
    destruct (le d b); destruct (truthy (get (L "document_url") v0));
      cbn [andb negb]; split;
      try (rewrite get_set; cbn); try rewrite Hu;
      try (intros; apply get_set_other; assumption);
      try (intros; reflexivity); intuition congruence.
Qed.


(** ** Files *)

Lemma upd_same path v fs : upd path v fs path = v.
Proof. unfold upd. rewrite eqs_refl. reflexivity. Qed.

Lemma upd_other path v fs q : q <> path -> upd path v fs q = fs q.
Proof. intros N. unfold upd. apply eqs_false in N. rewrite N. reflexivity. Qed.

Lemma path_join_suffix a b : exists t, path_join a b = t ++ b.
Proof.
  unfold path_join. destruct (startswith (L "/") b).
  - exists []. reflexivity.
  - destruct (eqs a [] || endswith (L "/") a).
    + exists a. reflexivity.
    + exists (a ++ L "/"). rewrite <- app_assoc. reflexivity.
Qed.

(** The temporary name and the permanent name differ. *)
Lemma pdf_not_temp fn d ts : pdf_path fn d ts <> temp_path fn d ts.
Proof.
  unfold pdf_path, temp_path, pdf_name.
  destruct (path_join_suffix d (safe_name fn ++ L "_" ++ ts ++ L ".pdf"))
    as [t1 E1].
  destruct (path_join_suffix d (safe_name fn ++ L "_" ++ ts ++ L ".tmp"))
    as [t2 E2].
  rewrite E1, E2. intros E. apply (f_equal (@rev ascii)) in E.
  rewrite !rev_app_distr in E. simpl in E.
  rewrite <- !app_assoc in E. simpl in E. discriminate.
Qed.

(** ** The acquisition engine *)

(** Lines 739-777: the upload never fails the download. *)
Lemma upload_outcome w filepath filename st :
  filepath <> [] ->
  exists v,
    upload w filepath filename st
      = ({| tick := S (tick st); files := files st |}, Ok v) /\
    truthy v = true /\
    (v = JStr filepath \/
     exists d, v = JDict d /\ get (L "local_path") d = JStr filepath).
Proof.
  intros Ne.
  assert (T : truthy (JStr filepath) = true).
  { destruct filepath; [congruence | reflexivity]. }
  unfold upload, try_catch, bindM, external, lift, ret.
  destruct (s3_upload w (tick st) filepath filename) as [r|e];
    [|eexists; split; [reflexivity | auto]].
  destruct (obj_get (L "success") r) as [s|e];
    [|eexists; split; [reflexivity | auto]].
  destruct (truthy s); [|eexists; split; [reflexivity | auto]].
  destruct (subscript (L "file_info") r) as [fi|e];
    [|eexists; split; [reflexivity | auto]].
  destruct (subscript (L "url") fi) as [u|e];
    [|eexists; split; [reflexivity | auto]].
  destruct fi; try solve [eexists; split; [reflexivity | auto]].
  eexists; split; [reflexivity|]. split; [reflexivity|].
  right. eexists; split; reflexivity.
Qed.

Lemma pdf_path_nonempty fn d ts : pdf_path fn d ts <> [].
Proof.
  unfold pdf_path, pdf_name.
  destruct (path_join_suffix d (safe_name fn ++ L "_" ++ ts ++ L ".pdf"))
    as [t E].
  rewrite E. intros C. apply (f_equal (@length ascii)) in C.
  rewrite !length_app in C. simpl in C. lia.
Qed.

Lemma pdf_path_is_pdf fn d ts : is_pdf_name (pdf_path fn d ts) = true.
Proof.
  unfold is_pdf_name, pdf_path, pdf_name, lower.
  destruct (path_join_suffix d (safe_name fn ++ L "_" ++ ts ++ L ".pdf"))
    as [t E].
  rewrite E. apply endswith_app.
  exists (map lower_char (t ++ safe_name fn ++ L "_" ++ ts)).
  repeat rewrite map_app. repeat rewrite <- app_assoc. reflexivity.
Qed.

Section Store.

Variable w : world.
Variables fn d : str.
Variable response : reply.
Variable st : state.
Variable n : Z.

Hypothesis length_read : content_length response = Ok n.
Hypothesis stream_complete : stream_breaks response = false.

Local Abbreviation data := (written (chunks response)).
Local Abbreviation temp := (temp_path fn d (now w (tick st))).
Local Abbreviation pdf := (pdf_path fn d (now w (tick st))).


(** Lines 731-734: a PDF within the ceiling is renamed, then uploaded. *)
Lemma store_accepts :
  eqs (bread 4 data) pdf_magic = true -> too_large (blen data) = false ->
  store w fn d (Some response) st =
  upload w pdf (pdf_name fn (now w (tick st)))
    {| tick := tick st;
       files := upd pdf (Some data)
                  (upd temp None (upd temp (Some data) (files st))) |}.
Proof.
  intros Em Hs.
  unfold store, reject_unless_pdf.
  unfold bindM, lift, write_file, try_catch, read_prefix, remove, rename,
    ret, raiseM.
  rewrite length_read, stream_complete. cbn [tick files].
  rewrite !upd_same. rewrite Em. cbn [negb].
  rewrite Hs. cbn [tick files]. rewrite upd_same.
  destruct (upload w pdf _ _) as [st' [v|e]]; reflexivity.
Qed.

End Store.

Lemma truthy_JStr s : s <> [] -> truthy (JStr s) = true.
Proof. destruct s; [congruence | reflexivity]. Qed.

Section Download.

Variable w : world.
Variables fn url dir : str.
Variable key : option str.
Variable sim : bool.
Variables d u : str.
Variables st st1 st2 : state.
Variable response : reply.
Variable n : Z.

Hypothesis url_given : url <> [].
Hypothesis dir_ready : target_dir w dir sim = Ok d.
Hypothesis url_chosen : choose_url w fn url key st = (st1, Ok (Some u)).
Hypothesis fetched :
  retry_loop w max_retries fn url key 0 u st1 = (st2, Ok (Some response)).
Hypothesis length_read : content_length response = Ok n.
Hypothesis stream_complete : stream_breaks response = false.

Local Abbreviation data := (written (chunks response)).
Local Abbreviation temp := (temp_path fn d (now w (tick st2))).
Local Abbreviation pdf := (pdf_path fn d (now w (tick st2))).

(** Lines 540-804 once the response is there: what [store] returns, with
    every exception turned into [None]. *)
Lemma download_after_fetch :
  download_document w fn (JStr url) dir key sim st =
  match store w fn d (Some response) st2 with
  | (st3, Ok v) => (st3, Ok v)
  | (st3, Raise _) => (st3, Ok JNull)
  end.
Proof.
  unfold download_document. rewrite (truthy_JStr _ url_given). cbn [negb].
  unfold bindM at 1. unfold lift at 1. rewrite dir_ready.
  unfold try_catch, bindM. rewrite url_chosen, fetched.
  destruct (store w fn d (Some response) st2) as [st3 [v|e]]; reflexivity.
Qed.


Lemma download_accepted :
  eqs (bread 4 data) pdf_magic = true -> too_large (blen data) = false ->
  exists v,
    download_document w fn (JStr url) dir key sim st =
    ({| tick := S (tick st2);
        files := upd pdf (Some data)
                   (upd temp None (upd temp (Some data) (files st2))) |},
     Ok v) /\
    truthy v = true /\
    (v = JStr pdf \/ exists dd, v = JDict dd /\ get (L "local_path") dd = JStr pdf).
Proof.
  intros Em Hs. rewrite download_after_fetch.
  rewrite (store_accepts w fn d response st2 n length_read stream_complete
             Em Hs).
  destruct (upload_outcome w pdf (pdf_name fn (now w (tick st2)))
              {| tick := tick st2;
                 files := upd pdf (Some data)
                            (upd temp None (upd temp (Some data) (files st2))) |}
              (pdf_path_nonempty _ _ _)) as [v [E [T V]]].
  exists v. rewrite E. auto.
Qed.

End Download.


(** ** The orchestrator *)

(** Lines 845-905 never raise: the handler of line 901 catches
    everything. *)
Lemma acquire_total w fn B key info dir fid pa sim st :
  exists st' dp di pr,
    acquire w fn B key info dir fid pa sim st = (st', Ok (dp, di, pr)).
Proof.
  unfold acquire.
  destruct (truthy (get (L "has_update") info)
            && truthy (get (L "document_url") info)).
  - unfold try_catch.
    match goal with
    | |- context [let (st', r) := ?c st in _] => destruct (c st) as [st' [[[dp di] pr]|e]]
    end.
    + exists st', dp, di, pr. reflexivity.
    + exists st', JNull, JNull, JNull. reflexivity.
  - exists st, JNull, JNull, JNull. reflexivity.
Qed.

Lemma run_unfold w fn B key dir fid pa sim st0 :
  run_framework_update_check w fn B key dir fid pa sim st0 =
  match query_perplexity_api w fn B key st0 with
  | (st1, Ok info) =>
      match acquire w fn B key info dir fid pa sim st1 with
      | (st2, Ok (dp, di, pr)) => (st2, Ok (assemble info dp di pr))
      | (st2, Raise e) => (st2, Raise e)
      end
  | (st1, Raise e) => (st1, Raise e)
  end.
Proof.
  unfold run_framework_update_check, bindM, ret.
  destruct (query_perplexity_api w fn B key st0) as [st1 [info|e]];
    [|reflexivity].
  destruct (acquire w fn B key info dir fid pa sim st1)
    as [st2 [[[dp di] pr]|e]]; reflexivity.
Qed.

(** C8, as amended.  Once [query_perplexity_api] has returned a
    verdict, [run_framework_update_check] returns a result record,
    whatever happens while the document is resolved, downloaded,
    validated, uploaded or processed, and even when the download
    directory cannot be created; an exception raised by
    [query_perplexity_api] itself propagates. *)
Theorem run_raises_only_from_query (w : world) (fn B key : str)
    (dir : option str) (fid : option Z) (pa sim : bool) (st0 : state) :
  match query_perplexity_api w fn B key st0 with
  | (st1, Ok info) =>
      exists st2 dp di pr,
        run_framework_update_check w fn B key dir fid pa sim st0
        = (st2, Ok (assemble info dp di pr))
  | (st1, Raise e) =>
      run_framework_update_check w fn B key dir fid pa sim st0
      = (st1, Raise e)
  end.
Proof.
  rewrite run_unfold.
  destruct (query_perplexity_api w fn B key st0) as [st1 [info|e]];
    [|reflexivity].
  destruct (acquire_total w fn B key info dir fid pa sim st1)
    as [st2 [dp [di [pr E]]]].
  rewrite E. exists st2, dp, di, pr. reflexivity.
Qed.



(** ** The URL resolver *)

(** C9, as amended.  [find_actual_pdf_url] never raises.  A URL it
    returns is a direct PDF link (scheme, URL characters, extension
    [.pdf]) that occurs in the answer of the second query, which need
    not consist of that URL alone; on the sentinel [NOT_FOUND], and on
    every answer without such a link, it returns [None]. *)
Theorem find_actual_pdf_url_extracts (w : world) (page_url fn key : str)
    (st : state) :
  exists r,
    find_actual_pdf_url w page_url fn key st
      = ({| tick := S (tick st); files := files st |}, Ok r) /\
    match r with
    | Some url =>
        exists reply text,
          post w (tick st) (PdfQuery page_url fn) = Ok reply /\
          message_content reply = Ok (JStr text) /\
          direct_pdf_url url /\ occurs url (strip text)
    | None => True
    end /\
    (forall reply text,
       post w (tick st) (PdfQuery page_url fn) = Ok reply ->
       message_content reply = Ok (JStr text) ->
       strip text = L "NOT_FOUND" -> r = None).
Proof.
  unfold find_actual_pdf_url, try_catch, bindM, external, lift, ret.
  destruct (post w (tick st) (PdfQuery page_url fn)) as [reply|e] eqn:P.
  2: { exists None. repeat split; auto. }
  destruct (message_content reply) as [c|e] eqn:Mc.
  2: { exists None. repeat split; auto. }
  destruct (pick_pdf_url c) as [[url|]|e] eqn:Pk.
  - exists (Some url). split; [reflexivity|]. split.
    + destruct c; try discriminate.
      apply pick_pdf_url_sound in Pk. destruct Pk as [D O].
      exists reply, s. auto.
    + intros reply' text E1 E2 E3. inversion E1; subst reply'.
      rewrite Mc in E2. inversion E2; subst c.
      unfold pick_pdf_url in Pk. rewrite E3 in Pk. discriminate.
  - exists None. repeat split; auto.
  - exists None. repeat split; auto.
Qed.

(** ** The scenarios, run *)

(** C1 as stated fails: a verdict that denies the update keeps
    [has_update] false although it carries a document URL (and a date
    after the baseline). *)
Lemma update_rule_fails :
  exists v,
    snd (query_perplexity_api
           (world_of no_update_with_pdf (L "NOT_FOUND") offline)
           (L "X") baseline (L "key") empty_disk) = Ok v
    /\ truthy (get (L "document_url") v) = true
    /\ ~ update_rule v baseline.
Proof.
  eexists. split; [vm_compute; reflexivity|]. split; [reflexivity|].
  intros H. vm_compute in H. discriminate H.
Qed.

Lemma has_update_after_validation_witness :
  exists v,
    validate_date
      [(L "framework_name", JStr (L "X")); (L "has_update", JBool true);
       (L "latest_update_date", JStr (L "2025-10-01"));
       (L "document_url", JStr (L "https://x.org/upd.pdf"))] baseline = Ok v /\
    query_perplexity_api (world_of update_with_pdf (L "NOT_FOUND") offline)
      (L "X") baseline (L "key") empty_disk
    = ({| tick := 1; files := fun _ => None |}, check_document_url v) /\
    (truthy (get (L "has_update") v) = true <->
     gt {| year := 2025; month := 10; day := 1 |}
        {| year := 2025; month := 9; day := 13 |} = true
     \/ truthy (JStr (L "https://x.org/upd.pdf")) = true) /\
    (forall k, k <> L "has_update" ->
       get k v =
       get k [(L "framework_name", JStr (L "X")); (L "has_update", JBool true);
              (L "latest_update_date", JStr (L "2025-10-01"));
              (L "document_url", JStr (L "https://x.org/upd.pdf"))]).
Proof.
  apply (has_update_after_validation
           (world_of update_with_pdf (L "NOT_FOUND") offline)
           (L "X") baseline (L "key") empty_disk update_with_pdf
           [(L "framework_name", JStr (L "X")); (L "has_update", JBool true);
            (L "latest_update_date", JStr (L "2025-10-01"));
            (L "document_url", JStr (L "https://x.org/upd.pdf"))]
           {| year := 2025; month := 10; day := 1 |}
           {| year := 2025; month := 9; day := 13 |});
    try (vm_compute; reflexivity).
  - discriminate.
  - exists (answer update_with_pdf). split; vm_compute; reflexivity.
Defined.

(** C2.  A verdict that claims an update, with a date no format parses
    and no document URL, leaves the date validation with [has_update]
    still true: the handler of lines 434-440 is never reached, because
    the loop of lines 418-423 swallows the [ValueError] of every
    format. *)
Theorem unparseable_date_keeps_has_update :
  first_format (JStr (L "October 2025")) date_formats = Ok None /\
  exists v0 v,
    verdict update_with_vague_date baseline = Ok v0 /\
    get (L "document_url") v0 = JNull /\
    snd (query_perplexity_api
           (world_of update_with_vague_date (L "NOT_FOUND") offline)
           (L "X") baseline (L "key") empty_disk) = Ok v /\
    get (L "has_update") v = JBool true /\
    ~ unparseable_rule v0 v.
Proof.
  split; [vm_compute; reflexivity|].
  eexists. eexists. split; [vm_compute; reflexivity|].
  split; [reflexivity|]. split; [vm_compute; reflexivity|].
  split; [reflexivity|]. intros H. vm_compute in H. discriminate H.
Qed.


Lemma date_validation_never_upgrades_witness :
  validate_date
    [(L "has_update", JBool false);
     (L "latest_update_date", JStr (L "2025-10-01"));
     (L "document_url", JStr (L "https://x.org/upd.pdf"))] baseline
  = Ok [(L "has_update", JBool false);
        (L "latest_update_date", JStr (L "2025-10-01"));
        (L "document_url", JStr (L "https://x.org/upd.pdf"))] /\
  query_perplexity_api (world_of no_update_with_pdf (L "NOT_FOUND") offline)
    (L "X") baseline (L "key") empty_disk
  = ({| tick := 1; files := fun _ => None |},
     check_document_url
       [(L "has_update", JBool false);
        (L "latest_update_date", JStr (L "2025-10-01"));
        (L "document_url", JStr (L "https://x.org/upd.pdf"))]) /\
  forall st' v,
    query_perplexity_api (world_of no_update_with_pdf (L "NOT_FOUND") offline)
      (L "X") baseline (L "key") empty_disk = (st', Ok v) ->
    v = [(L "has_update", JBool false);
         (L "latest_update_date", JStr (L "2025-10-01"));
         (L "document_url", JStr (L "https://x.org/upd.pdf"))]
    /\ truthy (get (L "has_update") v) = false.
Proof.
  apply (date_validation_never_upgrades
           (world_of no_update_with_pdf (L "NOT_FOUND") offline)
           (L "X") baseline (L "key") empty_disk no_update_with_pdf);
    try (vm_compute; reflexivity).
  - discriminate.
  - exists (answer no_update_with_pdf). split; vm_compute; reflexivity.
Defined.





(** C8 as stated fails: a transient network failure of the first query
    is raised to the caller. *)
Lemma run_raises_when_service_unreachable :
  snd (run_framework_update_check unreachable (L "X") baseline (L "key")
         None None false true empty_disk) = Raise RequestError.
Proof. vm_compute. reflexivity. Qed.

(** C9 as stated fails: an answer that wraps the link in a sentence is
    accepted, and the link is cut out of it. *)
Lemma resolver_accepts_sentence :
  snd (find_actual_pdf_url
         (world_of update_with_pdf chatty_pdf_answer offline)
         (L "https://x.org/page") (L "X") (L "key") empty_disk)
  = Ok (Some (L "https://x.org/a.pdf")) /\
  message_content (answer chatty_pdf_answer) = Ok (JStr chatty_pdf_answer) /\
  strip chatty_pdf_answer <> L "https://x.org/a.pdf".
Proof.
  split; [vm_compute; reflexivity|]. split; [vm_compute; reflexivity|].
  intros H. vm_compute in H. discriminate H.
Qed.

(** * Further properties *)

Import Shapes.

(** ** The normaliser returns an excerpt *)

Lemma lstrip_suffix s : exists ws, s = ws ++ lstrip s.
Proof.
  induction s as [|c s [ws E]]; [exists []; reflexivity|].
  simpl. destruct (isspace c).
  - exists (c :: ws). simpl. rewrite <- E. reflexivity.
  - exists []. reflexivity.
Qed.

Lemma rstrip_prefix s : exists ws, s = rstrip s ++ ws.
Proof.
  unfold rstrip. destruct (lstrip_suffix (rev s)) as [ws E].
  exists (rev ws). rewrite <- rev_app_distr, <- E, rev_involutive. reflexivity.
Qed.

Lemma strip_occurs s : occurs (strip s) s.
Proof.
  unfold strip. destruct (lstrip_suffix s) as [ws1 E1].
  destruct (rstrip_prefix (lstrip s)) as [ws2 E2].
  exists (length ws1), ws1, ws2. split; [|reflexivity].
  rewrite <- E2. exact E1.
Qed.

Lemma occurs_trans a b c : occurs a b -> occurs b c -> occurs a c.
Proof.
  intros [n [p1 [q1 [E1 _]]]] [m [p2 [q2 [E2 _]]]]. subst.
  exists (length (p2 ++ p1)), (p2 ++ p1), (q1 ++ q2). split; [|reflexivity].
  rewrite <- !app_assoc. reflexivity.
Qed.

Lemma lstrip_length s : length (lstrip s) <= length s.
Proof.
  induction s as [|c s IH]; simpl; [lia|].
  destruct (isspace c); simpl; lia.
Qed.

(** A text that [lstrip] leaves alone is empty or starts with a
    character that is not white space. *)
Lemma lstrip_fixed s :
  lstrip s = s -> s = [] \/ exists c t, s = c :: t /\ isspace c = false.
Proof.
  destruct s as [|c t]; [auto|]. simpl. destruct (isspace c) eqn:E.
  - intros H. pose proof (lstrip_length t) as Le. rewrite H in Le.
    simpl in Le. lia.
  - intros _. right. exists c, t. auto.
Qed.

Lemma lstrip_idem s : lstrip (lstrip s) = lstrip s.
Proof.
  induction s as [|c s IH]; [reflexivity|].
  simpl. destruct (isspace c) eqn:E; [exact IH|].
  simpl. rewrite E. reflexivity.
Qed.

Lemma lstrip_keeps_last l c :
  isspace c = false -> exists l', lstrip (l ++ [c]) = l' ++ [c].
Proof.
  intros Hc. induction l as [|a l [l' IH]]; simpl.
  - rewrite Hc. exists []. reflexivity.
  - destruct (isspace a).
    + exists l'. exact IH.
    + exists (a :: l). reflexivity.
Qed.

(** [str.strip] is idempotent. *)
Lemma strip_idem s : strip (strip s) = strip s.
Proof.
  unfold strip.
  assert (X : lstrip (rstrip (lstrip s)) = rstrip (lstrip s)).
  { destruct (lstrip_fixed (lstrip s) (lstrip_idem s)) as [E | [c [t [E Hc]]]];
      rewrite E; [reflexivity|].
    unfold rstrip. simpl rev.
    destruct (lstrip_keeps_last (rev t) c Hc) as [l' El]. rewrite El.
    rewrite rev_app_distr. simpl. rewrite Hc. reflexivity. }
  rewrite X. unfold rstrip. rewrite rev_involutive, lstrip_idem. reflexivity.
Qed.

(** X1.  Lines 120-140.  [_clean_response_content] never raises, and what it
    returns is an excerpt of its input: a contiguous part of the text,
    without white space at either end. *)
Theorem clean_response_is_stripped_excerpt (content : str) :
  exists out,
    _clean_response_content content = Ok out /\
    occurs out content /\ strip out = out.
Proof.
  unfold _clean_response_content.
  destruct (guarded_search fence_json re_fence_json content) as [m|] eqn:F1.
  { apply fence_search_some in F1. destruct F1 as [body [[pre [post E]] G]].
    exists (strip body). split; [exact G|]. split; [|apply strip_idem].
    apply (occurs_trans _ body); [apply strip_occurs|].
    exists (length (pre ++ fence_json)), (pre ++ fence_json), (fence ++ post).
    split; [|reflexivity]. rewrite E, <- !app_assoc. reflexivity. }
  destruct (guarded_search fence re_fence_any content) as [m|] eqn:F2.
  { apply fence_search_some in F2. destruct F2 as [body [[pre [post E]] G]].
    exists (strip body). split; [exact G|]. split; [|apply strip_idem].
    apply (occurs_trans _ body); [apply strip_occurs|].
    exists (length (pre ++ fence)), (pre ++ fence), (fence ++ post).
    split; [|reflexivity]. rewrite E, <- !app_assoc. reflexivity. }
  destruct (search DOTALL re_brace content) as [m|] eqn:F3.
  { exists (strip (group0 m)). split; [reflexivity|].
    split; [|apply strip_idem].
    apply (occurs_trans _ (group0 m)); [apply strip_occurs|].
    destruct (search_group0 _ _ _ _ F3) as [pre [E _]].
    exists (length pre), pre, (after (m_end m)). auto. }
  exists (strip content). split; [reflexivity|].
  split; [apply strip_occurs | apply strip_idem].
Qed.

(** ** The query: key and service *)

(** X2.  Lines 145-146 and 190-196.  Without an API key
    [query_perplexity_api] raises [ValueError] before any request is
    sent; with one, a failure of the request and an error status of the
    service are raised to the caller, after one request. *)
Theorem query_needs_key_and_service (w : world) (fn B : str) (st : state) :
  query_perplexity_api w fn B [] st = (st, Raise ValueError) /\
  forall key, key <> [] ->
    match post w (tick st) (UpdateQuery fn B) with
    | Raise e =>
        query_perplexity_api w fn B key st =
        ({| tick := S (tick st); files := files st |}, Raise e)
    | Ok r =>
        bad_status (api_status r) = true ->
        query_perplexity_api w fn B key st =
        ({| tick := S (tick st); files := files st |},
         Raise (HTTPError (api_status r)))
    end.
Proof.
  split; [reflexivity|]. intros key Hk. apply eqs_false in Hk.
  unfold query_perplexity_api. rewrite Hk.
  unfold bindM, external, lift.
  destruct (post w (tick st) (UpdateQuery fn B)) as [r|e]; [|reflexivity].
  intros Hb. unfold message_content. rewrite Hb. reflexivity.
Qed.

(** ** The repair of a candidate *)

Lemma no_single_quote_replace s :
  no_single_quote s = true -> replace_char "'" [dq] s = s.
Proof.
  induction s as [|c s IH]; [reflexivity|].
  intros H. unfold no_single_quote in H. cbn [forallb] in H.
  apply andb_prop in H. destruct H as [Hc Hs]. apply negb_true_iff in Hc.
  change (replace_char "'" [dq] (c :: s))
    with ((if eqc c "'" then [dq] else [c]) ++ replace_char "'" [dq] s).
  rewrite Hc, (IH Hs). reflexivity.
Qed.

Lemma no_bare_key_at pre : forall s c post,
  no_bare_key s = true -> s = pre ++ c :: ":"%char :: post -> isword c = false.
Proof.
  induction pre as [|a pre IH]; intros s c post H E; subst s.
  - cbn [app no_bare_key] in H. rewrite eqc_refl, andb_true_r in H.
    apply andb_prop in H. destruct H as [H _].
    apply negb_true_iff in H. exact H.
  - cbn [app] in H.
    assert (X : exists d t, pre ++ c :: ":"%char :: post = d :: t).
    { destruct pre; eexists; eexists; reflexivity. }
    destruct X as [d [t X]].
    cbn [no_bare_key] in H. rewrite X in H.
    apply andb_prop in H. destruct H as [_ H]. rewrite <- X in H.
    exact (IH _ c post H eq_refl).
Qed.

Lemma word_mem a : cls_mem false [IWord] a = isword a.
Proof. unfold cls_mem. cbn [existsb item_mem xorb]. apply orb_false_r. Qed.

(** A match of the pattern of a bare key ends with a word character
    before a colon. *)
Lemma bare_key_inv p g q g' :
  Matches no_flags re_bare_key p g q g' ->
  exists m c, after p = m ++ c :: ":"%char :: after q /\ isword c = true.
Proof.
  unfold re_bare_key, Plus, Word. cbn [Cat]. intros H.
  apply Seq_inv in H. destruct H as [p1 [g1 [H1 H2]]].
  apply Group_inv in H1. destruct H1 as [g2 [H1 _]].
  apply Seq_inv in H1. destruct H1 as [p2 [g3 [H1 H3]]].
  apply (atom_Cls no_flags) in H1.
  destruct H1 as [a [rest [E1 [Pa [Eq _]]]]]. subst p2.
  apply (Star_atom_inv _ _ _ _ _ _ _ _ (atom_Cls no_flags _ _)) in H3.
  destruct H3 as [m [E3 [Pm _]]]. simpl in E3.
  apply (Lit_inv _ no_flags_sensitive) in H2. destruct H2 as [E2 _].
  rewrite word_mem in Pa. rewrite (forallb_eq _ isword _ word_mem) in Pm.
  destruct (exists_last (l := a :: m)) as [m' [c Em]]; [discriminate|].
  exists m', c. split.
  - rewrite E1, E3, E2. change (a :: m ++ ":"%char :: after q)
      with ((a :: m) ++ ":"%char :: after q).
    rewrite Em, <- app_assoc. reflexivity.
  - assert (F : forallb isword (a :: m) = true)
      by (cbn [forallb]; rewrite Pa, Pm; reflexivity).
    rewrite Em, forallb_app in F. apply andb_prop in F. destruct F as [_ F].
    cbn [forallb] in F. rewrite andb_true_r in F. exact F.
Qed.

(** X3.  Lines 229-230.  The repair changes nothing in a candidate that has
    no single quote and no word character before a colon: a text whose
    keys are already in double quotes is parsed as it stands. *)
Theorem repair_leaves_quoted_text (s : str) :
  no_single_quote s = true -> no_bare_key s = true -> repair s = s.
Proof.
  intros Hq Hk. unfold repair. rewrite (no_single_quote_replace _ Hq).
  unfold sub, finditer. cbn [scan start_of before after].
  destruct (search_from no_flags re_bare_key [] s) as [m|] eqn:Sm;
    [|reflexivity].
  exfalso. change (search no_flags re_bare_key s = Some m) in Sm.
  apply search_sound in Sm. destruct Sm as [pre [E [_ [M _]]]].
  apply bare_key_inv in M. destruct M as [m' [c [Ea Hc]]].
  rewrite Ea, app_assoc in E.
  rewrite (no_bare_key_at _ _ _ _ Hk E) in Hc. discriminate.
Qed.

Lemma repair_leaves_quoted_text_witness :
  repair (Q "{'has_update': true, 'notes': 'none'}")
  = Q "{'has_update': true, 'notes': 'none'}".
Proof.
  apply (repair_leaves_quoted_text (Q "{'has_update': true, 'notes': 'none'}"));
    reflexivity.
Defined.

(** ** The link found in the text *)

Lemma Eos_inv f p g q g' :
  Matches f Eos p g q g' -> q = p /\ g' = g /\ at_eos p = true.
Proof. intros H. inversion H; subst. auto. Qed.

Lemma punct_mem a :
  cls_mem false [IChr "."; IChr ","; IChr ";"; IChr ":"; IChr "!"; IChr "?";
                 IChr ")"; IChr "]"]%char a = trailing_punct a.
Proof.
  unfold cls_mem, trailing_punct. cbn [existsb item_mem xorb].
  rewrite !(eqc_sym a). reflexivity.
Qed.

(** A match of the pattern of line 272: a non-empty run of punctuation
    that ends where [$] holds. *)
Lemma trailing_punct_inv p g q g' :
  Matches no_flags re_trailing_punct p g q g' ->
  exists a m, after p = (a :: m) ++ after q /\
              forallb trailing_punct (a :: m) = true /\ at_eos q = true.
Proof.
  unfold re_trailing_punct, Plus. cbn [Cat]. intros H.
  apply Seq_inv in H. destruct H as [p1 [g1 [H1 H2]]].
  apply Seq_inv in H1. destruct H1 as [p2 [g2 [H1 H3]]].
  apply (atom_Cls no_flags) in H1.
  destruct H1 as [a [rest [E1 [Pa [Eq _]]]]]. subst p2.
  apply (Star_atom_inv _ _ _ _ _ _ _ _ (atom_Cls no_flags _ _)) in H3.
  destruct H3 as [m [E3 [Pm _]]]. simpl in E3.
  apply Eos_inv in H2. destruct H2 as [Eq [_ He]]. subst q.
  rewrite punct_mem in Pa. rewrite (forallb_eq _ trailing_punct _ punct_mem) in Pm.
  exists a, m. split; [|split].
  - rewrite E1, E3. reflexivity.
  - simpl. rewrite Pa, Pm. reflexivity.
  - exact He.
Qed.

Lemma trailing_punct_intro p g a m rest :
  after p = (a :: m) ++ rest -> forallb trailing_punct (a :: m) = true ->
  (rest = [] \/ rest = ["010"%char]) ->
  exists q g', Matches no_flags re_trailing_punct p g q g'.
Proof.
  intros E Pm Hr. simpl in Pm. apply andb_prop in Pm. destruct Pm as [Pa Pm].
  unfold re_trailing_punct, Plus. cbn [Cat].
  rewrite <- punct_mem in Pa.
  rewrite <- (forallb_eq _ trailing_punct _ punct_mem) in Pm.
  destruct (Star_atom_intro no_flags _ _ true m (advance a (m ++ rest) p) g rest
              (atom_Cls no_flags _ _) Pm eq_refl) as [q [Mq [Eq _]]].
  exists q, g. eapply M_Seq; [eapply M_Seq; [|exact Mq]|].
  - apply M_Cls; [exact E | exact Pa].
  - apply M_Eos. unfold at_eos. rewrite Eq.
    destruct Hr as [Hr | Hr]; rewrite Hr; reflexivity.
Qed.

Lemma no_trailing_punct_at_end bef :
  search_from no_flags re_trailing_punct bef [] = None.
Proof. reflexivity. Qed.

Lemma no_trailing_punct_at_newline bef :
  search_from no_flags re_trailing_punct bef ["010"%char] = None.
Proof. reflexivity. Qed.

Lemma at_eos_cases q :
  at_eos q = true -> after q = [] \/ after q = ["010"%char].
Proof.
  unfold at_eos. destruct (after q) as [|c [|c' t]]; auto; [|discriminate].
  intros H. apply eqc_true in H. subst c. auto.
Qed.

(** Line 272: [re.sub] with the pattern of trailing punctuation removes
    one run of punctuation, at the end of the text or before its final
    newline, and leaves no punctuation at the end. *)
Lemma sub_trailing_punct s :
  exists pre run tail,
    s = pre ++ run ++ tail /\
    sub no_flags re_trailing_punct (fun _ => []) s = pre ++ tail /\
    (tail = [] \/ tail = ["010"%char]) /\
    forall r c, pre ++ tail = r ++ [c] -> trailing_punct c = false.
Proof.
  unfold sub, finditer. cbn [scan start_of before after].
  destruct (search_from no_flags re_trailing_punct [] s) as [m|] eqn:Sm.
  - change (search no_flags re_trailing_punct s = Some m) in Sm.
    apply search_sound in Sm. destruct Sm as [pre [E [_ [M N]]]].
    apply trailing_punct_inv in M. destruct M as [a [mm [Ea [Pm He]]]].
    apply at_eos_cases in He.
    assert (Lt : (length (after (m_end m)) <? length (after (m_start m)))
                 = true).
    { apply Nat.ltb_lt. rewrite Ea, length_app. simpl. lia. }
    rewrite Lt.
    assert (Sc : scan no_flags re_trailing_punct (length s) (m_end m) = []).
    { destruct (length s); [reflexivity|]. cbn [scan].
      destruct He as [He | He]; rewrite He;
        [rewrite no_trailing_punct_at_end
        |rewrite no_trailing_punct_at_newline]; reflexivity. }
    rewrite Sc. cbn [splice app].
    assert (C : captured (start_of s) (m_start m) = pre).
    { apply captured_span. exact E. }
    rewrite C.
    exists pre, (a :: mm), (after (m_end m)).
    split; [rewrite E, Ea; reflexivity|]. split; [reflexivity|].
    split; [exact He|].
    intros r c Er. destruct He as [He | He]; rewrite He in Er.
    + rewrite app_nil_r in Er. destruct (trailing_punct c) eqn:Pc; [|reflexivity].
      exfalso.
      destruct (trailing_punct_intro {| before := rev r; after := c :: a :: mm |}
                  [] c (a :: mm) [] ) as [q [g' Mq]].
      * simpl. rewrite app_nil_r. reflexivity.
      * cbn [forallb]. cbn [forallb] in Pm. rewrite Pc, Pm. reflexivity.
      * auto.
      * apply (N r (c :: a :: mm) q g').
        -- rewrite E, Ea, He, Er, <- app_assoc, app_nil_r. reflexivity.
        -- rewrite Er, length_app. simpl. lia.
        -- exact Mq.
    + destruct (app_inj_tail _ _ _ _ Er) as [_ Ec]. subst c. reflexivity.
  - exists s, [], []. cbn [splice after start_of app]. rewrite !app_nil_r.
    split; [reflexivity|]. split; [reflexivity|]. split; [auto|].
    intros r c Er. destruct (trailing_punct c) eqn:Pc; [|reflexivity].
    exfalso.
    destruct (trailing_punct_intro {| before := rev r; after := [c] |}
                [] c [] []) as [q [g' Mq]]; auto.
    + simpl. rewrite Pc. reflexivity.
    + change (search no_flags re_trailing_punct s = None) in Sm.
      exact (search_none _ _ _ Sm r [c] q g' Er Mq).
Qed.

Lemma lstrip_head_nonspace s c t : lstrip s = c :: t -> isspace c = false.
Proof.
  induction s as [|a s IH]; simpl; [discriminate|].
  destruct (isspace a) eqn:E; [exact IH|].
  intros H. inversion H; subst. exact E.
Qed.

(** A stripped text does not end with white space. *)
Lemma strip_last s r c : strip s = r ++ [c] -> isspace c = false.
Proof.
  unfold strip, rstrip. intros H. apply (f_equal (@rev ascii)) in H.
  rewrite rev_involutive, rev_app_distr in H. simpl in H.
  exact (lstrip_head_nonspace _ _ _ H).
Qed.

(** X4.  Lines 259-273.  The link the text scan finds is an excerpt of the
    answer, and it does not end with any of the punctuation characters
    [.,;:!?)]] that line 272 removes. *)
Theorem found_link_is_trimmed_excerpt (patterns : list regex)
    (content url : str) :
  find_url patterns content = Some url ->
  occurs url content /\
  forall r c, url = r ++ [c] -> trailing_punct c = false.
Proof.
  induction patterns as [|pattern rest IH]; simpl; [discriminate|].
  destruct (search IGNORECASE pattern content) as [m|] eqn:Sm; [|exact IH].
  intros H. inversion H as [Eu]. clear H.
  destruct (sub_trailing_punct (strip (group0 m)))
    as [pre [run [tail [Es [Er [Ht Hp]]]]]].
  rewrite Er. split; [|exact Hp].
  assert (T : tail = []).
  { destruct Ht as [Ht | Ht]; [exact Ht|]. exfalso. subst tail.
    rewrite app_assoc in Es. apply strip_last in Es. discriminate Es. }
  subst tail. rewrite app_nil_r in *.
  apply (occurs_trans _ (strip (group0 m))).
  - exists (length (@nil ascii)), [], run. rewrite Es. auto.
  - apply (occurs_trans _ (group0 m)); [apply strip_occurs|].
    destruct (search_group0 _ _ _ _ Sm) as [pre0 [E _]].
    exists (length pre0), pre0, (after (m_end m)). auto.
Qed.

Lemma found_link_is_trimmed_excerpt_witness :
  occurs (L "https://x.org/a.pdf") prose_with_link /\
  forall r c, L "https://x.org/a.pdf" = r ++ [c] -> trailing_punct c = false.
Proof.
  apply (found_link_is_trimmed_excerpt url_patterns prose_with_link
           (L "https://x.org/a.pdf")).
  vm_compute. reflexivity.
Defined.

(** ** Dates found in the text *)

Lemma split_char_free a :
  slash_free a = true -> split_char "/" a = [a].
Proof.
  induction a as [|c a IH]; [reflexivity|].
  simpl. intros H. apply andb_prop in H. destruct H as [Hc Ha].
  apply negb_true_iff in Hc. rewrite Hc, (IH Ha). reflexivity.
Qed.

Lemma split_char_sep a rest :
  slash_free a = true ->
  split_char "/" (a ++ "/"%char :: rest) = a :: split_char "/" rest.
Proof.
  induction a as [|c a IH]; [reflexivity|].
  simpl. intros H. apply andb_prop in H. destruct H as [Hc Ha].
  apply negb_true_iff in Hc. rewrite Hc, (IH Ha). reflexivity.
Qed.

Lemma replace_slash_free a :
  slash_free a = true -> replace_char "/" (L "-") a = a.
Proof.
  induction a as [|c a IH]; [reflexivity|].
  intros H. simpl in H. apply andb_prop in H. destruct H as [Hc Ha].
  apply negb_true_iff in Hc.
  change (replace_char "/" (L "-") (c :: a))
    with ((if eqc c "/" then L "-" else [c]) ++ replace_char "/" (L "-") a).
  rewrite Hc, (IH Ha). reflexivity.
Qed.

Lemma replace_char_app x y a b :
  replace_char x y (a ++ b) = replace_char x y a ++ replace_char x y b.
Proof. unfold replace_char. apply flat_map_app. Qed.

(** X5.  Lines 290-296.  A date written with slashes is brought to dashes:
    a text whose first part has four characters keeps its order
    (year/month/day); any other is read as month/day/year and becomes
    year-month-day. *)
Theorem slash_dates_are_reordered (a b c : str) :
  slash_free a = true -> slash_free b = true -> slash_free c = true ->
  normalize_date (a ++ L "/" ++ b ++ L "/" ++ c) =
  Some (if length a =? 4 then a ++ L "-" ++ b ++ L "-" ++ c
        else c ++ L "-" ++ a ++ L "-" ++ b).
Proof.
  intros Ha Hb Hc. unfold normalize_date.
  assert (C : contains (L "/") (a ++ L "/" ++ b ++ L "/" ++ c) = true).
  { apply contains_occurs. exists a, (b ++ L "/" ++ c). reflexivity. }
  rewrite C.
  change (a ++ L "/" ++ b ++ L "/" ++ c)
    with (a ++ "/"%char :: (b ++ "/"%char :: c)).
  rewrite (split_char_sep _ _ Ha), (split_char_sep _ _ Hb),
    (split_char_free _ Hc).
  destruct (length a =? 4); [|reflexivity].
  change (a ++ "/"%char :: (b ++ "/"%char :: c))
    with (a ++ L "/" ++ b ++ L "/" ++ c).
  rewrite !replace_char_app, (replace_slash_free _ Ha),
    (replace_slash_free _ Hb), (replace_slash_free _ Hc).
  reflexivity.
Qed.

Lemma slash_dates_are_reordered_witness :
  normalize_date (L "09/13/2025") = Some (L "2025-09-13") /\
  normalize_date (L "2025/09/13") = Some (L "2025-09-13").
Proof.
  split.
  - apply (slash_dates_are_reordered (L "09") (L "13") (L "2025"));
      reflexivity.
  - apply (slash_dates_are_reordered (L "2025") (L "09") (L "13"));
      reflexivity.
Defined.

(** A text of digits holds no text that starts with another
    character. *)
Lemma digits_hold_no c p s :
  forallb isdigit s = true -> isdigit c = false -> contains (c :: p) s = false.
Proof.
  intros Hs Hc. destruct (contains (c :: p) s) eqn:C; [|reflexivity].
  apply contains_occurs in C. destruct C as [pre [post E]].
  rewrite forallb_forall in Hs.
  assert (I : In c s) by (rewrite E; apply in_or_app; right; left; reflexivity).
  rewrite (Hs c I) in Hc. discriminate.
Qed.

Lemma digits_are_no_date s :
  forallb isdigit s = true -> normalize_date s = None.
Proof.
  intros Hs. unfold normalize_date.
  change (L "/") with ["/"%char]. change (L "-") with ["-"%char].
  rewrite !(digits_hold_no _ _ _ Hs) by reflexivity.
  assert (M : existsb (fun month => contains month s) month_names = false).
  { cbv [month_names L list_ascii_of_string existsb].
    rewrite !(digits_hold_no _ _ _ Hs) by reflexivity. reflexivity. }
  rewrite M. reflexivity.
Qed.

Lemma Lit_inv_flags f c p g q g' :
  Matches f (Lit c) p g q g' ->
  exists a, after p = a :: after q /\ lit_mem f c a = true.
Proof. intros H. inversion H; subst. exists a. simpl. auto. Qed.

Lemma WordB_inv f p g q g' : Matches f WordB p g q g' -> q = p /\ g' = g.
Proof. intros H. inversion H; subst. auto. Qed.

Lemma lit_digit_ignorecase c a :
  In c ["2"; "0"]%char -> lit_mem IGNORECASE c a = true -> a = c.
Proof.
  unfold lit_mem, IGNORECASE. cbn [ignorecase].
  intros [E | [E | []]]; subst c;
    destruct a as [[] [] [] [] [] [] [] []]; try discriminate;
    intros _; reflexivity.
Qed.

(** A match of the pattern of the bare year: four digits. *)
Lemma year_match_digits p g q g' :
  Matches IGNORECASE (Cat [WordB; Group 1 re_20xx; WordB]) p g q g' ->
  exists ds, after p = ds ++ after q /\ forallb isdigit ds = true.
Proof.
  cbn [Cat]. intros H.
  apply Seq_inv in H. destruct H as [p1 [g1 [H1 H]]].
  apply WordB_inv in H1. destruct H1 as [E1 _]. subst p1.
  apply Seq_inv in H. destruct H as [p2 [g2 [H2 H3]]].
  apply WordB_inv in H3. destruct H3 as [E3 _]. subst p2.
  apply Group_inv in H2. destruct H2 as [g3 [H2 _]].
  unfold re_20xx in H2. cbn [Cat Str Rep L list_ascii_of_string] in H2.
  apply Seq_inv in H2. destruct H2 as [p3 [g4 [H2 H4]]].
  apply Seq_inv in H2. destruct H2 as [p4 [g5 [H2 H5]]].
  apply Seq_inv in H4. destruct H4 as [p5 [g6 [H4 H6]]].
  apply Lit_inv_flags in H2. destruct H2 as [a1 [E2 L2]].
  apply Lit_inv_flags in H5. destruct H5 as [a2 [E5 L5]].
  apply lit_digit_ignorecase in L2; [|simpl; auto].
  apply lit_digit_ignorecase in L5; [|simpl; auto]. subst a1 a2.
  apply (atom_Cls IGNORECASE) in H4.
  destruct H4 as [d1 [r1 [E4 [P1 [Eq1 _]]]]]. subst p5.
  apply (atom_Cls IGNORECASE) in H6.
  destruct H6 as [d2 [r2 [E6 [P2 [Eq2 _]]]]]. subst q.
  cbn [after advance] in *.
  exists ["2"; "0"; d1; d2]%char. split.
  - rewrite E2, E5, E4, E6. reflexivity.
  - unfold cls_mem in P1, P2. cbn [existsb item_mem xorb] in P1, P2.
    rewrite orb_false_r in P1, P2. cbn [forallb]. rewrite P1, P2. reflexivity.
Qed.

Lemma find_date_app ps qs content :
  find_date qs content = None ->
  find_date (ps ++ qs) content = find_date ps content.
Proof.
  intros H. induction ps as [|p ps IH]; simpl; [exact H|].
  destruct (search IGNORECASE p content); [|exact IH].
  destruct (some_text _); [reflexivity | exact IH].
Qed.

(** X6.  Lines 277-322.  The fourth date pattern, a bare year, never
    contributes a date: the text it matches has no slash, no dash and
    no month name, so lines 289-316 make nothing of it, and the search
    for a date gives what the first three patterns give. *)
Theorem bare_year_gives_no_date (content : str) :
  find_date date_patterns content = find_date (firstn 3 date_patterns) content.
Proof.
  assert (Y : find_date [Cat [WordB; Group 1 re_20xx; WordB]] content = None).
  { cbn [find_date].
    destruct (search IGNORECASE (Cat [WordB; Group 1 re_20xx; WordB]) content)
      as [m|] eqn:Sm; [|reflexivity].
    pose proof (search_group0 _ _ _ _ Sm) as [pre [_ [Ea _]]].
    apply search_sound in Sm. destruct Sm as [_ [_ [_ [M _]]]].
    apply year_match_digits in M. destruct M as [ds [Ed Hd]].
    rewrite Ea in Ed. apply app_inv_tail in Ed. rewrite Ed.
    rewrite (digits_are_no_date _ Hd). reflexivity. }
  change date_patterns
    with (firstn 3 date_patterns ++ [Cat [WordB; Group 1 re_20xx; WordB]]).
  apply find_date_app. exact Y.
Qed.

(** ** Dates written with a month name *)

Lemma search_from_next f r bef a t :
  match_at f r {| before := bef; after := a :: t |} = None ->
  search_from f r bef (a :: t) = search_from f r (a :: bef) t.
Proof. intros H. cbn [search_from]. rewrite H. reflexivity. Qed.

(** The search passes over a prefix at no position of which the pattern
    matches. *)
Lemma search_from_skip f r (P : ascii -> bool) A : forall bef rest,
  (forall b a t, P a = true ->
     match_at f r {| before := b; after := a :: t |} = None) ->
  forallb P A = true ->
  search_from f r bef (A ++ rest) = search_from f r (rev A ++ bef) rest.
Proof.
  induction A as [|a A IH]; intros bef rest Hn HA; [reflexivity|].
  cbn [forallb] in HA. apply andb_prop in HA. destruct HA as [Ha HA].
  cbn [app]. rewrite (search_from_next _ _ _ _ _ (Hn bef a (A ++ rest) Ha)).
  rewrite (IH (a :: bef) rest Hn HA). cbn [rev]. rewrite <- app_assoc.
  reflexivity.
Qed.

Lemma digit_mem a : cls_mem false [IDigit] a = isdigit a.
Proof. unfold cls_mem. cbn [existsb item_mem xorb]. apply orb_false_r. Qed.

(** The pattern of the day matches at no character that is not a
    digit. *)
Lemma day_at_none b a t :
  negb (isdigit a) = true ->
  match_at no_flags re_day {| before := b; after := a :: t |} = None.
Proof.
  intros H. apply negb_true_iff in H.
  unfold match_at, re_day, Rep12, Opt, Digit. cbn [Cat run].
  destruct (at_boundary _); [|reflexivity].
  cbn [run after]. rewrite digit_mem, H. reflexivity.
Qed.

(** The pattern of the year matches only where the text reads 2, 0 and
    two digits. *)
Lemma year_at_none_1 b a t :
  negb (eqc "2" a) = true ->
  match_at no_flags re_20xx {| before := b; after := a :: t |} = None.
Proof.
  intros H. apply negb_true_iff in H.
  unfold match_at, re_20xx. cbn [Cat Str L list_ascii_of_string run after].
  unfold lit_mem. cbn [ignorecase no_flags]. rewrite H. reflexivity.
Qed.

Lemma year_at_none_2 b a c t :
  eqc "0" c = false ->
  match_at no_flags re_20xx {| before := b; after := a :: c :: t |} = None.
Proof.
  intros H.
  unfold match_at, re_20xx. cbn [Cat Str L list_ascii_of_string run after].
  destruct (lit_mem no_flags "2" a); [|reflexivity].
  cbn [advance after]. unfold lit_mem. cbn [ignorecase no_flags].
  rewrite H. reflexivity.
Qed.

Lemma year_at_none_3 b a c d t :
  isdigit d = false ->
  match_at no_flags re_20xx {| before := b; after := a :: c :: d :: t |} = None.
Proof.
  intros H.
  unfold match_at, re_20xx, Digit.
  cbn [Cat Str Rep L list_ascii_of_string run after].
  destruct (lit_mem no_flags "2" a); [|reflexivity].
  cbn [advance after].
  destruct (lit_mem no_flags "0" c); [|reflexivity].
  cbn [advance after]. rewrite digit_mem, H. reflexivity.
Qed.

Lemma year_at_some b y1 y2 t :
  isdigit y1 = true -> isdigit y2 = true ->
  match_at no_flags re_20xx
    {| before := b; after := "2"%char :: "0"%char :: y1 :: y2 :: t |}
  = Some {| m_start := {| before := b;
                          after := "2"%char :: "0"%char :: y1 :: y2 :: t |};
            m_end := {| before := y2 :: y1 :: "0"%char :: "2"%char :: b;
                        after := t |};
            m_groups := [] |}.
Proof.
  intros H1 H2.
  unfold match_at, re_20xx, Digit.
  cbn [Cat Str Rep L list_ascii_of_string run after advance before].
  change (lit_mem no_flags "2" "2") with true.
  change (lit_mem no_flags "0" "0") with true.
  cbn [after before]. rewrite !digit_mem, H1. cbn [after before].
  rewrite H2. reflexivity.
Qed.

Lemma isdigit_isword a : isdigit a = true -> isword a = true.
Proof. unfold isdigit, isword. intros H. rewrite H. reflexivity. Qed.

Lemma boundary_before_digit b d x :
  isdigit d = true ->
  at_boundary {| before := " "%char :: b; after := d :: x |} = true.
Proof.
  intros H. unfold at_boundary. cbn [before after word_at].
  rewrite (isdigit_isword _ H). reflexivity.
Qed.

Lemma boundary_after_digit b d c x :
  isdigit d = true -> isword c = false ->
  at_boundary {| before := d :: b; after := c :: x |} = true.
Proof.
  intros H Hc. unfold at_boundary. cbn [before after word_at].
  rewrite (isdigit_isword _ H), Hc. reflexivity.
Qed.

(** The day of one or two digits, after a space and before a character
    that is neither a digit nor a word character. *)
Lemma day_at_some b D c t :
  forallb isdigit D = true -> 1 <= length D <= 2 ->
  isword c = false -> isdigit c = false ->
  exists m,
    match_at no_flags re_day {| before := " "%char :: b; after := D ++ c :: t |}
    = Some m /\ group_text 1 m = D.
Proof.
  intros HD HL Hw Hd.
  destruct D as [|d1 [|d2 [|d3 D]]]; simpl in HL; try lia.
  - cbn [forallb] in HD. rewrite andb_true_r in HD.
    unfold match_at, re_day, Rep12, Opt, Digit. cbn [Cat app].
    cbn [run]. rewrite boundary_before_digit by exact HD.
    cbn [after]. rewrite digit_mem, HD.
    cbn [advance after before]. rewrite digit_mem, Hd.
    unfold advance. cbn [after before].
    rewrite boundary_after_digit by assumption.
    eexists. split; [reflexivity|].
    unfold group_text, group. cbn [m_groups get_group set_group Nat.eqb].
    rewrite (captured_span _ _ [d1]); reflexivity.
  - cbn [forallb] in HD. rewrite andb_true_r in HD.
    apply andb_prop in HD. destruct HD as [H1 H2].
    unfold match_at, re_day, Rep12, Opt, Digit. cbn [Cat app].
    cbn [run]. rewrite boundary_before_digit by exact H1.
    cbn [after]. rewrite digit_mem, H1.
    cbn [advance after before]. rewrite digit_mem, H2.
    unfold advance. cbn [after before].
    rewrite boundary_after_digit by assumption.
    eexists. split; [reflexivity|].
    unfold group_text, group. cbn [m_groups get_group set_group Nat.eqb].
    rewrite (captured_span _ _ [d1; d2]); reflexivity.
Qed.

Lemma search_from_here f r bef aft m :
  match_at f r {| before := bef; after := aft |} = Some m ->
  search_from f r bef aft = Some m.
Proof. intros H. destruct aft; cbn [search_from]; rewrite H; reflexivity. Qed.

Lemma day_search M D c t :
  forallb (fun a => negb (isdigit a)) M = true ->
  forallb isdigit D = true -> 1 <= length D <= 2 ->
  isword c = false -> isdigit c = false ->
  exists m,
    search no_flags re_day (M ++ " "%char :: D ++ c :: t) = Some m /\
    group_text 1 m = D.
Proof.
  intros HM HD HL Hw Hd. unfold search.
  change (M ++ " "%char :: D ++ c :: t) with (M ++ [" "%char] ++ D ++ c :: t).
  rewrite app_assoc.
  rewrite (search_from_skip no_flags re_day (fun a => negb (isdigit a)))
    by (try exact day_at_none; rewrite forallb_app, HM; reflexivity).
  rewrite rev_app_distr, app_nil_r. cbn [rev app].
  destruct (day_at_some (rev M) D c t HD HL Hw Hd) as [m [E G]].
  exists m. split; [apply search_from_here; exact E | exact G].
Qed.

Lemma year_search M D (comma : bool) y1 y2 :
  forallb (fun a => negb (eqc "2" a)) M = true ->
  1 <= length D <= 2 ->
  isdigit y1 = true -> isdigit y2 = true ->
  exists m,
    search no_flags re_20xx
      (M ++ " "%char :: D ++ (if comma then L "," else []) ++ L " 20" ++ [y1; y2])
    = Some m /\
    group0 m = L "20" ++ [y1; y2].
Proof.
  intros HM HL H1 H2. unfold search.
  match goal with
  | |- context [search_from _ _ [] (M ++ " "%char :: ?x)] =>
      change (M ++ " "%char :: x) with (M ++ [" "%char] ++ x)
  end.
  rewrite app_assoc.
  rewrite (search_from_skip no_flags re_20xx (fun a => negb (eqc "2" a)))
    by (try exact year_at_none_1; rewrite forallb_app, HM; reflexivity).
  rewrite rev_app_distr, app_nil_r. cbn [rev app].
  destruct D as [|d1 [|d2 [|d3 D]]]; simpl in HL; try lia;
    destruct comma; cbn [app L list_ascii_of_string];
    repeat (rewrite search_from_next
              by (first [apply year_at_none_1; reflexivity
                        |apply year_at_none_2; reflexivity
                        |apply year_at_none_3; reflexivity]));
    (eexists; split;
     [apply search_from_here; apply year_at_some; assumption|];
     unfold group0; cbn [m_start m_end];
     apply captured_span; reflexivity).
Qed.

Lemma contains_char c s : contains [c] s = existsb (eqc c) s.
Proof.
  induction s as [|a s IH]; [reflexivity|].
  cbn [contains startswith existsb]. rewrite IH, andb_true_r. reflexivity.
Qed.

Lemma plain_holds_no c R :
  forallb plain R = true -> plain c = false -> existsb (eqc c) R = false.
Proof.
  intros HR Hc. induction R as [|a R IH]; [reflexivity|].
  cbn [forallb] in HR. apply andb_prop in HR. destruct HR as [Ha HR].
  cbn [existsb]. rewrite (IH HR), orb_false_r.
  destruct (eqc c a) eqn:E; [|reflexivity].
  apply eqc_true in E. subst a. congruence.
Qed.

Lemma lower_plain R : forallb plain R = true -> lower R = R.
Proof.
  intros HR. unfold lower. induction R as [|a R IH]; [reflexivity|].
  cbn [forallb] in HR. apply andb_prop in HR. destruct HR as [Ha HR].
  cbn [map]. rewrite (IH HR). f_equal.
  revert Ha. clear.
  destruct a as [[] [] [] [] [] [] [] []]; try discriminate; reflexivity.
Qed.

(** A text without plain characters occurs in a text that ends with
    plain characters only where it occurs before them. *)
Lemma contains_prefix_only name A R :
  name <> [] ->
  forallb (fun c => negb (plain c)) name = true ->
  forallb plain R = true ->
  contains name (A ++ R) = contains name A.
Proof.
  intros Hn Hname HR.
  assert (No : forall c, In c name -> In c R -> False).
  { intros c I1 I2. rewrite forallb_forall in Hname, HR.
    specialize (Hname c I1). specialize (HR c I2).
    rewrite HR in Hname. discriminate. }
  destruct (contains name A) eqn:CA.
  - apply contains_occurs in CA. destruct CA as [pre [post E]].
    apply contains_occurs. exists pre, (post ++ R).
    rewrite E, <- !app_assoc. reflexivity.
  - destruct (contains name (A ++ R)) eqn:C; [|reflexivity].
    exfalso. apply contains_occurs in C. destruct C as [pre [post E]].
    rewrite app_assoc in E. apply app_eq_app in E.
    destruct E as [t [[E1 E2] | [E1 E2]]].
    + (* A = (pre ++ name) ++ t *)
      assert (X : contains name A = true).
      { apply contains_occurs. exists pre, t. rewrite E1, <- app_assoc.
        reflexivity. }
      congruence.
    + (* pre ++ name = A ++ t, R = t ++ post *)
      destruct t as [|x t].
      * rewrite app_nil_r in E1.
        assert (X : contains name A = true).
        { apply contains_occurs. exists pre, []. rewrite app_nil_r.
          symmetry. exact E1. }
        congruence.
      * destruct (exists_last (l := name) Hn) as [name' [z Ez]].
        assert (Iz : In z name)
          by (rewrite Ez; apply in_or_app; right; left; reflexivity).
        apply (No z Iz). rewrite E2. apply in_or_app. left.
        destruct (exists_last (l := x :: t)) as [t' [z' Ez']]; [discriminate|].
        rewrite Ez' in E1. rewrite Ez, !app_assoc in E1.
        apply app_inj_tail in E1. destruct E1 as [_ E1]. subst z'.
        rewrite Ez'. apply in_or_app. right. left. reflexivity.
Qed.

Lemma month_map_letters :
  forallb (fun e => negb (eqs (fst e) [])
                    && forallb (fun c => negb (plain c)) (fst e)) month_map
  = true.
Proof. vm_compute. reflexivity. Qed.

(** Lines 309-316 on a text made of a word and plain characters after
    it, in which the year and the day are found: the month is the first
    of the table whose name occurs in the word. *)
Lemma month_loop_found M R ym dm : forall months,
  forallb plain R = true ->
  forallb (fun e => negb (eqs (fst e) [])
                    && forallb (fun c => negb (plain c)) (fst e)) months
  = true ->
  search no_flags re_20xx (M ++ R) = Some ym ->
  search no_flags re_day (M ++ R) = Some dm ->
  month_loop months (M ++ R) =
  option_map (fun e => group0 ym ++ L "-" ++ snd e ++ L "-"
                       ++ zfill 2 (group_text 1 dm))
             (find (fun e => contains (fst e) (lower M)) months).
Proof.
  intros months HR Hm Sy Sd.
  induction months as [|[name num] months IH]; [reflexivity|].
  cbn [forallb fst] in Hm. apply andb_prop in Hm. destruct Hm as [Hn Hm].
  apply andb_prop in Hn. destruct Hn as [Hne Hl].
  apply negb_true_iff, eqs_false in Hne.
  cbn [month_loop find fst].
  assert (E : contains name (lower (M ++ R)) = contains name (lower M)).
  { unfold lower. rewrite map_app. fold (lower M). fold (lower R).
    rewrite (lower_plain R HR).
    apply contains_prefix_only; assumption. }
  rewrite E. destruct (contains name (lower M)); [|exact (IH Hm)].
  rewrite Sy, Sd. reflexivity.
Qed.

Lemma existsb_nth (A : Type) (f : A -> bool) (l : list A) (i : nat) (d : A) :
  i < length l -> f (nth i l d) = true -> existsb f l = true.
Proof.
  intros Hi Hf. apply existsb_exists. exists (nth i l d).
  split; [apply nth_In; exact Hi | exact Hf].
Qed.

(** X7.  Lines 297-316.  A date written as a capitalised month name, a
    space, a day of one or two digits, an optional comma, a space and a
    year of this century is brought to the form year-month-day, with
    the number of the month and the day in two digits. *)
Theorem month_name_dates_are_normalised (i : nat) (D Y : str) (comma : bool) :
  i < 12 ->
  forallb isdigit D = true -> 1 <= length D <= 2 ->
  forallb isdigit Y = true -> length Y = 2 ->
  normalize_date (written_date i D Y comma) = Some (iso_date i D Y).
Proof.
  intros Hi HD HL HY HLy.
  destruct Y as [|y1 [|y2 [|y3 Y]]]; try discriminate HLy.
  cbn [forallb] in HY. rewrite andb_true_r in HY.
  apply andb_prop in HY. destruct HY as [Hy1 Hy2].
  set (R := " "%char :: D ++ (if comma then L "," else []) ++ L " 20" ++ [y1; y2]).
  assert (HR : forallb plain R = true).
  { unfold R. cbn [forallb]. rewrite !forallb_app.
    assert (X : forallb plain D = true).
    { apply forallb_forall. intros c Ic. rewrite forallb_forall in HD.
      unfold plain. rewrite (HD c Ic). reflexivity. }
    rewrite X. unfold plain. destruct comma; cbn [forallb L list_ascii_of_string];
      rewrite Hy1, Hy2; reflexivity. }
  assert (Hc : exists c t, (if comma then L "," else []) ++ L " 20" ++ [y1; y2]
                           = c :: t /\ isword c = false /\ isdigit c = false).
  { destruct comma; eexists; eexists; (split; [reflexivity|]); split; reflexivity. }
  destruct Hc as [c [t [Ec [Hw Hd]]]].
  unfold written_date, iso_date.
  change (L " " ++ D ++ (if comma then L "," else []) ++ L " 20" ++ [y1; y2])
    with R.
  set (M := nth i month_names []).
  assert (Ex : existsb (fun month => contains month (M ++ R)) month_names = true).
  { apply (existsb_nth _ _ _ i []); [exact Hi|].
    apply contains_occurs. exists [], R. reflexivity. }
  assert (Ci : i = 0 \/ i = 1 \/ i = 2 \/ i = 3 \/ i = 4 \/ i = 5 \/ i = 6
               \/ i = 7 \/ i = 8 \/ i = 9 \/ i = 10 \/ i = 11) by lia.
  clear Hi.
  assert (K : forallb (fun a => negb (isdigit a)) M = true /\
              forallb (fun a => negb (eqc "2" a)) M = true /\
              existsb (eqc "/") M = false /\ existsb (eqc "-") M = false /\
              find (fun e => contains (fst e) (lower M)) month_map
              = Some (nth i (map fst month_map) [], two (S i))).
  { unfold M.
    repeat (destruct Ci as [Ci | Ci]; [subst i; vm_compute; auto|]).
    subst i; vm_compute; auto. }
  clear Ci. destruct K as [K1 [K2 [K3 [K4 K5]]]].
  destruct (day_search M D c t K1 HD HL Hw Hd) as [dm [Sd Gd]].
  rewrite <- Ec in Sd. fold R in Sd.
  destruct (year_search M D comma y1 y2 K2 HL Hy1 Hy2) as [ym [Sy Gy]].
  fold R in Sy.
  unfold normalize_date.
  change (L "/") with ["/"%char]. change (L "-") with ["-"%char].
  rewrite !contains_char, !existsb_app, !(plain_holds_no _ R HR) by reflexivity.
  rewrite K3, K4, Ex. cbn [orb].
  rewrite (month_loop_found M R ym dm month_map HR month_map_letters Sy Sd).
  rewrite K5, Gy, Gd. reflexivity.
Qed.

Lemma month_name_dates_are_normalised_witness :
  normalize_date (L "October 5, 2025") = Some (L "2025-10-05").
Proof.
  apply (month_name_dates_are_normalised 9 (L "5") (L "25") true);
    first [reflexivity | simpl; lia].
Defined.

(** ** What the interpretation of an answer raises and returns *)


Lemma first_format_str s fmts : exists o, first_format (JStr s) fmts = Ok o.
Proof.
  induction fmts as [|fmt fmts [o IH]]; simpl; [eexists; reflexivity|].
  destruct (strptime s fmt); simpl; eexists; [reflexivity | exact IH].
Qed.

Lemma first_format_not_str v fmt fmts :
  (forall s, v <> JStr s) -> first_format v (fmt :: fmts) = Raise TypeError.
Proof.
  intros N. destruct v; try reflexivity. exfalso. exact (N s eq_refl).
Qed.




(** X9.  Lines 212 and 396-397.  An answer that is valid JSON but not an
    object (an array, a number, a string, [true]) is taken as the parsed
    verdict, and the call of its method [get] makes
    [query_perplexity_api] raise [AttributeError]. *)
Theorem non_object_answer_raises (w : world) (fn B key : str) (st : state)
    (content : str) (v : value) :
  key <> [] -> answers w fn B st content ->
  strict_parse content = Ok (Some v) ->
  truthy v = true -> (forall d, v <> JDict d) ->
  query_perplexity_api w fn B key st =
  ({| tick := S (tick st); files := files st |}, Raise AttributeError).
Proof.
  intros Hk Ha Hs Ht Hd.
  rewrite (query_interprets w fn B key st content Hk Ha).
  unfold interpret, verdict, extract. rewrite Hs. cbn [bind].
  unfold or_no_update. rewrite Ht.
  destruct v; try reflexivity. exfalso. exact (Hd d eq_refl).
Qed.

Lemma answers_world_of content pdf_text download fn B st :
  loads (api_text (answer content)) =
    Some (JDict [(L "choices",
                  JList [JDict [(L "message",
                                 JDict [(L "content", JStr content)])]])]) ->
  answers (world_of content pdf_text download) fn B st content.
Proof.
  intros H. exists (answer content). split; [reflexivity|].
  unfold message_content. cbn [api_status answer bad_status].
  rewrite H. reflexivity.
Qed.

Lemma non_object_answer_raises_witness :
  query_perplexity_api (world_of (L "[1]") (L "NOT_FOUND") offline)
    (L "X") baseline (L "key") empty_disk =
  ({| tick := 1; files := files empty_disk |}, Raise AttributeError).
Proof.
  apply (non_object_answer_raises
           (world_of (L "[1]") (L "NOT_FOUND") offline)
           (L "X") baseline (L "key") empty_disk (L "[1]")
           (JList [JInt 1])).
  - discriminate.
  - apply answers_world_of. vm_compute. reflexivity.
  - vm_compute. reflexivity.
  - reflexivity.
  - discriminate.
Defined.

(** X10.  Lines 412-423.  A verdict that claims an update and whose
    [latest_update_date] is truthy but not a string (a number, say)
    makes [query_perplexity_api] raise [TypeError]: [strptime] refuses
    it, and neither handler of the date validation catches that. *)
Theorem non_string_date_raises (w : world) (fn B key : str) (st : state)
    (content : str) (v0 : dict) :
  key <> [] -> answers w fn B st content ->
  verdict content B = Ok v0 ->
  truthy (get (L "has_update") v0) = true ->
  truthy (get (L "latest_update_date") v0) = true ->
  (forall s, get (L "latest_update_date") v0 <> JStr s) ->
  validate_date v0 B = Raise TypeError /\
  query_perplexity_api w fn B key st =
  ({| tick := S (tick st); files := files st |}, Raise TypeError).
Proof.
  intros Hk Ha Hv Hu Hd Hs.
  assert (V : validate_date v0 B = Raise TypeError).
  { unfold validate_date. rewrite Hu, Hd. cbn [andb].
    unfold date_formats. rewrite (first_format_not_str _ _ _ Hs). reflexivity. }
  split; [exact V|].
  rewrite (query_interprets w fn B key st content Hk Ha).
  unfold interpret. rewrite Hv. cbn [bind]. rewrite V. reflexivity.
Qed.

Lemma non_string_date_raises_witness :
  validate_date [(L "has_update", JBool true);
                 (L "latest_update_date", JInt 20251001)] baseline
    = Raise TypeError /\
  query_perplexity_api
    (world_of update_with_numeric_date (L "NOT_FOUND") offline)
    (L "X") baseline (L "key") empty_disk =
  ({| tick := 1; files := files empty_disk |}, Raise TypeError).
Proof.
  apply (non_string_date_raises
           (world_of update_with_numeric_date (L "NOT_FOUND") offline)
           (L "X") baseline (L "key") empty_disk update_with_numeric_date
           [(L "has_update", JBool true);
            (L "latest_update_date", JInt 20251001)]).
  - discriminate.
  - apply answers_world_of. vm_compute. reflexivity.
  - vm_compute. reflexivity.
  - reflexivity.
  - reflexivity.
  - discriminate.
Defined.

(** X11.  Lines 409-440.  The date validation changes nothing but
    [has_update], which it can only set to false, and only for a
    verdict that claims an update and carries no document URL; applied
    to its own result it changes nothing more. *)
Theorem validate_date_only_lowers (parsed : dict) (B : str) (v : dict) :
  validate_date parsed B = Ok v ->
  (v = parsed \/
   (v = set (L "has_update") (JBool false) parsed /\
    truthy (get (L "has_update") parsed) = true /\
    truthy (get (L "document_url") parsed) = false)) /\
  validate_date v B = Ok v.
Proof.
  intros H.
  assert (S : v = parsed \/
   (v = set (L "has_update") (JBool false) parsed /\
    truthy (get (L "has_update") parsed) = true /\
    truthy (get (L "document_url") parsed) = false)).
  { revert H. unfold validate_date.
    destruct (truthy (get (L "has_update") parsed)) eqn:Hu; cbn [andb];
      [|intros H; inversion H; auto].
    destruct (truthy (get (L "latest_update_date") parsed));
      [|intros H; inversion H; auto].
    destruct (first_format _ date_formats) as [[d|]|e]; cbn [bind].
    - destruct (strptime B (L "%Y-%m-%d")).
      + destruct (le d d0); cbn [andb];
          [|intros H; inversion H; auto].
        destruct (truthy (get (L "document_url") parsed)); cbn [negb];
          intros H; inversion H; auto.
      + cbn [is_ValueError_or_AttributeError].
        destruct (truthy (get (L "document_url") parsed)); cbn [negb];
          intros H; inversion H; auto.
    - intros H; inversion H; auto.
    - destruct (is_ValueError_or_AttributeError e); [|discriminate].
      destruct (truthy (get (L "document_url") parsed)); cbn [negb];
        intros H; inversion H; auto. }
  split; [exact S|].
  destruct S as [E | [E _]]; subst v; [exact H|].
  unfold validate_date. rewrite get_set. reflexivity.
Qed.

Lemma validate_date_only_lowers_witness :
  let parsed := [(L "has_update", JBool true);
                 (L "latest_update_date", JStr (L "2025-01-01"))] in
  let v := [(L "has_update", JBool false);
            (L "latest_update_date", JStr (L "2025-01-01"))] in
  (v = parsed \/
   (v = set (L "has_update") (JBool false) parsed /\
    truthy (get (L "has_update") parsed) = true /\
    truthy (get (L "document_url") parsed) = false)) /\
  validate_date v baseline = Ok v.
Proof.
  apply (validate_date_only_lowers
           [(L "has_update", JBool true);
            (L "latest_update_date", JStr (L "2025-01-01"))] baseline).
  vm_compute. reflexivity.
Defined.

(** X12.  Lines 241-394 and 409-450.  When neither the strict parse nor the
    recovery patterns give a value and the text names a PDF link, the
    verdict synthesised from the text is returned as it is: it claims
    an update and carries the link, whatever dates the text and the
    baseline hold. *)
Theorem text_scan_url_wins (content B url : str) :
  strict_parse content = Ok None ->
  recover json_patterns content = None ->
  find_url url_patterns content = Some url -> url <> [] ->
  interpret content B = Ok (text_scan content B) /\
  get (L "has_update") (text_scan content B) = JBool true /\
  get (L "document_url") (text_scan content B) = JStr url.
Proof.
  intros Hs Hr Hf Hn.
  assert (T : exists d n,
    text_scan content B =
    [(L "has_update", JBool true); (L "latest_update_date", JStr d);
     (L "document_url", JStr url); (L "version", JNull); (L "notes", JStr n)]).
  { unfold text_scan. rewrite Hf.
    assert (St : some_text (Some url) = true)
      by (destruct url; [congruence | reflexivity]).
    rewrite St. cbn [opt_value].
    destruct (some_text (find_date date_patterns content)) eqn:Sd.
    - destruct (find_date date_patterns content) as [ld|];
        [|discriminate]. cbn [option_map].
      destruct (some_text (Some (dashed ld))); cbn [opt_value];
        eexists; eexists; reflexivity.
    - rewrite Sd. eexists; eexists; reflexivity. }
  destruct T as [d [n T]].
  assert (Hu : truthy (JStr url) = true)
    by (destruct url; [congruence | reflexivity]).
  split; [|rewrite T; split; reflexivity].
  unfold interpret, verdict, extract. rewrite Hs. cbn [bind]. rewrite Hr.
  assert (Tr : truthy (JDict (text_scan content B)) = true)
    by (rewrite T; reflexivity).
  cbn [bind]. unfold or_no_update. rewrite Tr. cbn [bind].
  assert (V : validate_date (text_scan content B) B = Ok (text_scan content B)).
  { unfold validate_date. rewrite T.
    change (get (L "has_update") _) with (JBool true).
    change (get (L "latest_update_date") _) with (JStr d).
    change (get (L "document_url") _) with (JStr url).
    rewrite Hu. cbn [truthy andb negb].
    destruct (negb (eqs d [])); [|reflexivity].
    destruct (first_format_str d date_formats) as [[dd|] F]; rewrite F;
      cbn [bind]; [|reflexivity].
    destruct (strptime B (L "%Y-%m-%d")); [|reflexivity].
    rewrite andb_false_r. reflexivity. }
  rewrite V. cbn [bind]. unfold check_document_url. rewrite T.
  change (get (L "document_url") _) with (JStr url). rewrite Hu. reflexivity.
Qed.

Lemma text_scan_url_wins_witness :
  interpret prose_with_link baseline = Ok (text_scan prose_with_link baseline) /\
  get (L "has_update") (text_scan prose_with_link baseline) = JBool true /\
  get (L "document_url") (text_scan prose_with_link baseline)
    = JStr (L "https://x.org/a.pdf").
Proof.
  apply (text_scan_url_wins prose_with_link baseline (L "https://x.org/a.pdf")).
  - vm_compute. reflexivity.
  - vm_compute. reflexivity.
  - vm_compute. reflexivity.
  - discriminate.
Defined.

(** ** Verdicts that are returned *)

Lemma date_le_refl d : le d d = true.
Proof.
  unfold le. rewrite !Z.ltb_irrefl, !Z.eqb_refl, Z.leb_refl. reflexivity.
Qed.

(** X13.  Lines 241-394 and 409-440.  When the verdict is synthesised from
    the text and the text holds neither a link nor a date, the words
    that suggest an update decide nothing: the synthesised verdict
    carries the baseline as its date, so for a baseline that is a date
    the validation sets [has_update] to false. *)
Theorem keyword_heuristics_are_overridden (content B : str) (b : date) :
  strict_parse content = Ok None ->
  recover json_patterns content = None ->
  find_url url_patterns content = None ->
  find_date date_patterns content = None ->
  strptime B (L "%Y-%m-%d") = Some b ->
  exists v,
    interpret content B = Ok v /\
    get (L "has_update") v = JBool false /\
    get (L "latest_update_date") v = JStr B /\
    get (L "document_url") v = JNull.
Proof.
  intros Hs Hr Hu Hd Hb.
  assert (Hn : negb (eqs B []) = true).
  { destruct B; [vm_compute in Hb; discriminate | reflexivity]. }
  unfold interpret, verdict, extract. rewrite Hs. cbn [bind]. rewrite Hr.
  cbn [bind]. unfold text_scan. rewrite Hu, Hd. cbn [some_text opt_value].
  set (mention := existsb _ strong_update_indicators).
  cbn [or_no_update truthy bind].
  match goal with
  | |- context [validate_date ?t B] => set (T := t)
  end.
  assert (G1 : get (L "has_update") T = JBool mention) by reflexivity.
  assert (G2 : get (L "latest_update_date") T = JStr B) by reflexivity.
  assert (G3 : get (L "document_url") T = JNull) by reflexivity.
  assert (V : validate_date T B
              = Ok (if mention then set (L "has_update") (JBool false) T
                    else T)).
  { unfold validate_date. rewrite G1, G2, G3. cbn [truthy]. rewrite Hn.
    destruct mention; cbn [andb]; [|reflexivity].
    unfold date_formats. cbn [first_format obj_strptime]. rewrite Hb.
    cbn [bind]. rewrite date_le_refl. reflexivity. }
  rewrite V. cbn [bind]. unfold check_document_url.
  assert (G4 : get (L "document_url")
                 (if mention then set (L "has_update") (JBool false) T else T)
               = JNull) by (destruct mention; reflexivity).
  rewrite G4. cbn [truthy].
  eexists. split; [reflexivity|]. destruct mention; repeat split.
Qed.

Lemma keyword_heuristics_are_overridden_witness :
  exists v,
    interpret prose_with_keywords baseline = Ok v /\
    get (L "has_update") v = JBool false /\
    get (L "latest_update_date") v = JStr baseline /\
    get (L "document_url") v = JNull.
Proof.
  apply (keyword_heuristics_are_overridden prose_with_keywords baseline
           {| year := 2025; month := 9; day := 13 |});
    vm_compute; reflexivity.
Defined.

(** X14.  Lines 357-381 and 409-440.  When the verdict is synthesised from
    the text and the text holds no link but a date that parses, the
    date alone decides: [has_update] is true exactly when the date lies
    after the baseline, and the validation leaves that verdict as it
    is. *)
Theorem text_date_decides_without_link (content B s : str) (d b : date) :
  strict_parse content = Ok None ->
  recover json_patterns content = None ->
  find_url url_patterns content = None ->
  find_date date_patterns content = Some s ->
  first_format (JStr (dashed s)) date_formats = Ok (Some d) ->
  strptime B (L "%Y-%m-%d") = Some b ->
  exists v,
    interpret content B = Ok v /\
    get (L "has_update") v = JBool (gt d b) /\
    get (L "latest_update_date") v = JStr (dashed s) /\
    get (L "document_url") v = JNull.
Proof.
  intros Hs Hr Hu Hd Hf Hb.
  pose proof (parsed_date_truthy _ _ Hf) as Td.
  assert (Ns : some_text (Some s) = true).
  { destruct s; [|reflexivity]. vm_compute in Hf. discriminate. }
  assert (Nd : some_text (Some (dashed s)) = true).
  { destruct (dashed s); [discriminate Td | reflexivity]. }
  unfold interpret, verdict, extract. rewrite Hs. cbn [bind]. rewrite Hr.
  cbn [bind]. unfold text_scan. rewrite Hu, Hd. cbn [some_text opt_value].
  change (match s with [] => false | _ :: _ => true end)
    with (some_text (Some s)).
  rewrite Ns. cbn [option_map]. unfold compare_dates. rewrite Hf.
  cbn [bind]. rewrite Hb.
  change (match dashed s with [] => false | _ :: _ => true end)
    with (some_text (Some (dashed s))).
  rewrite Nd.
  cbn [or_no_update truthy bind].
  match goal with
  | |- context [validate_date ?t B] => set (T := t)
  end.
  assert (G1 : get (L "has_update") T = JBool (gt d b)) by reflexivity.
  assert (G2 : get (L "latest_update_date") T = JStr (dashed s)) by reflexivity.
  assert (G3 : get (L "document_url") T = JNull) by reflexivity.
  assert (V : validate_date T B = Ok T).
  { unfold validate_date. rewrite G1, G2, G3, Td, Hf. cbn [truthy bind].
    rewrite Hb. unfold gt. destruct (le d b); reflexivity. }
  rewrite V. cbn [bind]. unfold check_document_url. rewrite G3. cbn [truthy].
  exists T. auto.
Qed.

Lemma text_date_decides_without_link_witness :
  exists v,
    interpret prose_with_date baseline = Ok v /\
    get (L "has_update") v
    = JBool (gt {| year := 2025; month := 10; day := 1 |}
                {| year := 2025; month := 9; day := 13 |}) /\
    get (L "latest_update_date") v = JStr (dashed (L "2025-10-01")) /\
    get (L "document_url") v = JNull.
Proof.
  apply (text_date_decides_without_link prose_with_date baseline
           (L "2025-10-01")
           {| year := 2025; month := 10; day := 1 |}
           {| year := 2025; month := 9; day := 13 |});
    vm_compute; reflexivity.
Defined.

(** Lines 412-440: what the date validation can return. *)
Lemma validate_date_cases parsed B :
  text_or_falsy (get (L "latest_update_date") parsed) ->
  validate_date parsed B = Ok parsed \/
  validate_date parsed B = Ok (set (L "has_update") (JBool false) parsed).
Proof.
  intros Ht. unfold validate_date.
  destruct (truthy (get (L "has_update") parsed)); cbn [andb]; [|auto].
  destruct (truthy (get (L "latest_update_date") parsed)) eqn:Tl; [|auto].
  destruct Ht as [Ht | [s Es]]; [congruence|]. rewrite Es.
  destruct (first_format_str s date_formats) as [[d|] F]; rewrite F;
    cbn [bind]; [|auto].
  destruct (strptime B (L "%Y-%m-%d")).
  - destruct (_ && _); auto.
  - cbn [is_ValueError_or_AttributeError]. destruct (negb _); auto.
Qed.

(** Lines 409-452 on a verdict whose [latest_update_date] and
    [document_url] are strings or count as false. *)
Lemma well_typed_passes (content B : str) (v0 : dict) :
  verdict content B = Ok v0 ->
  text_or_falsy (get (L "latest_update_date") v0) ->
  text_or_falsy (get (L "document_url") v0) ->
  exists v,
    interpret content B = Ok v /\
    (v = v0 \/ v = set (L "has_update") (JBool false) v0).
Proof.
  intros Hv Hl Hd. unfold interpret. rewrite Hv. cbn [bind].
  assert (C : forall v, get (L "document_url") v = get (L "document_url") v0 ->
                        check_document_url v = Ok v).
  { intros v E. unfold check_document_url. rewrite E.
    destruct Hd as [Hd | [s Es]]; [rewrite Hd; reflexivity|].
    rewrite Es. destruct (truthy (JStr s)); reflexivity. }
  destruct (validate_date_cases v0 B Hl) as [V | V]; rewrite V; cbn [bind].
  - exists v0. split; [apply C; reflexivity | auto].
  - eexists. split; [apply C; apply get_set_other; discriminate | auto].
Qed.

(** X15.  Lines 409-452.  A verdict whose [latest_update_date] and
    [document_url] are strings, or count as false, passes the date
    validation and the check of the URL without an exception: it is
    returned, as it was extracted or with [has_update] set to false. *)
Theorem well_typed_verdict_is_returned (content B : str) (v0 : dict) :
  verdict content B = Ok v0 ->
  text_or_falsy (get (L "latest_update_date") v0) ->
  text_or_falsy (get (L "document_url") v0) ->
  exists v,
    interpret content B = Ok v /\
    (v = v0 \/ v = set (L "has_update") (JBool false) v0).
Proof. exact (well_typed_passes content B v0). Qed.

Lemma well_typed_verdict_is_returned_witness :
  exists v,
    interpret update_with_pdf baseline = Ok v /\
    (v = [(L "framework_name", JStr (L "X")); (L "has_update", JBool true);
          (L "latest_update_date", JStr (L "2025-10-01"));
          (L "document_url", JStr (L "https://x.org/upd.pdf"))] \/
     v = set (L "has_update") (JBool false)
           [(L "framework_name", JStr (L "X")); (L "has_update", JBool true);
            (L "latest_update_date", JStr (L "2025-10-01"));
            (L "document_url", JStr (L "https://x.org/upd.pdf"))]).
Proof.
  apply (well_typed_verdict_is_returned update_with_pdf baseline
           [(L "framework_name", JStr (L "X")); (L "has_update", JBool true);
            (L "latest_update_date", JStr (L "2025-10-01"));
            (L "document_url", JStr (L "https://x.org/upd.pdf"))]).
  - vm_compute. reflexivity.
  - right. eexists. reflexivity.
  - right. eexists. reflexivity.
Defined.

(** Lines 387-393: the shape of the verdict synthesised from the text. *)
Lemma text_scan_shape content B :
  exists h d u,
    text_scan content B =
    [(L "has_update", JBool h); (L "latest_update_date", JStr d);
     (L "document_url", u); (L "version", JNull);
     (L "notes", JStr (firstn 300 content))] /\
    text_or_falsy u.
Proof.
  unfold text_scan.
  assert (N : (if 300 <? length content then slice_to 300 content else content)
              = firstn 300 content).
  { destruct (300 <? length content) eqn:E; [reflexivity|].
    apply Nat.ltb_ge in E. symmetry. apply firstn_all2. exact E. }
  rewrite N.
  assert (U : text_or_falsy (opt_value (find_url url_patterns content))).
  { destruct (find_url url_patterns content); [right; eexists|left];
      reflexivity. }
  match goal with
  | |- context [let '(a, b) := ?e in _] => destruct e as [h ld]
  end.
  destruct ld as [[|c s]|]; cbn [some_text opt_value];
    eexists; eexists; eexists; (split; [reflexivity | exact U]).
Qed.

(** X16.  Lines 241-452.  Whenever the verdict is synthesised from the text,
    [query_perplexity_api] has a verdict to return, whatever the text:
    the synthesised verdict, as it is or with [has_update] set to
    false; its [version] is [None] and its [notes] are the first 300
    characters of the answer. *)
Theorem text_scan_verdict_is_returned (content B : str) :
  strict_parse content = Ok None ->
  recover json_patterns content = None ->
  exists v,
    interpret content B = Ok v /\
    (v = text_scan content B \/
     v = set (L "has_update") (JBool false) (text_scan content B)) /\
    get (L "version") v = JNull /\
    get (L "notes") v = JStr (firstn 300 content).
Proof.
  intros Hs Hr.
  destruct (text_scan_shape content B) as [h [d [u [T Hu]]]].
  assert (Hv : verdict content B = Ok (text_scan content B)).
  { unfold verdict, extract. rewrite Hs. cbn [bind]. rewrite Hr. cbn [bind].
    unfold or_no_update. rewrite T. reflexivity. }
  destruct (well_typed_passes content B (text_scan content B) Hv)
    as [v [I V]].
  - rewrite T. right. eexists. reflexivity.
  - rewrite T. exact Hu.
  - exists v. split; [exact I|]. split; [exact V|].
    destruct V as [V | V]; subst v; rewrite T; split; reflexivity.
Qed.

Lemma text_scan_verdict_is_returned_witness :
  exists v,
    interpret prose_with_keywords baseline = Ok v /\
    (v = text_scan prose_with_keywords baseline \/
     v = set (L "has_update") (JBool false)
           (text_scan prose_with_keywords baseline)) /\
    get (L "version") v = JNull /\
    get (L "notes") v = JStr (firstn 300 prose_with_keywords).
Proof.
  apply (text_scan_verdict_is_returned prose_with_keywords baseline);
    vm_compute; reflexivity.
Defined.

(** ** One attempt of the download *)

(** X17.  Lines 580-600.  A request refused with status 403 is repeated once,
    with the alternate headers; the answer of the second request is
    returned if it is good, and otherwise the error of the first request
    is raised, not that of the second.  Any other error status is
    raised after the one request. *)
Theorem forbidden_is_retried_once (w : world) (url : str) (st : state)
    (r1 : reply) :
  http_get w (tick st) url false = Ok r1 ->
  bad_status (status_code r1) = true ->
  _attempt_download w url st =
  if (status_code r1 =? 403)%Z then
    ({| tick := S (S (tick st)); files := files st |},
     match http_get w (S (tick st)) url true with
     | Ok r2 => if bad_status (status_code r2)
                then Raise (HTTPError (status_code r1)) else Ok r2
     | Raise _ => Raise (HTTPError (status_code r1))
     end)
  else ({| tick := S (tick st); files := files st |},
        Raise (HTTPError (status_code r1))).
Proof.
  intros H1 Hb.
  unfold _attempt_download, try_catch, session_get, bindM, external, raiseM, ret.
  rewrite H1, Hb. destruct (status_code r1 =? 403)%Z; [|reflexivity].
  cbn [tick files].
  destruct (http_get w (S (tick st)) url true) as [r2|e]; [|reflexivity].
  destruct (bad_status (status_code r2)); reflexivity.
Qed.

Lemma forbidden_is_retried_once_witness :
  _attempt_download (world_of update_with_pdf (L "NOT_FOUND") forbidden)
    (L "https://x.org/upd.pdf") empty_disk
  = ({| tick := 2; files := files empty_disk |}, Raise (HTTPError 403)).
Proof.
  apply (forbidden_is_retried_once
           (world_of update_with_pdf (L "NOT_FOUND") forbidden)
           (L "https://x.org/upd.pdf") empty_disk
           {| status_code := 403; content_type := L "text/html";
              content_length := Ok 0%Z; chunks := [];
              stream_breaks := false |}); reflexivity.
Defined.

(** ** The referer of the second attempt *)

Lemma join3 a b c : join (L "/") [a; b; c] = a ++ L "/" ++ b ++ L "/" ++ c.
Proof. reflexivity. Qed.

Lemma split_char_cons a : exists w ws, split_char "/" a = w :: ws.
Proof.
  induction a as [|c a [w [ws IH]]]; [exists [], []; reflexivity|].
  simpl. destruct (eqc c "/"); [eexists; eexists; reflexivity|].
  rewrite IH. eexists; eexists; reflexivity.
Qed.

(** X18.  Line 591.  For a URL made of a scheme, two slashes and a host, with
    or without a path after the host, the referer sent with the second
    attempt is the scheme and the host, closed by a slash. *)
Theorem referer_is_base_url (scheme host : str) :
  slash_free scheme = true -> slash_free host = true ->
  referer (scheme ++ L "//" ++ host) = scheme ++ L "//" ++ host ++ L "/" /\
  forall path,
    referer (scheme ++ L "//" ++ host ++ L "/" ++ path)
    = scheme ++ L "//" ++ host ++ L "/".
Proof.
  intros Hs Hh. unfold referer. split.
  - change (scheme ++ L "//" ++ host)
      with (scheme ++ "/"%char :: ([] ++ "/"%char :: host)).
    rewrite (split_char_sep _ _ Hs), (split_char_sep [] _ eq_refl),
      (split_char_free _ Hh).
    cbn [firstn]. rewrite join3. rewrite <- !app_assoc. reflexivity.
  - intros path.
    change (scheme ++ L "//" ++ host ++ L "/" ++ path)
      with (scheme ++ "/"%char :: ([] ++ "/"%char :: (host ++ "/"%char :: path))).
    rewrite (split_char_sep _ _ Hs), (split_char_sep [] _ eq_refl),
      (split_char_sep _ _ Hh).
    destruct (split_char_cons path) as [w [ws E]]. rewrite E.
    cbn [firstn]. rewrite join3. rewrite <- !app_assoc. reflexivity.
Qed.

Lemma referer_is_base_url_witness :
  referer (L "https://x.org") = L "https://x.org/" /\
  forall path, referer (L "https://x.org/" ++ path) = L "https://x.org/".
Proof.
  apply (referer_is_base_url (L "https:") (L "x.org")); reflexivity.
Defined.

(** ** The acquisition engine: requests, retries and failures *)

Lemma session_get_state w url a st :
  exists r, session_get w url a st
            = ({| tick := S (tick st); files := files st |}, r).
Proof.
  unfold session_get, bindM, external, raiseM, ret.
  destruct (http_get w (tick st) url a) as [resp|e]; [|eexists; reflexivity].
  destruct (bad_status (status_code resp)); eexists; reflexivity.
Qed.

(** Lines 554-602: one attempt makes one request, or two after a 403,
    and touches no file. *)
Lemma attempt_state w url st :
  exists st' r,
    _attempt_download w url st = (st', r) /\
    files st' = files st /\ tick st < tick st' <= tick st + 2.
Proof.
  unfold _attempt_download, try_catch.
  destruct (session_get_state w url false st) as [r E]. rewrite E.
  destruct r as [resp|e].
  { eexists; eexists. split; [reflexivity|]. simpl. split; [reflexivity | lia]. }
  destruct e; try (eexists; eexists; split; [reflexivity|]; simpl;
                   split; [reflexivity | lia]).
  destruct (status =? 403)%Z;
    [|eexists; eexists; split; [reflexivity|]; simpl; split; [reflexivity | lia]].
  destruct (session_get_state w url true
              {| tick := S (tick st); files := files st |}) as [r2 E2].
  rewrite E2. destruct r2; eexists; eexists; (split; [reflexivity|]); simpl;
    (split; [reflexivity | lia]).
Qed.

Lemma resolver_state w page fn key st :
  exists r, find_actual_pdf_url w page fn key st
            = ({| tick := S (tick st); files := files st |}, Ok r).
Proof.
  unfold find_actual_pdf_url, try_catch, bindM, external, lift, ret.
  destruct (post w (tick st) (PdfQuery page fn)) as [reply|e];
    [|eexists; reflexivity].
  destruct (message_content reply) as [c|e]; [|eexists; reflexivity].
  destruct (pick_pdf_url c) as [r|e]; eexists; reflexivity.
Qed.

Lemma resolver_some w page fn key st st' u :
  find_actual_pdf_url w page fn key st = (st', Ok (Some u)) ->
  direct_pdf_url u.
Proof.
  unfold find_actual_pdf_url, try_catch, bindM, external, lift, ret.
  destruct (post w (tick st) (PdfQuery page fn)) as [reply|e];
    [|discriminate].
  destruct (message_content reply) as [c|e]; [|discriminate].
  destruct (pick_pdf_url c) as [[url|]|e] eqn:Pk; try discriminate.
  intros H. inversion H; subst.
  destruct c; try discriminate.
  apply pick_pdf_url_sound in Pk. exact (proj1 Pk).
Qed.

(** A direct PDF link passes the checks of lines 614 and 644. *)
Lemma direct_pdf_guards u :
  direct_pdf_url u ->
  eqs u [] = false /\ is_pdf_name u = true /\ eqs u (L "NOT_FOUND") = false.
Proof.
  intros [s [body [E _]]]. subst u. repeat split.
  - unfold is_pdf_name, lower. apply endswith_app.
    exists (map lower_char (L "http" ++ s ++ L "://" ++ body)).
    rewrite !map_app, <- !app_assoc. reflexivity.
Qed.

(** X19.  Lines 609-625.  For a document URL that does not end in [.pdf], and
    with an API key, the URL to fetch is exactly what
    [find_actual_pdf_url] returns: the checks of line 614 never reject
    a link the resolver returned, and without a link the download is
    given up. *)
Theorem resolved_url_is_taken (w : world) (fn url : str) (key : option str)
    (st : state) :
  is_pdf_name url = false -> key_given key = true ->
  choose_url w fn url key st
  = find_actual_pdf_url w url fn (key_text key) st.
Proof.
  intros Hp Hk. unfold choose_url. rewrite Hp, Hk. cbn [negb].
  unfold bindM.
  destruct (find_actual_pdf_url w url fn (key_text key) st)
    as [st' [[u|]|e]] eqn:F; try reflexivity.
  apply resolver_some in F. apply direct_pdf_guards in F.
  destruct F as [F1 [F2 F3]]. rewrite F1, F2, F3. reflexivity.
Qed.

Lemma resolved_url_is_taken_witness :
  choose_url (world_of update_with_pdf chatty_pdf_answer offline) (L "X")
    (L "https://x.org/page") (Some (L "key")) empty_disk
  = find_actual_pdf_url (world_of update_with_pdf chatty_pdf_answer offline)
      (L "https://x.org/page") (L "X") (key_text (Some (L "key"))) empty_disk.
Proof.
  apply (resolved_url_is_taken
           (world_of update_with_pdf chatty_pdf_answer offline) (L "X")
           (L "https://x.org/page") (Some (L "key")) empty_disk);
    reflexivity.
Defined.

Lemma retry_loop_steps w fn url key : forall fuel rc u st,
  rc + fuel = max_retries -> 1 <= fuel ->
  exists st' r,
    retry_loop w fuel fn url key rc u st = (st', r) /\
    r <> Ok None /\ files st' = files st /\
    tick st < tick st' <= tick st + 3 * fuel - 1.
Proof.
  unfold max_retries.
  induction fuel as [|fuel IH]; intros rc u st Hs Hf; [lia|].
  cbn [retry_loop]. unfold max_retries.
  assert (R : (rc <? 3) = true) by (apply Nat.ltb_lt; lia). rewrite R.
  unfold try_catch at 1. unfold bindM at 1.
  destruct (attempt_state w u st) as [st1 [r1 [A [F1 T1]]]]. rewrite A.
  destruct r1 as [resp|e].
  { eexists; eexists. split; [reflexivity|]. split; [discriminate|].
    split; [exact F1 | lia]. }
  change (3 - 1) with 2.
  assert (Next : forall u2 st2, files st2 = files st ->
            tick st < tick st2 <= tick st + 3 ->
            (rc <? 2) = true ->
            exists st' r,
              retry_loop w fuel fn url key (S rc) u2 st2 = (st', r) /\
              r <> Ok None /\ files st' = files st /\
              tick st < tick st' <= tick st + 3 * S fuel - 1).
  { intros u2 st2 F2 T2 Hr. apply Nat.ltb_lt in Hr.
    destruct (IH (S rc) u2 st2) as [st' [r [E [N [F T]]]]]; [lia | lia|].
    exists st', r. split; [exact E|]. split; [exact N|].
    split; [congruence | lia]. }
  assert (Give : exists st' r,
            (if 2 <=? rc then raiseM e
             else retry_loop w fuel fn url key (S rc) u) st1 = (st', r) /\
            r <> Ok None /\ files st' = files st /\
            tick st < tick st' <= tick st + 3 * S fuel - 1).
  { destruct (2 <=? rc) eqn:G.
    - exists st1, (Raise e). split; [reflexivity|]. split; [discriminate|].
      split; [exact F1 | lia].
    - apply Nat.leb_gt in G. apply Next; [exact F1 | lia|].
      apply Nat.ltb_lt. exact G. }
  destruct e; try exact Give.
  destruct ((status =? 403)%Z && key_given key && (rc <? 2)) eqn:C;
    [|exact Give].
  apply andb_prop in C. destruct C as [_ Hr].
  unfold bindM.
  destruct (resolver_state w url fn (key_text key) st1) as [alt E]. rewrite E.
  assert (F2 : files {| tick := S (tick st1); files := files st1 |} = files st)
    by exact F1.
  assert (T2 : tick st < tick {| tick := S (tick st1); files := files st1 |}
               <= tick st + 3) by (simpl; lia).
  rewrite Hr.
  destruct alt as [a|]; [destruct (_ && _)|]; apply Next; assumption.
Qed.

(** X20.  Lines 632-676.  The retry loop ends with a response or with an
    exception, never without either; between the three attempts, the
    two requests each may make and the two calls of the resolver, it
    makes at least one and at most eight external calls; and it touches
    no file. *)
Theorem retry_loop_is_bounded (w : world) (fn url : str) (key : option str)
    (u : str) (st : state) :
  exists st' r,
    retry_loop w max_retries fn url key 0 u st = (st', r) /\
    r <> Ok None /\ files st' = files st /\
    tick st < tick st' <= tick st + 8.
Proof.
  destruct (retry_loop_steps w fn url key max_retries 0 u st)
    as [st' [r [E [N [F T]]]]]; [reflexivity | unfold max_retries; lia|].
  exists st', r. unfold max_retries in T. repeat split; auto; lia.
Qed.

(** X21.  Lines 540-551 and 604-804.  Without a document URL
    [download_document] returns [None] at once.  With one, it raises
    only what the preparation of the download directory raises (lines
    544-551 lie outside the [try]); once the directory is there, it
    returns, whatever the requests, the file system and the upload
    do. *)
Theorem download_raises_only_from_setup (w : world) (fn : str) (url : value)
    (dir : str) (key : option str) (sim : bool) (st : state) :
  if truthy url then
    match target_dir w dir sim with
    | Ok d => exists st' v,
        download_document w fn url dir key sim st = (st', Ok v)
    | Raise e => download_document w fn url dir key sim st = (st, Raise e)
    end
  else download_document w fn url dir key sim st = (st, Ok JNull).
Proof.
  unfold download_document. destruct (truthy url); cbn [negb]; [|reflexivity].
  unfold bindM at 1. unfold lift at 1.
  destruct (target_dir w dir sim) as [d|e]; [|reflexivity].
  unfold try_catch.
  match goal with
  | |- context [let (st', r) := ?c st in _] =>
      destruct (c st) as [st' [v|e]]
  end; eexists; eexists; reflexivity.
Qed.

(** X22.  Lines 663-669 and 793-798.  When every request fails with an
    exception that is not an HTTP error (the host cannot be reached,
    say), the same URL is tried three times, the exception of the third
    attempt ends the loop, and [download_document] returns [None]; no
    file is made. *)
Theorem failed_requests_are_tried_three_times (w : world) (fn url dir : str)
    (key : option str) (sim : bool) (d : str) (e : exn) (st : state) :
  (forall t u a, http_get w t u a = Raise e) -> is_HTTPError e = false ->
  is_pdf_name url = true -> target_dir w dir sim = Ok d ->
  retry_loop w max_retries fn url key 0 url st
    = ({| tick := 3 + tick st; files := files st |}, Raise e) /\
  download_document w fn (JStr url) dir key sim st
    = ({| tick := 3 + tick st; files := files st |}, Ok JNull).
Proof.
  intros Hg He Hp Hd.
  assert (A : forall u s, _attempt_download w u s
                = ({| tick := S (tick s); files := files s |}, Raise e)).
  { intros u s. unfold _attempt_download, try_catch, session_get, bindM,
      external, raiseM. rewrite Hg.
    destruct e; try reflexivity. simpl in He. discriminate He. }
  assert (R : retry_loop w max_retries fn url key 0 url st
              = ({| tick := 3 + tick st; files := files st |}, Raise e)).
  { assert (Step : forall fuel rc s, rc < 2 ->
      retry_loop w (S fuel) fn url key rc url s
      = retry_loop w fuel fn url key (S rc) url
          {| tick := S (tick s); files := files s |}).
    { intros fuel rc s Hr. cbn [retry_loop]. unfold max_retries.
      rewrite (proj2 (Nat.ltb_lt rc 3)) by lia.
      unfold try_catch at 1. unfold bindM at 1. rewrite A.
      change (3 - 1) with 2. rewrite (proj2 (Nat.leb_gt 2 rc)) by lia.
      destruct e; try reflexivity. simpl in He. discriminate He. }
    assert (Last : forall s,
      retry_loop w 1 fn url key 2 url s
      = ({| tick := S (tick s); files := files s |}, Raise e)).
    { intros s. cbn [retry_loop]. unfold max_retries.
      cbn [Nat.ltb Nat.leb Nat.sub].
      unfold try_catch at 1. unfold bindM at 1. rewrite A.
      destruct e; try reflexivity. simpl in He. discriminate He. }
    unfold max_retries. rewrite !Step by lia. rewrite Last. reflexivity. }
  split; [exact R|].
  unfold download_document.
  assert (Tu : truthy (JStr url) = true).
  { destruct url; [discriminate | reflexivity]. }
  rewrite Tu. cbn [negb]. unfold bindM at 1. unfold lift at 1. rewrite Hd.
  unfold try_catch, bindM, choose_url. rewrite Hp. cbn [negb]. unfold ret at 1.
  rewrite R. reflexivity.
Qed.

Lemma failed_requests_are_tried_three_times_witness :
  retry_loop (world_of update_with_pdf (L "NOT_FOUND") offline) max_retries
    (L "X") (L "https://x.org/upd.pdf") (Some (L "key")) 0
    (L "https://x.org/upd.pdf") empty_disk
    = ({| tick := 3; files := files empty_disk |}, Raise RequestError) /\
  download_document (world_of update_with_pdf (L "NOT_FOUND") offline)
    (L "X") (JStr (L "https://x.org/upd.pdf")) (L "downloads")
    (Some (L "key")) true empty_disk
    = ({| tick := 3; files := files empty_disk |}, Ok JNull).
Proof.
  apply (failed_requests_are_tried_three_times
           (world_of update_with_pdf (L "NOT_FOUND") offline)
           (L "X") (L "https://x.org/upd.pdf") (L "downloads")
           (Some (L "key")) true (L "/srv/media/change_management")
           RequestError empty_disk); reflexivity.
Defined.

(** X23.  Lines 678-777.  A response that arrived in full, starts with the
    PDF signature and is within the ceiling is stored: the document is
    at its permanent [.pdf] name with the bytes received, the temporary
    file is gone, no other file is touched, and what is returned, the
    path or the record of the upload, names that path, whether or not
    the upload succeeded. *)
Theorem accepted_download_is_stored (w : world) (fn url dir : str)
    (key : option str) (sim : bool) (d u : str) (st st1 st2 : state)
    (response : reply) (n : Z) :
  url <> [] ->
  target_dir w dir sim = Ok d ->
  choose_url w fn url key st = (st1, Ok (Some u)) ->
  retry_loop w max_retries fn url key 0 u st1 = (st2, Ok (Some response)) ->
  content_length response = Ok n -> stream_breaks response = false ->
  bread 4 (written (chunks response)) = pdf_magic ->
  too_large (blen (written (chunks response))) = false ->
  exists st3 v,
    download_document w fn (JStr url) dir key sim st = (st3, Ok v) /\
    (v = JStr (pdf_path fn d (now w (tick st2))) \/
     exists dd, v = JDict dd /\
                get (L "local_path") dd = JStr (pdf_path fn d (now w (tick st2)))) /\
    tick st3 = S (tick st2) /\
    files st3 (pdf_path fn d (now w (tick st2)))
      = Some (written (chunks response)) /\
    files st3 (temp_path fn d (now w (tick st2))) = None /\
    (forall q, q <> pdf_path fn d (now w (tick st2)) ->
               q <> temp_path fn d (now w (tick st2)) ->
               files st3 q = files st2 q) /\
    is_pdf_name (pdf_path fn d (now w (tick st2))) = true.
Proof.
  intros Hu Hd Hc Hf Hl Hs Hm Hz.
  assert (Em : eqs (bread 4 (written (chunks response))) pdf_magic = true)
    by (apply eqs_true; exact Hm).
  destruct (download_accepted w fn url dir key sim d u st st1 st2 response n
              Hu Hd Hc Hf Hl Hs Em Hz) as [v [E [_ V]]].
  eexists; exists v. split; [exact E|]. split; [exact V|].
  cbn [tick files]. split; [reflexivity|]. split; [apply upd_same|].
  split; [|split; [|apply pdf_path_is_pdf]].
  - rewrite upd_other by (intros C; symmetry in C; revert C; apply pdf_not_temp).
    apply upd_same.
  - intros q Hq1 Hq2. rewrite !upd_other by assumption. reflexivity.
Qed.

Lemma accepted_download_is_stored_witness :
  exists st3 v,
    download_document (world_of update_with_pdf (L "NOT_FOUND") (served small_pdf))
      (L "X") (JStr (L "https://x.org/upd.pdf")) (L "downloads")
      (Some (L "key")) true empty_disk = (st3, Ok v) /\
    (v = JStr (L "/srv/media/change_management/X_20251103_120000.pdf") \/
     exists dd, v = JDict dd /\
                get (L "local_path") dd
                = JStr (L "/srv/media/change_management/X_20251103_120000.pdf")) /\
    tick st3 = 2 /\
    files st3 (L "/srv/media/change_management/X_20251103_120000.pdf")
      = Some (written small_pdf) /\
    files st3 (L "/srv/media/change_management/X_20251103_120000.tmp") = None /\
    (forall q, q <> L "/srv/media/change_management/X_20251103_120000.pdf" ->
               q <> L "/srv/media/change_management/X_20251103_120000.tmp" ->
               files st3 q = None) /\
    is_pdf_name (L "/srv/media/change_management/X_20251103_120000.pdf") = true.
Proof.
  apply (accepted_download_is_stored
           (world_of update_with_pdf (L "NOT_FOUND") (served small_pdf))
           (L "X") (L "https://x.org/upd.pdf") (L "downloads")
           (Some (L "key")) true
           (L "/srv/media/change_management") (L "https://x.org/upd.pdf")
           empty_disk empty_disk
           {| tick := 1; files := fun _ => None |}
           {| status_code := 200; content_type := L "application/pdf";
              content_length := Ok 0%Z; chunks := small_pdf;
              stream_breaks := false |} 0%Z);
    try (vm_compute; reflexivity).
  discriminate.
Defined.


(** X24.  Lines 688-697 and 793-804.  A download that cannot be received in
    full is given up with [None]: when the declared length is not a
    number, before anything is written; when the stream breaks, after
    the bytes received so far were written, and then the temporary
    file is left behind, holding those bytes. *)
Theorem interrupted_download_leaves_temp_file (w : world) (fn url dir : str)
    (key : option str) (sim : bool) (d u : str) (st st1 st2 : state)
    (response : reply) :
  url <> [] ->
  target_dir w dir sim = Ok d ->
  choose_url w fn url key st = (st1, Ok (Some u)) ->
  retry_loop w max_retries fn url key 0 u st1 = (st2, Ok (Some response)) ->
  match content_length response with
  | Raise _ =>
      download_document w fn (JStr url) dir key sim st = (st2, Ok JNull)
  | Ok _ =>
      stream_breaks response = true ->
      download_document w fn (JStr url) dir key sim st =
      ({| tick := tick st2;
          files := upd (temp_path fn d (now w (tick st2)))
                       (Some (written (chunks response))) (files st2) |},
       Ok JNull)
  end.
Proof.
  intros Hu Hd Hc Hf.
  rewrite (download_after_fetch w fn url dir key sim d u st st1 st2 response
             Hu Hd Hc Hf).
  unfold store, bindM, lift, write_file, raiseM.
  destruct (content_length response) as [n|e]; [|reflexivity].
  intros Hb. rewrite Hb. reflexivity.
Qed.

Lemma interrupted_download_leaves_temp_file_witness :
  download_document (world_of update_with_pdf (L "NOT_FOUND") cut_off)
    (L "X") (JStr (L "https://x.org/upd.pdf")) (L "downloads")
    (Some (L "key")) true empty_disk
  = ({| tick := 1;
        files := upd (L "/srv/media/change_management/X_20251103_120000.tmp")
                     (Some (written [of_text (L "%PDF-1.7 am")]))
                     (fun _ => None) |},
     Ok JNull).
Proof.
  refine (interrupted_download_leaves_temp_file
            (world_of update_with_pdf (L "NOT_FOUND") cut_off)
            (L "X") (L "https://x.org/upd.pdf") (L "downloads")
            (Some (L "key")) true
            (L "/srv/media/change_management") (L "https://x.org/upd.pdf")
            empty_disk empty_disk
            {| tick := 1; files := fun _ => None |}
            {| status_code := 200; content_type := L "application/pdf";
               content_length := Ok 0%Z; chunks := [of_text (L "%PDF-1.7 am")];
               stream_breaks := true |} _ _ _ _ _);
    try (vm_compute; reflexivity).
  discriminate.
Defined.

(** ** Which URLs are requested *)

Section Fetch.

Variable w : world.
Variable g : nat -> str -> bool -> result reply.
Variables fn url : str.
Variable key : option str.

Hypothesis same_on_pdf :
  forall t u a, is_pdf_name u = true -> g t u a = http_get w t u a.

Lemma session_same u a st :
  is_pdf_name u = true ->
  session_get (with_http_get w g) u a st = session_get w u a st.
Proof.
  intros H. unfold session_get, bindM, external.
  cbn [http_get with_http_get]. rewrite (same_on_pdf _ _ _ H). reflexivity.
Qed.

Lemma attempt_same u st :
  is_pdf_name u = true ->
  _attempt_download (with_http_get w g) u st = _attempt_download w u st.
Proof.
  intros H. unfold _attempt_download, try_catch.
  rewrite (session_same _ _ _ H).
  destruct (session_get w u false st) as [st1 [resp|e]]; [reflexivity|].
  destruct e; try reflexivity.
  destruct (status =? 403)%Z; [|reflexivity].
  rewrite (session_same _ _ _ H). reflexivity.
Qed.

Lemma retry_same : forall fuel rc u st,
  is_pdf_name u = true ->
  retry_loop (with_http_get w g) fuel fn url key rc u st
  = retry_loop w fuel fn url key rc u st.
Proof.
  induction fuel as [|fuel IH]; intros rc u st Hu; [reflexivity|].
  cbn [retry_loop]. destruct (rc <? max_retries); [|reflexivity].
  unfold try_catch, bindM.
  rewrite (attempt_same _ _ Hu).
  destruct (_attempt_download w u st) as [st1 [resp|e]]; [reflexivity|].
  assert (Give : (if max_retries - 1 <=? rc then raiseM e
                  else retry_loop (with_http_get w g) fuel fn url key (S rc) u)
                   st1
                 = (if max_retries - 1 <=? rc then raiseM e
                    else retry_loop w fuel fn url key (S rc) u) st1).
  { destruct (max_retries - 1 <=? rc); [reflexivity | apply IH; exact Hu]. }
  destruct e; try exact Give.
  destruct ((status =? 403)%Z && key_given key && (rc <? max_retries - 1));
    [|exact Give].
  change (find_actual_pdf_url (with_http_get w g) url fn (key_text key) st1)
    with (find_actual_pdf_url w url fn (key_text key) st1).
  destruct (find_actual_pdf_url w url fn (key_text key) st1)
    as [st2 [[a|]|e']]; [| |reflexivity].
  - destruct (negb (eqs a []) && is_pdf_name a && negb (eqs a u)) eqn:C.
    + apply andb_prop in C. destruct C as [C _].
      apply andb_prop in C. destruct C as [_ C]. apply IH. exact C.
    + destruct (rc <? max_retries - 1); [apply IH; exact Hu|].
      destruct (max_retries - 1 <=? rc); [reflexivity | apply IH; exact Hu].
  - destruct (rc <? max_retries - 1); [apply IH; exact Hu|].
    destruct (max_retries - 1 <=? rc); [reflexivity | apply IH; exact Hu].
Qed.

Lemma choose_url_pdf st st1 u :
  choose_url w fn url key st = (st1, Ok (Some u)) -> is_pdf_name u = true.
Proof.
  unfold choose_url. destruct (is_pdf_name url) eqn:P; cbn [negb].
  - unfold ret. intros H. inversion H; subst. exact P.
  - destruct (key_given key); [|discriminate]. unfold bindM.
    destruct (find_actual_pdf_url w url fn (key_text key) st)
      as [st2 [[a|]|e]]; try discriminate.
    destruct (negb (eqs a []) && is_pdf_name a && negb (eqs a (L "NOT_FOUND")))
      eqn:C; [|discriminate].
    unfold ret. intros H. inversion H; subst.
    apply andb_prop in C. destruct C as [C _].
    apply andb_prop in C. destruct C as [_ C]. exact C.
Qed.

End Fetch.

(** X25.  Lines 608-648.  Every URL that [download_document] requests ends in
    [.pdf], in whatever case: the outcome of the download is the same
    in any two worlds that answer alike the requests for such URLs. *)
Theorem only_pdf_urls_are_fetched (w : world)
    (g : nat -> str -> bool -> result reply) (fn : str) (url : value)
    (dir : str) (key : option str) (sim : bool) (st : state) :
  (forall t u a, is_pdf_name u = true -> g t u a = http_get w t u a) ->
  download_document (with_http_get w g) fn url dir key sim st
  = download_document w fn url dir key sim st.
Proof.
  intros H. unfold download_document.
  destruct (negb (truthy url)); [reflexivity|].
  unfold try_catch, bindM, lift.
  change (target_dir (with_http_get w g) dir sim) with (target_dir w dir sim).
  destruct (target_dir w dir sim) as [d|e]; [|reflexivity].
  destruct url as [| | | |s| |]; try reflexivity.
  change (choose_url (with_http_get w g) fn s key st)
    with (choose_url w fn s key st).
  destruct (choose_url w fn s key st) as [st1 [[u|]|e]] eqn:C;
    try reflexivity.
  apply choose_url_pdf in C.
  rewrite (retry_same w g fn s key H _ _ _ _ C).
  destruct (retry_loop w max_retries fn s key 0 u st1) as [st2 [r|e]];
    reflexivity.
Qed.

Lemma only_pdf_urls_are_fetched_witness :
  download_document
    (with_http_get
       (world_of update_with_pdf (L "NOT_FOUND") (served small_pdf))
       (fun t u a => if is_pdf_name u then served small_pdf t u a
                     else Raise RequestError))
    (L "X") (JStr (L "https://x.org/upd.pdf")) (L "downloads")
    (Some (L "key")) true empty_disk
  = download_document
      (world_of update_with_pdf (L "NOT_FOUND") (served small_pdf))
      (L "X") (JStr (L "https://x.org/upd.pdf")) (L "downloads")
      (Some (L "key")) true empty_disk.
Proof.
  apply (only_pdf_urls_are_fetched
           (world_of update_with_pdf (L "NOT_FOUND") (served small_pdf))
           (fun t u a => if is_pdf_name u then served small_pdf t u a
                         else Raise RequestError)).
  intros t u a H. rewrite H. reflexivity.
Defined.

(** ** Names and paths of the stored document *)

Lemma replace_char_one a b s :
  replace_char a [b] s = map (fun c => if eqc c a then b else c) s.
Proof.
  unfold replace_char. induction s as [|c s IH]; [reflexivity|].
  simpl. rewrite IH. destruct (eqc c a); reflexivity.
Qed.

Lemma safe_name_map fn :
  safe_name fn =
  map (fun c => if eqc c " " || eqc c "/" || eqc c bslash then "_"%char else c)
      fn.
Proof.
  unfold safe_name. change (L "_") with ["_"%char].
  rewrite !replace_char_one, !map_map. apply map_ext. intros c.
  destruct (eqc c " ") eqn:E1; [reflexivity|].
  destruct (eqc c "/") eqn:E2; [reflexivity|].
  destruct (eqc c bslash) eqn:E3; reflexivity.
Qed.

(** Line 683: the name made of the framework name has no space, no
    slash and no backslash. *)
Lemma safe_name_chars fn c :
  In c (safe_name fn) ->
  eqc c " " = false /\ eqc c "/" = false /\ eqc c bslash = false.
Proof.
  rewrite safe_name_map. intros H. apply in_map_iff in H.
  destruct H as [x [E _]]. subst c.
  destruct (eqc x " ") eqn:E1; [repeat split; reflexivity|].
  destruct (eqc x "/") eqn:E2; [repeat split; reflexivity|].
  destruct (eqc x bslash) eqn:E3; [repeat split; reflexivity|].
  cbn [orb]. auto.
Qed.

Lemma safe_name_slash_free fn : slash_free (safe_name fn) = true.
Proof.
  unfold slash_free. apply forallb_forall. intros c H.
  apply safe_name_chars in H. destruct H as [_ [H _]]. rewrite H. reflexivity.
Qed.

Lemma slash_free_app a b :
  slash_free (a ++ b) = slash_free a && slash_free b.
Proof. unfold slash_free. apply forallb_app. Qed.

Lemma slash_free_relative s rest :
  slash_free s = true -> startswith (L "/") (s ++ "_"%char :: rest) = false.
Proof.
  destruct s as [|c s]; [reflexivity|]. intros H.
  unfold slash_free in H. cbn [forallb] in H.
  apply andb_prop in H. destruct H as [H _]. apply negb_true_iff in H.
  change (startswith (L "/") ((c :: s) ++ "_"%char :: rest))
    with (eqc "/" c && true).
  rewrite eqc_sym, H. reflexivity.
Qed.

(** X26.  Lines 683-685 and 732-733.  Whatever the framework name, the
    temporary file and the stored document are made directly in the
    download directory: the name built from the framework name and the
    timestamp is never taken as an absolute path, and it contains no
    slash when the timestamp has none. *)
Theorem stored_under_download_dir (fn d ts : str) :
  slash_free ts = true ->
  exists sepr,
    (sepr = [] \/ sepr = L "/") /\
    pdf_path fn d ts = d ++ sepr ++ pdf_name fn ts /\
    temp_path fn d ts = d ++ sepr ++ safe_name fn ++ L "_" ++ ts ++ L ".tmp" /\
    slash_free (pdf_name fn ts) = true /\
    length (safe_name fn) = length fn.
Proof.
  intros Ht. unfold pdf_path, temp_path, pdf_name, path_join.
  change (L "_" ++ ts ++ L ".pdf") with ("_"%char :: (ts ++ L ".pdf")).
  change (L "_" ++ ts ++ L ".tmp") with ("_"%char :: (ts ++ L ".tmp")).
  rewrite !(slash_free_relative _ _ (safe_name_slash_free fn)).
  assert (S : slash_free (safe_name fn ++ "_"%char :: ts ++ L ".pdf") = true).
  { rewrite slash_free_app, safe_name_slash_free.
    change ("_"%char :: ts ++ L ".pdf") with (L "_" ++ ts ++ L ".pdf").
    rewrite !slash_free_app, Ht. reflexivity. }
  assert (Ln : length (safe_name fn) = length fn)
    by (rewrite safe_name_map; apply length_map).
  destruct (eqs d [] || endswith (L "/") d).
  - exists []. repeat split; auto.
  - exists (L "/"). repeat split; auto.
Qed.

Lemma stored_under_download_dir_witness :
  exists sepr,
    (sepr = [] \/ sepr = L "/") /\
    pdf_path (L "ISO/IEC 27001") (L "/srv/media/change_management")
             (L "20251103_120000")
    = L "/srv/media/change_management" ++ sepr
      ++ pdf_name (L "ISO/IEC 27001") (L "20251103_120000") /\
    temp_path (L "ISO/IEC 27001") (L "/srv/media/change_management")
              (L "20251103_120000")
    = L "/srv/media/change_management" ++ sepr
      ++ safe_name (L "ISO/IEC 27001") ++ L "_" ++ L "20251103_120000"
      ++ L ".tmp" /\
    slash_free (pdf_name (L "ISO/IEC 27001") (L "20251103_120000")) = true /\
    length (safe_name (L "ISO/IEC 27001")) = length (L "ISO/IEC 27001").
Proof.
  apply (stored_under_download_dir (L "ISO/IEC 27001")
           (L "/srv/media/change_management") (L "20251103_120000")).
  reflexivity.
Defined.

(** ** The orchestrator: when nothing is downloaded or processed *)

(** X27.  Lines 845 and 906-915.  When the verdict denies an update or names
    no document, nothing is requested, stored or processed: the result
    is the verdict with [downloaded_path] set to [None], and the state
    is the one the query left. *)
Theorem no_update_no_download (w : world) (fn B key : str)
    (dir : option str) (fid : option Z) (pa sim : bool)
    (st0 st1 : state) (info : dict) :
  query_perplexity_api w fn B key st0 = (st1, Ok info) ->
  truthy (get (L "has_update") info) && truthy (get (L "document_url") info)
    = false ->
  run_framework_update_check w fn B key dir fid pa sim st0
  = (st1, Ok (set (L "downloaded_path") JNull info)).
Proof.
  intros Hq Hg. rewrite run_unfold, Hq. unfold acquire. rewrite Hg.
  reflexivity.
Qed.

Lemma no_update_no_download_witness :
  run_framework_update_check
    (world_of no_update_with_pdf (L "NOT_FOUND") (served small_pdf))
    (L "X") baseline (L "key") None None false true empty_disk
  = ({| tick := 1; files := fun _ => None |},
     Ok (set (L "downloaded_path") JNull
           [(L "has_update", JBool false);
            (L "latest_update_date", JStr (L "2025-10-01"));
            (L "document_url", JStr (L "https://x.org/upd.pdf"))])).
Proof.
  apply (no_update_no_download
           (world_of no_update_with_pdf (L "NOT_FOUND") (served small_pdf))
           (L "X") baseline (L "key") None None false true empty_disk).
  - vm_compute. reflexivity.
  - reflexivity.
Defined.

(** X28.  Lines 866-868.  The amendment processor is called only on request:
    unless [process_amendment] is set and a non-zero [framework_id] is
    given, the outcome of [run_framework_update_check] is the same
    whatever the processor would do. *)
Theorem processing_is_opt_in (w : world)
    (p : nat -> str -> str -> Z -> value -> str -> result value)
    (fn B key : str) (dir : option str) (fid : option Z) (pa sim : bool)
    (st : state) :
  pa && opt_nonzero fid = false ->
  run_framework_update_check (with_processor w p) fn B key dir fid pa sim st
  = run_framework_update_check w fn B key dir fid pa sim st.
Proof.
  intros H. rewrite !run_unfold.
  change (query_perplexity_api (with_processor w p) fn B key st)
    with (query_perplexity_api w fn B key st).
  destruct (query_perplexity_api w fn B key st) as [st1 [info|e]];
    [|reflexivity].
  assert (A : acquire (with_processor w p) fn B key info dir fid pa sim st1
              = acquire w fn B key info dir fid pa sim st1).
  { unfold acquire. rewrite H. cbn [andb].
    destruct (_ && _); reflexivity. }
  rewrite A. reflexivity.
Qed.

Lemma processing_is_opt_in_witness :
  run_framework_update_check
    (with_processor
       (world_of update_with_pdf (L "NOT_FOUND") (served small_pdf))
       (fun _ _ _ _ _ _ => Ok (JDict [(L "success", JBool true)])))
    (L "X") baseline (L "key") None (Some 7%Z) false true empty_disk
  = run_framework_update_check
      (world_of update_with_pdf (L "NOT_FOUND") (served small_pdf))
      (L "X") baseline (L "key") None (Some 7%Z) false true empty_disk.
Proof.
  apply (processing_is_opt_in
           (world_of update_with_pdf (L "NOT_FOUND") (served small_pdf))
           (fun _ _ _ _ _ _ => Ok (JDict [(L "success", JBool true)]))
           (L "X") baseline (L "key") None (Some 7%Z) false true empty_disk).
  reflexivity.
Defined.

(** ** The orchestrator: what the result reports *)

(** X29.  Lines 856-864 and 912-921.  Without processing, the result is the
    verdict and what the download returned: for a path, the path as
    [downloaded_path]; for the record of an upload, its [local_path] as
    [downloaded_path] and its [s3_url], [s3_key] and [stored_name]; for
    [None], [downloaded_path] set to [None]. *)
Theorem download_outcome_is_reported (w : world) (fn B key : str)
    (dir : option str) (fid : option Z) (sim : bool)
    (st0 st1 st2 : state) (info : dict) (v : value) :
  query_perplexity_api w fn B key st0 = (st1, Ok info) ->
  truthy (get (L "has_update") info) && truthy (get (L "document_url") info)
    = true ->
  download_document w fn (get (L "document_url") info)
    (if some_text dir then key_text dir else L "downloads") (Some key) sim st1
    = (st2, Ok v) ->
  run_framework_update_check w fn B key dir fid false sim st0 =
  (st2,
   Ok (if truthy v then
         match v with
         | JDict d =>
             set (L "s3_stored_name") (get (L "stored_name") d)
               (set (L "s3_key") (get (L "s3_key") d)
                  (set (L "s3_url") (get (L "s3_url") d)
                     (set (L "downloaded_path") (get (L "local_path") d) info)))
         | _ => set (L "downloaded_path") v info
         end
       else set (L "downloaded_path") JNull info)).
Proof.
  intros Hq Hg Hd. rewrite run_unfold, Hq. unfold acquire. rewrite Hg.
  unfold try_catch, bindM. rewrite Hd. cbn [andb].
  destruct (truthy v) eqn:Tv; [|reflexivity].
  destruct v; try reflexivity.
  unfold ret, assemble. rewrite Tv. reflexivity.
Qed.

Lemma download_outcome_is_reported_witness :
  run_framework_update_check
    (with_s3_upload
       (world_of update_with_pdf (L "NOT_FOUND") (served small_pdf))
       stored_in_s3)
    (L "X") baseline (L "key") None None false true empty_disk
  = ({| tick := 3;
        files := upd (L "/srv/media/change_management/X_20251103_120000.pdf")
                   (Some (written small_pdf))
                   (upd (L "/srv/media/change_management/X_20251103_120000.tmp")
                      None
                      (upd (L "/srv/media/change_management/X_20251103_120000.tmp")
                         (Some (written small_pdf)) (fun _ => None))) |},
     Ok [(L "framework_name", JStr (L "X")); (L "has_update", JBool true);
         (L "latest_update_date", JStr (L "2025-10-01"));
         (L "document_url", JStr (L "https://x.org/upd.pdf"));
         (L "downloaded_path",
          JStr (L "/srv/media/change_management/X_20251103_120000.pdf"));
         (L "s3_url",
          JStr (L "https://s3.example/X_20251103_120000.pdf"));
         (L "s3_key", JStr (L "X_20251103_120000.pdf"));
         (L "s3_stored_name", JStr (L "X_20251103_120000.pdf"))]).
Proof.
  apply (download_outcome_is_reported
           (with_s3_upload
              (world_of update_with_pdf (L "NOT_FOUND") (served small_pdf))
              stored_in_s3)
           (L "X") baseline (L "key") None None true
           empty_disk {| tick := 1; files := fun _ => None |}
           _
           [(L "framework_name", JStr (L "X")); (L "has_update", JBool true);
            (L "latest_update_date", JStr (L "2025-10-01"));
            (L "document_url", JStr (L "https://x.org/upd.pdf"))]
           (JDict [(L "local_path",
                    JStr (L "/srv/media/change_management/X_20251103_120000.pdf"));
                   (L "s3_url",
                    JStr (L "https://s3.example/X_20251103_120000.pdf"));
                   (L "s3_key", JStr (L "X_20251103_120000.pdf"));
                   (L "stored_name", JStr (L "X_20251103_120000.pdf"))])).
  - vm_compute. reflexivity.
  - reflexivity.
  - vm_compute. reflexivity.
Defined.


